(** * The AI-town simulation engine: conversations, entities, world and engine step

    A shallow embedding of the TypeScript sources
    [convex/aiTown/{player,agent,conversation,world,game,main,inputs}.ts],
    [convex/engine/abstractGame.ts] and
    [convex/agent/{memory,conversation}.ts].

    Conventions of the embedding.
    - A JavaScript [number] that holds a real quantity (coordinates, speed,
      trust, emotions, importance) is a real number [R]: rounding, NaN and the
      infinities of IEEE doubles are outside the model.  Timestamps in
      milliseconds are integers [Z]; counters and array indices are [Z] or
      [nat].
    - An optional field [f?: T] is [option T].  JavaScript tests such a field
      with [if (this.f)], which is false for [undefined] and also for the
      empty string and for 0: [truthyStr] and [truthyNum] below.
    - [Date.now()] is an explicit argument [clock]: one reading per method
      call, and one for a whole engine step.  The [now] handed to the [tick]
      methods is a separate argument, as in the source, where it is the
      engine's simulation time.
    - A method that mutates [this] returns the new object; a method that can
      [throw] returns a [Result].
    - A [Map<string, V>] is an association list in insertion order.
    - A string that serves as an identifier or as a payload is a [string].
      A string whose characters are read, through [length] and
      [charCodeAt], is the list of its UTF-16 code units, [JSString]. *)

From Stdlib Require Import String List ZArith Reals Lra Lia Bool.
From Stdlib Require Import Sorting Permutation DecimalString DecimalPos DecimalZ.
Import ListNotations.

Local Open Scope string_scope.
Local Open Scope list_scope.

(** ** JavaScript helpers *)

Definition truthyStr (o : option string) : bool :=
  match o with
  | Some s => negb (s =? "")
  | None => false
  end.

Definition truthyNum (o : option Z) : bool :=
  match o with
  | Some z => negb (z =? 0)%Z
  | None => false
  end.

(** [Array.prototype.includes] on an array of strings. *)
Definition includes (l : list string) (s : string) : bool :=
  existsb (fun q => q =? s) l.

(** [l.filter(p => p !== s)]. *)
Definition without (l : list string) (s : string) : list string :=
  filter (fun q => negb (q =? s)) l.

(** A string as the sequence of its UTF-16 code units, each below 65536:
    [s.length] is the length of the list and [s.charCodeAt(i)] its entry
    [i]. *)
Definition JSString : Type := list nat.

(** [n.toString()] for an integer-valued number. *)
Definition toString (z : Z) : string := NilZero.string_of_int (Z.to_int z).

Definition Rltb (x y : R) : bool := if Rlt_dec x y then true else false.
Definition Rleb (x y : R) : bool := if Rle_dec x y then true else false.

(** Thrown errors. *)
Inductive Result (A : Type) : Type :=
| Ok (a : A)
| Throw (message : string).
Arguments Ok {A} a.
Arguments Throw {A} message.

Definition bind {A B : Type} (r : Result A) (k : A -> Result B) : Result B :=
  match r with
  | Ok a => k a
  | Throw m => Throw m
  end.

Notation "x <- r ;; k" := (bind r (fun x => k))
  (at level 61, r at next level, right associativity).

(** The [Map<string, V>] of the [World]. *)
Module JSMap.
Section Ops.
Context {V : Type}.
Definition t := list (string * V).

Fixpoint get (k : string) (m : t) : option V :=
  match m with
  | [] => None
  | (k', v) :: m' => if k' =? k then Some v else get k m'
  end.

(** [set] keeps the position of an existing key and appends a new one. *)
Fixpoint set (k : string) (v : V) (m : t) : t :=
  match m with
  | [] => [(k, v)]
  | (k', v') :: m' =>
      if k' =? k then (k, v) :: m' else (k', v') :: set k v m'
  end.

Fixpoint delete (k : string) (m : t) : t :=
  match m with
  | [] => []
  | (k', v') :: m' =>
      if k' =? k then m' else (k', v') :: delete k m'
  end.

Definition keys (m : t) : list string := map fst m.
Definition values (m : t) : list V := map snd m.

(** [for (const v of m.values()) v.f()] for a method that mutates [v]. *)
Definition forEach (f : V -> V) (m : t) : t :=
  map (fun kv => (fst kv, f (snd kv))) m.
End Ops.
Arguments t V : clear implicits.
End JSMap.

(** ** Data shared by players and agents *)

Record Point : Type := { x : R; y : R }.

Record Pathfinding : Type := {
  destination : Point;
  path : list Point;
  currentStep : nat;
}.

(** A row of the [messages] table. *)
Record MessageRow : Type := {
  row_conversationId : string;
  row_messageUuid : string;
  row_author : string;
  row_text : string;
}.

(** [db.query(table).withIndex(.. id ..).first()] followed by [patch] or
    [insert]: the row with the same id is replaced, else a row is appended. *)
Fixpoint upsert {A : Type} (key : A -> string) (a : A) (table : list A) : list A :=
  match table with
  | [] => [a]
  | b :: table' =>
      if key b =? key a then a :: table' else b :: upsert key a table'
  end.

(** [db.query(table).withIndex('worldId', q => q.eq('worldId', id)).collect()]
    on the rows of one world.  The index is on [worldId, id], so the rows
    come in the order of their [id] strings, and rows with the same [id] in
    the order of their creation, which is the order of the table. *)
Fixpoint insertById {A : Type} (key : A -> string) (a : A) (rows : list A)
  : list A :=
  match rows with
  | [] => [a]
  | b :: rows' =>
      if String.leb (key a) (key b) then a :: b :: rows'
      else b :: insertById key a rows'
  end.

Definition byWorldId {A : Type} (key : A -> string) (rows : list A) : list A :=
  fold_right (insertById key) [] rows.

(** ** Player ([convex/aiTown/player.ts]) *)

Module Player.
Inductive Status : Type := Idle | Walking | Talking | Thinking.

Record t : Type := {
  id : string;
  name : string;
  character : string;
  position : Point;
  facing : Point;
  speed : R;
  conversationId : option string;
  status : Status;
  lastActivity : Z;
  pathfinding : option Pathfinding;
}.

Definition isWalking (s : Status) : bool :=
  match s with Walking => true | _ => false end.

Definition set_position (v : Point) (p : t) : t :=
  {| id := id p; name := name p; character := character p; position := v;
     facing := facing p; speed := speed p; conversationId := conversationId p;
     status := status p; lastActivity := lastActivity p;
     pathfinding := pathfinding p |}.

Definition set_facing (v : Point) (p : t) : t :=
  {| id := id p; name := name p; character := character p;
     position := position p; facing := v; speed := speed p;
     conversationId := conversationId p; status := status p;
     lastActivity := lastActivity p; pathfinding := pathfinding p |}.

Definition set_conversationId (v : option string) (p : t) : t :=
  {| id := id p; name := name p; character := character p;
     position := position p; facing := facing p; speed := speed p;
     conversationId := v; status := status p;
     lastActivity := lastActivity p; pathfinding := pathfinding p |}.

Definition set_status (v : Status) (p : t) : t :=
  {| id := id p; name := name p; character := character p;
     position := position p; facing := facing p; speed := speed p;
     conversationId := conversationId p; status := v;
     lastActivity := lastActivity p; pathfinding := pathfinding p |}.

Definition set_lastActivity (v : Z) (p : t) : t :=
  {| id := id p; name := name p; character := character p;
     position := position p; facing := facing p; speed := speed p;
     conversationId := conversationId p; status := status p;
     lastActivity := v; pathfinding := pathfinding p |}.

Definition set_pathfinding (v : option Pathfinding) (p : t) : t :=
  {| id := id p; name := name p; character := character p;
     position := position p; facing := facing p; speed := speed p;
     conversationId := conversationId p; status := status p;
     lastActivity := lastActivity p; pathfinding := v |}.

Definition create (id name character : string) (clock : Z) : t :=
  {| id := id; name := name; character := character;
     position := {| x := 0; y := 0 |};
     facing := {| x := 0; y := 1 |};
     speed := 1;
     conversationId := None;
     status := Idle;
     lastActivity := clock;
     pathfinding := None |}.

(** [save]: upsert into [archivedPlayers]; [archive] is [save]. *)
Definition save (archivedPlayers : list t) (p : t) : list t :=
  upsert id p archivedPlayers.

Definition archive (archivedPlayers : list t) (p : t) : list t :=
  save archivedPlayers p.

Definition walkTo (d : Point) (clock : Z) (p : t) : t :=
  set_lastActivity clock
    (set_status Walking
       (set_pathfinding
          (Some {| destination := d; path := [d]; currentStep := 0 |}) p)).

Definition stopWalking (clock : Z) (p : t) : t :=
  set_lastActivity clock (set_status Idle (set_pathfinding None p)).

(** The body of [if (this.status === 'walking' && this.pathfinding)]. *)
Definition walk (pf : Pathfinding) (clock : Z) (p : t) : t :=
  if (currentStep pf <? length (path pf))%nat then
    match nth_error (path pf) (currentStep pf) with
    | None => p
    | Some target =>
        let dx := (x target - x (position p))%R in
        let dy := (y target - y (position p))%R in
        let distance := sqrt (dx * dx + dy * dy) in
        if Rltb distance (1 / 10) then
          let pf' := {| destination := destination pf; path := path pf;
                        currentStep := S (currentStep pf) |} in
          if (length (path pf) <=? currentStep pf')%nat then
            stopWalking clock (set_position (destination pf) p)
          else set_pathfinding (Some pf') p
        else
          let moveDistance := (speed p * (16 / 1000))%R in
          let moveX := (dx / distance * moveDistance)%R in
          let moveY := (dy / distance * moveDistance)%R in
          set_facing {| x := (dx / distance)%R; y := (dy / distance)%R |}
            (set_position {| x := (x (position p) + moveX)%R;
                             y := (y (position p) + moveY)%R |} p)
    end
  else p.

Definition tick (now clock : Z) (p : t) : t :=
  let p1 :=
    match pathfinding p with
    | Some pf => if isWalking (status p) then walk pf clock p else p
    | None => p
    end in
  set_lastActivity now p1.

Definition joinConversation (conversationId : string) (clock : Z) (p : t) : t :=
  set_lastActivity clock
    (stopWalking clock
       (set_status Talking (set_conversationId (Some conversationId) p))).

Definition leaveConversation (clock : Z) (p : t) : t :=
  set_lastActivity clock (set_status Idle (set_conversationId None p)).

Definition canStartConversation (p : t) : bool :=
  match status p with
  | Idle => negb (truthyStr (conversationId p))
  | _ => false
  end.
End Player.

(** ** Agent ([convex/aiTown/agent.ts]) *)

Module Agent.
Inductive Status : Type := Idle | Walking | Talking | Thinking | Sleeping.

Record ReputationEntry : Type := {
  timestamp : Z;
  action : string;
  impact : R;
  context : string;
}.

Record SocialConnection : Type := {
  agentId : string;
  trustLevel : R;
  interactionCount : Z;
  lastInteraction : Z;
}.

Record Goal : Type := {
  type : string;
  target : option string;
  priority : R;
  deadline : option Z;
}.

Record EmotionalState : Type := {
  happiness : R;
  stress : R;
  energy : R;
  sociability : R;
}.

Record t : Type := {
  id : string;
  name : string;
  character : string;
  position : Point;
  facing : Point;
  speed : R;
  conversationId : option string;
  status : Status;
  lastActivity : Z;
  pathfinding : option Pathfinding;
  trustScore : R;
  reputationHistory : list ReputationEntry;
  socialConnections : list SocialConnection;
  currentGoal : option Goal;
  emotionalState : EmotionalState;
  lastWakeUp : Z;
  sleepUntil : option Z;
  memoryImportanceThreshold : R;
}.

Definition isWalking (s : Status) : bool :=
  match s with Walking => true | _ => false end.
Definition isSleeping (s : Status) : bool :=
  match s with Sleeping => true | _ => false end.

(** Field assignments [this.f = v]. *)
Definition set_position (v : Point) (a : t) : t :=
  {| id := id a; name := name a; character := character a; position := v;
     facing := facing a; speed := speed a; conversationId := conversationId a;
     status := status a; lastActivity := lastActivity a;
     pathfinding := pathfinding a; trustScore := trustScore a;
     reputationHistory := reputationHistory a;
     socialConnections := socialConnections a; currentGoal := currentGoal a;
     emotionalState := emotionalState a; lastWakeUp := lastWakeUp a;
     sleepUntil := sleepUntil a;
     memoryImportanceThreshold := memoryImportanceThreshold a |}.

Definition set_facing (v : Point) (a : t) : t :=
  {| id := id a; name := name a; character := character a;
     position := position a; facing := v; speed := speed a;
     conversationId := conversationId a; status := status a;
     lastActivity := lastActivity a; pathfinding := pathfinding a;
     trustScore := trustScore a; reputationHistory := reputationHistory a;
     socialConnections := socialConnections a; currentGoal := currentGoal a;
     emotionalState := emotionalState a; lastWakeUp := lastWakeUp a;
     sleepUntil := sleepUntil a;
     memoryImportanceThreshold := memoryImportanceThreshold a |}.

Definition set_conversationId (v : option string) (a : t) : t :=
  {| id := id a; name := name a; character := character a;
     position := position a; facing := facing a; speed := speed a;
     conversationId := v; status := status a;
     lastActivity := lastActivity a; pathfinding := pathfinding a;
     trustScore := trustScore a; reputationHistory := reputationHistory a;
     socialConnections := socialConnections a; currentGoal := currentGoal a;
     emotionalState := emotionalState a; lastWakeUp := lastWakeUp a;
     sleepUntil := sleepUntil a;
     memoryImportanceThreshold := memoryImportanceThreshold a |}.

Definition set_status (v : Status) (a : t) : t :=
  {| id := id a; name := name a; character := character a;
     position := position a; facing := facing a; speed := speed a;
     conversationId := conversationId a; status := v;
     lastActivity := lastActivity a; pathfinding := pathfinding a;
     trustScore := trustScore a; reputationHistory := reputationHistory a;
     socialConnections := socialConnections a; currentGoal := currentGoal a;
     emotionalState := emotionalState a; lastWakeUp := lastWakeUp a;
     sleepUntil := sleepUntil a;
     memoryImportanceThreshold := memoryImportanceThreshold a |}.

Definition set_lastActivity (v : Z) (a : t) : t :=
  {| id := id a; name := name a; character := character a;
     position := position a; facing := facing a; speed := speed a;
     conversationId := conversationId a; status := status a;
     lastActivity := v; pathfinding := pathfinding a;
     trustScore := trustScore a; reputationHistory := reputationHistory a;
     socialConnections := socialConnections a; currentGoal := currentGoal a;
     emotionalState := emotionalState a; lastWakeUp := lastWakeUp a;
     sleepUntil := sleepUntil a;
     memoryImportanceThreshold := memoryImportanceThreshold a |}.

Definition set_pathfinding (v : option Pathfinding) (a : t) : t :=
  {| id := id a; name := name a; character := character a;
     position := position a; facing := facing a; speed := speed a;
     conversationId := conversationId a; status := status a;
     lastActivity := lastActivity a; pathfinding := v;
     trustScore := trustScore a; reputationHistory := reputationHistory a;
     socialConnections := socialConnections a; currentGoal := currentGoal a;
     emotionalState := emotionalState a; lastWakeUp := lastWakeUp a;
     sleepUntil := sleepUntil a;
     memoryImportanceThreshold := memoryImportanceThreshold a |}.

Definition set_trustScore (v : R) (a : t) : t :=
  {| id := id a; name := name a; character := character a;
     position := position a; facing := facing a; speed := speed a;
     conversationId := conversationId a; status := status a;
     lastActivity := lastActivity a; pathfinding := pathfinding a;
     trustScore := v; reputationHistory := reputationHistory a;
     socialConnections := socialConnections a; currentGoal := currentGoal a;
     emotionalState := emotionalState a; lastWakeUp := lastWakeUp a;
     sleepUntil := sleepUntil a;
     memoryImportanceThreshold := memoryImportanceThreshold a |}.

Definition set_reputationHistory (v : list ReputationEntry) (a : t) : t :=
  {| id := id a; name := name a; character := character a;
     position := position a; facing := facing a; speed := speed a;
     conversationId := conversationId a; status := status a;
     lastActivity := lastActivity a; pathfinding := pathfinding a;
     trustScore := trustScore a; reputationHistory := v;
     socialConnections := socialConnections a; currentGoal := currentGoal a;
     emotionalState := emotionalState a; lastWakeUp := lastWakeUp a;
     sleepUntil := sleepUntil a;
     memoryImportanceThreshold := memoryImportanceThreshold a |}.

Definition set_socialConnections (v : list SocialConnection) (a : t) : t :=
  {| id := id a; name := name a; character := character a;
     position := position a; facing := facing a; speed := speed a;
     conversationId := conversationId a; status := status a;
     lastActivity := lastActivity a; pathfinding := pathfinding a;
     trustScore := trustScore a; reputationHistory := reputationHistory a;
     socialConnections := v; currentGoal := currentGoal a;
     emotionalState := emotionalState a; lastWakeUp := lastWakeUp a;
     sleepUntil := sleepUntil a;
     memoryImportanceThreshold := memoryImportanceThreshold a |}.

Definition set_currentGoal (v : option Goal) (a : t) : t :=
  {| id := id a; name := name a; character := character a;
     position := position a; facing := facing a; speed := speed a;
     conversationId := conversationId a; status := status a;
     lastActivity := lastActivity a; pathfinding := pathfinding a;
     trustScore := trustScore a; reputationHistory := reputationHistory a;
     socialConnections := socialConnections a; currentGoal := v;
     emotionalState := emotionalState a; lastWakeUp := lastWakeUp a;
     sleepUntil := sleepUntil a;
     memoryImportanceThreshold := memoryImportanceThreshold a |}.

Definition set_emotionalState (v : EmotionalState) (a : t) : t :=
  {| id := id a; name := name a; character := character a;
     position := position a; facing := facing a; speed := speed a;
     conversationId := conversationId a; status := status a;
     lastActivity := lastActivity a; pathfinding := pathfinding a;
     trustScore := trustScore a; reputationHistory := reputationHistory a;
     socialConnections := socialConnections a; currentGoal := currentGoal a;
     emotionalState := v; lastWakeUp := lastWakeUp a;
     sleepUntil := sleepUntil a;
     memoryImportanceThreshold := memoryImportanceThreshold a |}.

Definition set_lastWakeUp (v : Z) (a : t) : t :=
  {| id := id a; name := name a; character := character a;
     position := position a; facing := facing a; speed := speed a;
     conversationId := conversationId a; status := status a;
     lastActivity := lastActivity a; pathfinding := pathfinding a;
     trustScore := trustScore a; reputationHistory := reputationHistory a;
     socialConnections := socialConnections a; currentGoal := currentGoal a;
     emotionalState := emotionalState a; lastWakeUp := v;
     sleepUntil := sleepUntil a;
     memoryImportanceThreshold := memoryImportanceThreshold a |}.

Definition set_sleepUntil (v : option Z) (a : t) : t :=
  {| id := id a; name := name a; character := character a;
     position := position a; facing := facing a; speed := speed a;
     conversationId := conversationId a; status := status a;
     lastActivity := lastActivity a; pathfinding := pathfinding a;
     trustScore := trustScore a; reputationHistory := reputationHistory a;
     socialConnections := socialConnections a; currentGoal := currentGoal a;
     emotionalState := emotionalState a; lastWakeUp := lastWakeUp a;
     sleepUntil := v;
     memoryImportanceThreshold := memoryImportanceThreshold a |}.

Definition set_happiness (v : R) (e : EmotionalState) : EmotionalState :=
  {| happiness := v; stress := stress e; energy := energy e;
     sociability := sociability e |}.
Definition set_stress (v : R) (e : EmotionalState) : EmotionalState :=
  {| happiness := happiness e; stress := v; energy := energy e;
     sociability := sociability e |}.
Definition set_energy (v : R) (e : EmotionalState) : EmotionalState :=
  {| happiness := happiness e; stress := stress e; energy := v;
     sociability := sociability e |}.
Definition set_sociability (v : R) (e : EmotionalState) : EmotionalState :=
  {| happiness := happiness e; stress := stress e; energy := energy e;
     sociability := v |}.

Definition update_emotionalState (f : EmotionalState -> EmotionalState)
    (a : t) : t :=
  set_emotionalState (f (emotionalState a)) a.

(** [create]: [rx] and [ry] are the two draws of [Math.random()]. *)
Definition create (id name character : string) (rx ry : R) (clock : Z) : t :=
  {| id := id; name := name; character := character;
     position := {| x := rx * 100; y := ry * 100 |};
     facing := {| x := 0; y := 1 |};
     speed := 1;
     conversationId := None;
     status := Idle;
     lastActivity := clock;
     pathfinding := None;
     trustScore := 50;
     reputationHistory := [];
     socialConnections := [];
     currentGoal := None;
     emotionalState :=
       {| happiness := 50; stress := 20; energy := 80; sociability := 60 |};
     lastWakeUp := clock;
     sleepUntil := None;
     memoryImportanceThreshold := 5 |}.

Definition save (archivedAgents : list t) (a : t) : list t :=
  upsert id a archivedAgents.

Definition archive (archivedAgents : list t) (a : t) : list t :=
  save archivedAgents a.

(** [Math.max(0, Math.min(100, v))]. *)
Definition clamp (v : R) : R := Rmax 0 (Rmin 100 v).

(** [history.slice(-100)] when the history is longer than 100 entries. *)
Definition trimHistory (h : list ReputationEntry) : list ReputationEntry :=
  if (100 <? length h)%nat then skipn (length h - 100) h else h.

Definition updateTrustScore (delta : R) (action context : string)
    (clock : Z) (a : t) : t :=
  let a1 := set_trustScore (clamp (trustScore a + delta)) a in
  let entry := {| timestamp := clock; action := action; impact := delta;
                  context := context |} in
  let a2 := set_reputationHistory
              (trimHistory (reputationHistory a1 ++ [entry])) a1 in
  if Rltb 0 delta then
    let a3 := update_emotionalState
                (fun e => set_happiness
                            (Rmin 100 (happiness e + delta * (5 / 10))) e) a2 in
    update_emotionalState
      (fun e => set_stress (Rmax 0 (stress e - delta * (3 / 10))) e) a3
  else
    let a3 := update_emotionalState
                (fun e => set_stress
                            (Rmin 100 (stress e + Rabs delta * (4 / 10))) e) a2 in
    update_emotionalState
      (fun e => set_happiness (Rmax 0 (happiness e + delta * (3 / 10))) e) a3.

Definition findConnection (agentId' : string) (l : list SocialConnection)
  : option SocialConnection :=
  find (fun c => agentId c =? agentId') l.

(** The connection object returned by [find] is mutated in place: the first
    entry for [agentId'] is the one that changes. *)
Fixpoint modifyConnection (f : SocialConnection -> SocialConnection)
    (agentId' : string) (l : list SocialConnection) : list SocialConnection :=
  match l with
  | [] => []
  | c :: l' =>
      if agentId c =? agentId' then f c :: l'
      else c :: modifyConnection f agentId' l'
  end.

Definition updateSocialConnection (agentId' : string) (trustDelta : R)
    (clock : Z) (a : t) : t :=
  let connections :=
    match findConnection agentId' (socialConnections a) with
    | Some _ => socialConnections a
    | None =>
        socialConnections a ++
          [{| agentId := agentId'; trustLevel := 50; interactionCount := 0;
              lastInteraction := clock |}]
    end in
  let touch c :=
    {| agentId := agentId c;
       trustLevel := clamp (trustLevel c + trustDelta);
       interactionCount := interactionCount c + 1;
       lastInteraction := clock |} in
  let a1 := set_socialConnections
              (modifyConnection touch agentId' connections) a in
  update_emotionalState
    (fun e => set_sociability (Rmin 100 (sociability e + 1)) e) a1.

Definition getTrustLevel (agentId' : string) (a : t) : R :=
  match findConnection agentId' (socialConnections a) with
  | Some c => trustLevel c
  | None => 50
  end.

Definition shouldTrust (agentId' : string) (threshold : R) (a : t) : bool :=
  let combinedTrust :=
    (getTrustLevel agentId' a * (7 / 10) + trustScore a * (3 / 10))%R in
  let emotionalModifier :=
    ((happiness (emotionalState a) - stress (emotionalState a)) * (1 / 10))%R in
  Rleb threshold (combinedTrust + emotionalModifier).

Definition shouldSleep (now : Z) (a : t) : bool :=
  let hoursSinceWakeUp :=
    (IZR (now - lastWakeUp a) / IZR (1000 * 60 * 60))%R in
  Rltb (energy (emotionalState a)) 30 || Rltb 16 hoursSinceWakeUp.

Definition defaultSleepDuration : Z := 8 * 60 * 60 * 1000.

Definition goToSleep (duration clock : Z) (a : t) : t :=
  update_emotionalState
    (fun e => set_energy (Rmin 100 (energy e + 20)) e)
    (set_sleepUntil (Some (clock + duration)%Z) (set_status Sleeping a)).

Definition wakeUp (clock : Z) (a : t) : t :=
  update_emotionalState
    (fun e => set_stress (Rmax 0 (stress e - 20)) (set_energy 100 e))
    (set_lastWakeUp clock (set_sleepUntil None (set_status Idle a))).

Definition walkTo (d : Point) (clock : Z) (a : t) : t :=
  if isSleeping (status a) then a
  else
    set_lastActivity clock
      (set_status Walking
         (set_pathfinding
            (Some {| destination := d; path := [d]; currentStep := 0 |}) a)).

Definition stopWalking (clock : Z) (a : t) : t :=
  set_lastActivity clock (set_status Idle (set_pathfinding None a)).

Definition joinConversation (conversationId : string) (clock : Z) (a : t) : t :=
  update_emotionalState
    (fun e => set_sociability (Rmin 100 (sociability e + 2)) e)
    (set_lastActivity clock
       (stopWalking clock
          (set_status Talking (set_conversationId (Some conversationId) a)))).

Definition leaveConversation (clock : Z) (a : t) : t :=
  set_lastActivity clock (set_status Idle (set_conversationId None a)).

(** [sendMessage]: the message row is inserted under the agent's own
    [conversationId]; no [Conversation] object is consulted. *)
Definition sendMessage (messages : list MessageRow) (text messageUuid : string)
    (leave : bool) (clock : Z) (a : t) : Result (list MessageRow * t) :=
  match conversationId a with
  | Some cid =>
      if truthyStr (Some cid) then
        let messages' :=
          messages ++ [{| row_conversationId := cid;
                          row_messageUuid := messageUuid;
                          row_author := id a;
                          row_text := text |}] in
        let a1 := set_lastActivity clock a in
        Ok (messages', if leave then leaveConversation clock a1 else a1)
      else Throw ("Agent " ++ id a ++ " is not in a conversation")
  | None => Throw ("Agent " ++ id a ++ " is not in a conversation")
  end.

(** The body of [if (this.status === 'walking' && this.pathfinding)]. *)
Definition walk (pf : Pathfinding) (clock : Z) (a : t) : t :=
  if (currentStep pf <? length (path pf))%nat then
    match nth_error (path pf) (currentStep pf) with
    | None => a
    | Some target =>
        let dx := (x target - x (position a))%R in
        let dy := (y target - y (position a))%R in
        let distance := sqrt (dx * dx + dy * dy) in
        if Rltb distance (1 / 10) then
          let pf' := {| destination := destination pf; path := path pf;
                        currentStep := S (currentStep pf) |} in
          if (length (path pf) <=? currentStep pf')%nat then
            stopWalking clock (set_position (destination pf) a)
          else set_pathfinding (Some pf') a
        else
          let moveDistance := (speed a * (16 / 1000))%R in
          let moveX := (dx / distance * moveDistance)%R in
          let moveY := (dy / distance * moveDistance)%R in
          set_facing {| x := (dx / distance)%R; y := (dy / distance)%R |}
            (set_position {| x := (x (position a) + moveX)%R;
                             y := (y (position a) + moveY)%R |} a)
    end
  else a.

(** The part of [tick] after the two sleep checks. *)
Definition awakeTick (now clock : Z) (a : t) : t :=
  let a1 :=
    match pathfinding a with
    | Some pf => if isWalking (status a) then walk pf clock a else a
    | None => a
    end in
  let a2 := update_emotionalState
              (fun e => set_energy (Rmin 100 (energy e + 1 / 10)) e) a1 in
  let a3 := update_emotionalState
              (fun e => set_stress (Rmax 0 (stress e - 5 / 100)) e) a2 in
  let timeSinceActivity := (now - lastActivity a3)%Z in
  let a4 :=
    if (60000 <? timeSinceActivity)%Z then
      update_emotionalState
        (fun e => set_sociability (Rmax 0 (sociability e - 1 / 10)) e) a3
    else a3 in
  set_lastActivity now a4.

Definition tick (now clock : Z) (a : t) : t :=
  let afterWake :=
    if isSleeping (status a) then
      match sleepUntil a with
      | Some u =>
          if truthyNum (Some u) && (u <=? now)%Z then Some (wakeUp clock a)
          else None
      | None => None
      end
    else Some a in
  match afterWake with
  | None => a
  | Some a1 =>
      if shouldSleep now a1 then goToSleep defaultSleepDuration clock a1
      else awakeTick now clock a1
  end.

Definition canStartConversation (a : t) : bool :=
  match status a with
  | Sleeping | Talking => false
  | _ => negb (truthyStr (conversationId a))
  end.
End Agent.

(** ** Conversation ([convex/aiTown/conversation.ts]) *)

Module Conversation.
Inductive Status : Type := Waiting | Active | Ended.

Record LastMessage : Type := {
  author : string;
  text : string;
  timestamp : Z;
  messageUuid : string;
}.

Record t : Type := {
  id : string;
  creator : string;
  created : Z;
  ended : option Z;
  lastMessage : option LastMessage;
  numMessages : Z;
  participants : list string;
  invited : list string;
  status : Status;
  currentSpeaker : option string;
  speakingUntil : option Z;
  inactivityTimeout : option Z;
}.

Definition isActive (s : Status) : bool :=
  match s with Active => true | _ => false end.
Definition isWaiting (s : Status) : bool :=
  match s with Waiting => true | _ => false end.

(** Field assignments [this.f = v]. *)
Definition set_ended (v : option Z) (c : t) : t :=
  {| id := id c; creator := creator c; created := created c; ended := v;
     lastMessage := lastMessage c; numMessages := numMessages c;
     participants := participants c; invited := invited c;
     status := status c; currentSpeaker := currentSpeaker c;
     speakingUntil := speakingUntil c;
     inactivityTimeout := inactivityTimeout c |}.

Definition set_lastMessage (v : option LastMessage) (c : t) : t :=
  {| id := id c; creator := creator c; created := created c;
     ended := ended c; lastMessage := v; numMessages := numMessages c;
     participants := participants c; invited := invited c;
     status := status c; currentSpeaker := currentSpeaker c;
     speakingUntil := speakingUntil c;
     inactivityTimeout := inactivityTimeout c |}.

Definition set_numMessages (v : Z) (c : t) : t :=
  {| id := id c; creator := creator c; created := created c;
     ended := ended c; lastMessage := lastMessage c; numMessages := v;
     participants := participants c; invited := invited c;
     status := status c; currentSpeaker := currentSpeaker c;
     speakingUntil := speakingUntil c;
     inactivityTimeout := inactivityTimeout c |}.

Definition set_participants (v : list string) (c : t) : t :=
  {| id := id c; creator := creator c; created := created c;
     ended := ended c; lastMessage := lastMessage c;
     numMessages := numMessages c; participants := v; invited := invited c;
     status := status c; currentSpeaker := currentSpeaker c;
     speakingUntil := speakingUntil c;
     inactivityTimeout := inactivityTimeout c |}.

Definition set_invited (v : list string) (c : t) : t :=
  {| id := id c; creator := creator c; created := created c;
     ended := ended c; lastMessage := lastMessage c;
     numMessages := numMessages c; participants := participants c;
     invited := v; status := status c; currentSpeaker := currentSpeaker c;
     speakingUntil := speakingUntil c;
     inactivityTimeout := inactivityTimeout c |}.

Definition set_status (v : Status) (c : t) : t :=
  {| id := id c; creator := creator c; created := created c;
     ended := ended c; lastMessage := lastMessage c;
     numMessages := numMessages c; participants := participants c;
     invited := invited c; status := v; currentSpeaker := currentSpeaker c;
     speakingUntil := speakingUntil c;
     inactivityTimeout := inactivityTimeout c |}.

Definition set_currentSpeaker (v : option string) (c : t) : t :=
  {| id := id c; creator := creator c; created := created c;
     ended := ended c; lastMessage := lastMessage c;
     numMessages := numMessages c; participants := participants c;
     invited := invited c; status := status c; currentSpeaker := v;
     speakingUntil := speakingUntil c;
     inactivityTimeout := inactivityTimeout c |}.

Definition set_speakingUntil (v : option Z) (c : t) : t :=
  {| id := id c; creator := creator c; created := created c;
     ended := ended c; lastMessage := lastMessage c;
     numMessages := numMessages c; participants := participants c;
     invited := invited c; status := status c;
     currentSpeaker := currentSpeaker c; speakingUntil := v;
     inactivityTimeout := inactivityTimeout c |}.

Definition set_inactivityTimeout (v : option Z) (c : t) : t :=
  {| id := id c; creator := creator c; created := created c;
     ended := ended c; lastMessage := lastMessage c;
     numMessages := numMessages c; participants := participants c;
     invited := invited c; status := status c;
     currentSpeaker := currentSpeaker c; speakingUntil := speakingUntil c;
     inactivityTimeout := v |}.

(** [create]: the status is decided on the [invited] argument as passed,
    before the creator is filtered out of it. *)
Definition create (id creator : string) (invited : list string) (clock : Z) : t :=
  {| id := id;
     creator := creator;
     created := clock;
     ended := None;
     lastMessage := None;
     numMessages := 0;
     participants := [creator];
     invited := without invited creator;
     status := if (1 <? length invited)%nat then Waiting else Active;
     currentSpeaker := None;
     speakingUntil := None;
     inactivityTimeout := None |}.

Definition save (archivedConversations : list t) (c : t) : list t :=
  upsert id c archivedConversations.

Definition archive (archivedConversations : list t) (clock : Z) (c : t)
  : list t * t :=
  let c' := set_ended (Some clock) (set_status Ended c) in
  (save archivedConversations c', c').

Definition acceptInvite (playerId : string) (clock : Z) (c : t) : Result t :=
  if negb (includes (invited c) playerId) then
    Throw ("Player " ++ playerId ++ " was not invited to this conversation")
  else
    let c1 := set_invited (without (invited c) playerId) c in
    let c2 := set_participants (participants c1 ++ [playerId]) c1 in
    if (length (invited c2) =? 0)%nat && isWaiting (status c2) then
      Ok (set_inactivityTimeout (Some (clock + 30000)%Z)
            (set_status Active c2))
    else Ok c2.

Definition rejectInvite (playerId : string) (clock : Z) (c : t) : Result t :=
  if negb (includes (invited c) playerId) then
    Throw ("Player " ++ playerId ++ " was not invited to this conversation")
  else
    let c1 := set_invited (without (invited c) playerId) c in
    if (length (invited c1) =? 0)%nat && (length (participants c1) =? 1)%nat
    then Ok (set_ended (Some clock) (set_status Ended c1))
    else Ok c1.

(** [this.currentSpeaker && this.currentSpeaker !== author]. *)
Definition otherSpeaks (author : string) (c : t) : bool :=
  match currentSpeaker c with
  | Some s => truthyStr (Some s) && negb (s =? author)
  | None => false
  end.

Definition addMessage (messages : list MessageRow)
    (author text messageUuid : string) (clock : Z) (c : t)
  : Result (list MessageRow * t) :=
  if negb (includes (participants c) author) then
    Throw ("Player " ++ author ++ " is not a participant in this conversation")
  else if negb (isActive (status c)) then
    Throw "Conversation is not active"
  else if otherSpeaks author c then
    Throw ("It's " ++ match currentSpeaker c with Some s => s | None => "" end
             ++ "'s turn to speak")
  else
    let timestamp := clock in
    let messages' :=
      messages ++ [{| row_conversationId := id c;
                      row_messageUuid := messageUuid;
                      row_author := author;
                      row_text := text |}] in
    let c1 := set_lastMessage
                (Some {| author := author; text := text;
                         timestamp := timestamp;
                         messageUuid := messageUuid |}) c in
    let c2 := set_numMessages (numMessages c1 + 1)%Z c1 in
    let c3 := set_currentSpeaker (Some author) c2 in
    let c4 := set_speakingUntil (Some (timestamp + 10000)%Z) c3 in
    Ok (messages', set_inactivityTimeout (Some (timestamp + 60000)%Z) c4).

Definition isCurrentSpeaker (playerId : string) (c : t) : bool :=
  match currentSpeaker c with
  | Some s => s =? playerId
  | None => false
  end.

Definition finishSpeaking (playerId : string) (clock : Z) (c : t) : Result t :=
  if negb (isCurrentSpeaker playerId c) then
    Throw ("Player " ++ playerId ++ " is not the current speaker")
  else
    Ok (set_inactivityTimeout (Some (clock + 30000)%Z)
          (set_speakingUntil None (set_currentSpeaker None c))).

Definition leave (playerId : string) (clock : Z) (c : t) : t :=
  let c1 := set_participants (without (participants c) playerId) c in
  let c2 := set_invited (without (invited c1) playerId) c1 in
  let c3 :=
    if isCurrentSpeaker playerId c2 then
      set_speakingUntil None (set_currentSpeaker None c2)
    else c2 in
  if (length (participants c3) =? 0)%nat then
    set_ended (Some clock) (set_status Ended c3)
  else if (length (participants c3) =? 1)%nat then
    set_ended (Some clock) (set_status Ended c3)
  else c3.

(** [this.t && now > this.t] for an optional deadline [t]. *)
Definition elapsed (deadline : option Z) (now : Z) : bool :=
  match deadline with
  | Some d => truthyNum (Some d) && (d <? now)%Z
  | None => false
  end.

Definition tick (now : Z) (c : t) : t :=
  if negb (isActive (status c)) then c
  else
    let c1 :=
      if elapsed (speakingUntil c) now then
        set_speakingUntil None (set_currentSpeaker None c)
      else c in
    if elapsed (inactivityTimeout c1) now then
      set_ended (Some now) (set_status Ended c1)
    else c1.

Definition isFinished (c : t) : bool :=
  match status c with Ended => true | _ => false end.

Definition canSpeak (playerId : string) (c : t) : bool :=
  if negb (includes (participants c) playerId) then false
  else if negb (isActive (status c)) then false
  else negb (truthyStr (currentSpeaker c)) || isCurrentSpeaker playerId c.

(** [l.indexOf(s)]: the first index that holds [s], or -1. *)
Fixpoint indexOf (l : list string) (s : string) : Z :=
  match l with
  | [] => (-1)%Z
  | q :: l' =>
      if q =? s then 0%Z
      else
        let i := indexOf l' s in
        if (i <? 0)%Z then (-1)%Z else (i + 1)%Z
  end.

(** [getNextSpeaker]: [None] is [undefined].  The index is a non-negative
    integer, on which the JavaScript [%] is [Z.rem]. *)
Definition getNextSpeaker (c : t) : option string :=
  if (length (participants c) =? 0)%nat then None
  else
    match currentSpeaker c with
    | Some s =>
        if truthyStr (Some s) then
          let currentIndex := indexOf (participants c) s in
          let nextIndex :=
            Z.rem (currentIndex + 1) (Z.of_nat (length (participants c))) in
          nth_error (participants c) (Z.to_nat nextIndex)
        else nth_error (participants c) 0
    | None => nth_error (participants c) 0
    end.

Definition needsAttention (now : Z) (c : t) : bool :=
  if negb (isActive (status c)) then false
  else if elapsed (speakingUntil c) now then true
  else
    match inactivityTimeout c with
    | Some d => truthyNum (Some d) && (d - 10000 <? now)%Z
    | None => false
    end.
End Conversation.

(** ** The document store

    Only the rows of the one world under consideration are kept, so the
    [worldId] column is left out.  Tables are lists in insertion order. *)

Record PlayerDescription : Type := {
  pd_playerId : string;
  pd_name : string;
  pd_character : string;
  pd_description : string;
}.

Record Db : Type := {
  messages : list MessageRow;
  archivedPlayers : list Player.t;
  archivedAgents : list Agent.t;
  archivedConversations : list Conversation.t;
  playerDescriptions : list PlayerDescription;
  agentDescriptions : list PlayerDescription;
}.

Definition set_messages (v : list MessageRow) (db : Db) : Db :=
  {| messages := v; archivedPlayers := archivedPlayers db;
     archivedAgents := archivedAgents db;
     archivedConversations := archivedConversations db;
     playerDescriptions := playerDescriptions db;
     agentDescriptions := agentDescriptions db |}.

Definition set_archivedPlayers (v : list Player.t) (db : Db) : Db :=
  {| messages := messages db; archivedPlayers := v;
     archivedAgents := archivedAgents db;
     archivedConversations := archivedConversations db;
     playerDescriptions := playerDescriptions db;
     agentDescriptions := agentDescriptions db |}.

Definition set_archivedAgents (v : list Agent.t) (db : Db) : Db :=
  {| messages := messages db; archivedPlayers := archivedPlayers db;
     archivedAgents := v;
     archivedConversations := archivedConversations db;
     playerDescriptions := playerDescriptions db;
     agentDescriptions := agentDescriptions db |}.

Definition set_archivedConversations (v : list Conversation.t) (db : Db) : Db :=
  {| messages := messages db; archivedPlayers := archivedPlayers db;
     archivedAgents := archivedAgents db;
     archivedConversations := v;
     playerDescriptions := playerDescriptions db;
     agentDescriptions := agentDescriptions db |}.

Definition set_playerDescriptions (v : list PlayerDescription) (db : Db) : Db :=
  {| messages := messages db; archivedPlayers := archivedPlayers db;
     archivedAgents := archivedAgents db;
     archivedConversations := archivedConversations db;
     playerDescriptions := v;
     agentDescriptions := agentDescriptions db |}.

Definition emptyDb : Db :=
  {| messages := []; archivedPlayers := []; archivedAgents := [];
     archivedConversations := []; playerDescriptions := [];
     agentDescriptions := [] |}.

(** ** World ([convex/aiTown/world.ts]) *)

(** [this.players.get(id) || this.agents.get(id)]: a player or an agent. *)
Inductive Entity : Type :=
| IsPlayer (p : Player.t)
| IsAgent (a : Agent.t).

Definition entityConversationId (e : Entity) : option string :=
  match e with
  | IsPlayer p => Player.conversationId p
  | IsAgent a => Agent.conversationId a
  end.

Module World.
Record t : Type := {
  nextId : Z;
  lastViewed : Z;
  players : JSMap.t Player.t;
  agents : JSMap.t Agent.t;
  conversations : JSMap.t Conversation.t;
}.

Definition set_nextId (v : Z) (w : t) : t :=
  {| nextId := v; lastViewed := lastViewed w; players := players w;
     agents := agents w; conversations := conversations w |}.
Definition set_lastViewed (v : Z) (w : t) : t :=
  {| nextId := nextId w; lastViewed := v; players := players w;
     agents := agents w; conversations := conversations w |}.
Definition set_players (v : JSMap.t Player.t) (w : t) : t :=
  {| nextId := nextId w; lastViewed := lastViewed w; players := v;
     agents := agents w; conversations := conversations w |}.
Definition set_agents (v : JSMap.t Agent.t) (w : t) : t :=
  {| nextId := nextId w; lastViewed := lastViewed w; players := players w;
     agents := v; conversations := conversations w |}.
Definition set_conversations (v : JSMap.t Conversation.t) (w : t) : t :=
  {| nextId := nextId w; lastViewed := lastViewed w; players := players w;
     agents := agents w; conversations := v |}.

(** [new World(doc)]: the three maps start empty. *)
Definition new (nextId lastViewed : Z) : t :=
  {| nextId := nextId; lastViewed := lastViewed; players := [];
     agents := []; conversations := [] |}.

(** [nextId++] on a counter that is an integer between 0 and 2^53: the sum
    is exact below 2^53, and [2^53 + 1] is rounded back to [2^53]. *)
Definition increment (n : Z) : Z := if (n <? 2 ^ 53)%Z then (n + 1)%Z else n.

(** [allocId]: [nextId.toString()], then [nextId++]. *)
Definition allocId (w : t) : string * t :=
  (toString (nextId w), set_nextId (increment (nextId w)) w).

(** [load]: each of the three queries reads its table through the index
    [worldId], and the rows are put into the map in that order. *)
Definition load (db : Db) (w : t) : t :=
  let w1 := fold_left
              (fun w p => set_players (JSMap.set (Player.id p) p (players w)) w)
              (byWorldId Player.id (archivedPlayers db)) w in
  let w2 := fold_left
              (fun w a => set_agents (JSMap.set (Agent.id a) a (agents w)) w)
              (byWorldId Agent.id (archivedAgents db)) w1 in
  fold_left
    (fun w c =>
       set_conversations
         (JSMap.set (Conversation.id c) c (conversations w)) w)
    (byWorldId Conversation.id (archivedConversations db)) w2.

Definition save (db : Db) (w : t) : Db :=
  let db1 := fold_left
               (fun db p =>
                  set_archivedPlayers (Player.save (archivedPlayers db) p) db)
               (JSMap.values (players w)) db in
  let db2 := fold_left
               (fun db a =>
                  set_archivedAgents (Agent.save (archivedAgents db) a) db)
               (JSMap.values (agents w)) db1 in
  fold_left
    (fun db c =>
       set_archivedConversations
         (Conversation.save (archivedConversations db) c) db)
    (JSMap.values (conversations w)) db2.

Definition find (id : string) (w : t) : option Entity :=
  match JSMap.get id (players w) with
  | Some p => Some (IsPlayer p)
  | None =>
      match JSMap.get id (agents w) with
      | Some a => Some (IsAgent a)
      | None => None
      end
  end.

(** [participant.conversationId = v] on the object that [find] returns. *)
Definition assignConversationId (id : string) (v : option string) (w : t) : t :=
  match find id w with
  | Some (IsPlayer p) =>
      set_players (JSMap.set id (Player.set_conversationId v p) (players w)) w
  | Some (IsAgent a) =>
      set_agents (JSMap.set id (Agent.set_conversationId v a) (agents w)) w
  | None => w
  end.

Definition addPlayer (name character description : string) (clock : Z)
    (db : Db) (w : t) : Player.t * Db * t :=
  let (playerId, w1) := allocId w in
  let db1 := set_playerDescriptions
               (playerDescriptions db ++
                  [{| pd_playerId := playerId; pd_name := name;
                      pd_character := character;
                      pd_description := description |}]) db in
  let player := Player.create playerId name character clock in
  (player, db1, set_players (JSMap.set playerId player (players w1)) w1).

Definition removePlayer (playerId : string) (clock : Z) (db : Db) (w : t)
  : Db * t :=
  match JSMap.get playerId (players w) with
  | None => (db, w)
  | Some player =>
      let w1 :=
        match Player.conversationId player with
        | Some cid =>
            if truthyStr (Some cid) then
              match JSMap.get cid (conversations w) with
              | Some conversation =>
                  set_conversations
                    (JSMap.set cid
                       (Conversation.leave playerId clock conversation)
                       (conversations w)) w
              | None => w
              end
            else w
        | None => w
        end in
      let w2 := set_players (JSMap.delete playerId (players w1)) w1 in
      (set_archivedPlayers (Player.archive (archivedPlayers db) player) db, w2)
  end.

Definition startConversation (creatorId inviteeId : string) (clock : Z)
    (w : t) : Result (Conversation.t * t) :=
  match find creatorId w, find inviteeId w with
  | Some creator, Some invitee =>
      if truthyStr (entityConversationId creator)
         || truthyStr (entityConversationId invitee)
      then Throw "One or both participants are already in a conversation"
      else
        let (conversationId, w1) := allocId w in
        let conversation :=
          Conversation.create conversationId creatorId
            [creatorId; inviteeId] clock in
        let w2 := set_conversations
                    (JSMap.set conversationId conversation (conversations w1))
                    w1 in
        let w3 := assignConversationId creatorId (Some conversationId) w2 in
        let w4 := assignConversationId inviteeId (Some conversationId) w3 in
        Ok (conversation, w4)
  | _, _ => Throw "One or both participants not found"
  end.

Definition endConversation (conversationId : string) (clock : Z) (db : Db)
    (w : t) : Db * t :=
  match JSMap.get conversationId (conversations w) with
  | None => (db, w)
  | Some conversation =>
      let w1 := fold_left
                  (fun w participantId =>
                     assignConversationId participantId None w)
                  (Conversation.participants conversation) w in
      let (archived, _) :=
        Conversation.archive (archivedConversations db) clock conversation in
      (set_archivedConversations archived db,
       set_conversations (JSMap.delete conversationId (conversations w1)) w1)
  end.

(** One round of the loop over [this.conversations.values()].  The loop
    deletes entries of the map it walks; an entry deleted before its turn is
    not visited. *)
Definition tickConversation (now clock : Z) (st : Db * t) (key : string)
  : Db * t :=
  let (db, w) := st in
  match JSMap.get key (conversations w) with
  | None => st
  | Some conversation =>
      let conversation' := Conversation.tick now conversation in
      let w1 := set_conversations
                  (JSMap.set key conversation' (conversations w)) w in
      if Conversation.isFinished conversation' then
        endConversation (Conversation.id conversation') clock db w1
      else (db, w1)
  end.

Definition tick (now clock : Z) (db : Db) (w : t) : Db * t :=
  let w1 := set_players (JSMap.forEach (Player.tick now clock) (players w)) w in
  let w2 := set_agents (JSMap.forEach (Agent.tick now clock) (agents w1)) w1 in
  let (db', w3) :=
    fold_left (tickConversation now clock)
      (JSMap.keys (conversations w2)) (db, w2) in
  (db', set_lastViewed now w3).

Definition restart (clock : Z) (db : Db) (w : t) : Db * t :=
  ({| messages := messages db; archivedPlayers := []; archivedAgents := [];
      archivedConversations := []; playerDescriptions := [];
      agentDescriptions := [] |},
   {| nextId := 0; lastViewed := clock; players := []; agents := [];
      conversations := [] |}).
End World.

(** ** Engine records and the input queue ([convex/engine/schema.ts]) *)

Record Engine : Type := {
  currentTime : option Z;
  lastStepTs : option Z;
  processedInputNumber : option Z;
  running : bool;
  generationNumber : Z;
}.

Record WorldDoc : Type := { doc_nextId : Z; doc_lastViewed : Z }.

(** A queued command.  Each constructor is an input under a name that has a
    handler, with [args] of the shape that the handler reads; [malformed]
    stands for an input under any other name. *)
Inductive Input : Type :=
| join (name character description : string)
| leave (playerId : string)
| sendMessage (playerId text messageUuid : string)
| startConversation (playerId invitee : string)
| acceptInvite (playerId conversationId : string)
| rejectInvite (playerId conversationId : string)
| leaveConversation (playerId conversationId : string)
| finishSpeaking (playerId conversationId : string)
| walkTo (playerId : string) (destination : Point)
| agentSendMessage (agentId text messageUuid : string)
    (leaveConversation : option bool)
| agentWakeUp (agentId : string)
| stop
| start
| restart
| malformed (name : string).

(** The objects that the handlers return. *)
Inductive Output : Type :=
| Joined (playerId : string)
| Left (playerId : string)
| MessageSent
| ConversationStarted (conversationId : string)
| InviteAccepted (conversationId : string)
| InviteRejected (conversationId : string)
| ConversationLeft (conversationId : string)
| SpeakingFinished (conversationId : string)
| WalkingTo (playerId : string)
| AgentMessageSent (agentId : string)
| AgentAwake (agentId : string)
| Stopped
| Started
| Restarted.

(** [returnValue]: [{kind: 'ok', value}] or [{kind: 'error', message}];
    [value] is an array of outputs or [null]. *)
Inductive ReturnValue : Type :=
| RvOk (value : option (list Output))
| RvError (message : string).

Record InputRow : Type := {
  _id : Z;
  number : Z;
  input : Input;
  returnValue : option ReturnValue;
  received : Z;
}.

Definition set_returnValue (v : option ReturnValue) (r : InputRow) : InputRow :=
  {| _id := _id r; number := number r; input := input r; returnValue := v;
     received := received r |}.

(** The store seen by one engine: its engine document, the document of its
    world, the world's tables, the engine's input rows in the order of the
    [byInputNumber] index, and the delays handed to [scheduler.runAfter]. *)
Record Store : Type := {
  engineDoc : option Engine;
  worldDoc : option WorldDoc;
  tables : Db;
  inputs : list InputRow;
  scheduled : list Z;
}.

Definition set_engineDoc (v : option Engine) (s : Store) : Store :=
  {| engineDoc := v; worldDoc := worldDoc s; tables := tables s;
     inputs := inputs s; scheduled := scheduled s |}.
Definition set_worldDoc (v : option WorldDoc) (s : Store) : Store :=
  {| engineDoc := engineDoc s; worldDoc := v; tables := tables s;
     inputs := inputs s; scheduled := scheduled s |}.
Definition set_tables (v : Db) (s : Store) : Store :=
  {| engineDoc := engineDoc s; worldDoc := worldDoc s; tables := v;
     inputs := inputs s; scheduled := scheduled s |}.
Definition set_inputs (v : list InputRow) (s : Store) : Store :=
  {| engineDoc := engineDoc s; worldDoc := worldDoc s; tables := tables s;
     inputs := v; scheduled := scheduled s |}.
Definition set_scheduled (v : list Z) (s : Store) : Store :=
  {| engineDoc := engineDoc s; worldDoc := worldDoc s; tables := tables s;
     inputs := inputs s; scheduled := v |}.

(** [db.patch(engineId, fields)]. *)
Definition patchEngine (f : Engine -> Engine) (s : Store) : Store :=
  set_engineDoc (option_map f (engineDoc s)) s.

Definition set_running (v : bool) (e : Engine) : Engine :=
  {| currentTime := currentTime e; lastStepTs := lastStepTs e;
     processedInputNumber := processedInputNumber e; running := v;
     generationNumber := generationNumber e |}.
Definition set_generationNumber (v : Z) (e : Engine) : Engine :=
  {| currentTime := currentTime e; lastStepTs := lastStepTs e;
     processedInputNumber := processedInputNumber e; running := running e;
     generationNumber := v |}.
Definition set_timing (ts time : Z) (e : Engine) : Engine :=
  {| currentTime := Some time; lastStepTs := Some ts;
     processedInputNumber := processedInputNumber e; running := running e;
     generationNumber := generationNumber e |}.
Definition set_processedInputNumber (v : Z) (e : Engine) : Engine :=
  {| currentTime := currentTime e; lastStepTs := lastStepTs e;
     processedInputNumber := Some v; running := running e;
     generationNumber := generationNumber e |}.

(** [n || fallback] for an optional number. *)
Definition orElse (o : option Z) (fallback : Z) : Z :=
  match o with
  | Some z => if truthyNum (Some z) then z else fallback
  | None => fallback
  end.

(** ** Game ([convex/aiTown/game.ts], [convex/engine/abstractGame.ts]) *)

Module Game.
Definition TICK : Z := 16.

(** What a handler works on: the store and the loaded world. *)
Definition State : Type := (Store * World.t)%type.

Definition onTables (f : Db -> Db) (st : State) : State :=
  (set_tables (f (tables (fst st))) (fst st), snd st).

Definition setConversation (cid : string) (c : Conversation.t) (st : State)
  : State :=
  (fst st,
   World.set_conversations
     (JSMap.set cid c (World.conversations (snd st))) (snd st)).

(** [inputValidators[name]]: whether a validator is registered under the
    name of the input. *)
Definition hasValidator (i : Input) : bool :=
  match i with
  | malformed _ => false
  | _ => true
  end.

(** [validator.parse(args)].  The registered validators are the objects that
    [createInputValidator] gets from Convex's [v.object], and these have no
    [parse] method: the call throws a [TypeError], whatever [args] holds. *)
Definition parse (i : Input) : Result unit :=
  Throw "validator.parse is not a function".

(** [validateInput]: false when no validator is registered for the name, and
    false from the [catch] when [validator.parse(args)] throws. *)
Definition validateInput (i : Input) : bool :=
  if negb (hasValidator i) then false
  else
    match parse i with
    | Ok _ => true
    | Throw _ => false
    end.

Definition now (engine : Engine) : Z := orElse (currentTime engine) 0.

Definition handleJoin (name character description : string) (clock : Z)
    (st : State) : Result (Output * State) :=
  let '(player, db, w) :=
    World.addPlayer name character description clock
      (tables (fst st)) (snd st) in
  Ok (Joined (Player.id player), (set_tables db (fst st), w)).

Definition handleLeave (playerId : string) (clock : Z) (st : State)
  : Result (Output * State) :=
  let (db, w) := World.removePlayer playerId clock (tables (fst st)) (snd st) in
  Ok (Left playerId, (set_tables db (fst st), w)).

Definition handleSendMessage (playerId text messageUuid : string) (clock : Z)
    (st : State) : Result (Output * State) :=
  match JSMap.get playerId (World.players (snd st)) with
  | None => Throw ("Player " ++ playerId ++ " not found")
  | Some player =>
      match Player.conversationId player with
      | None => Throw ("Player " ++ playerId ++ " is not in a conversation")
      | Some cid =>
          if negb (truthyStr (Some cid)) then
            Throw ("Player " ++ playerId ++ " is not in a conversation")
          else
            match JSMap.get cid (World.conversations (snd st)) with
            | None => Throw ("Conversation " ++ cid ++ " not found")
            | Some conversation =>
                r <- Conversation.addMessage (messages (tables (fst st)))
                       playerId text messageUuid clock conversation ;;
                Ok (MessageSent,
                    setConversation cid (snd r)
                      (onTables (set_messages (fst r)) st))
            end
      end
  end.

Definition handleStartConversation (playerId invitee : string) (clock : Z)
    (st : State) : Result (Output * State) :=
  r <- World.startConversation playerId invitee clock (snd st) ;;
  Ok (ConversationStarted (Conversation.id (fst r)), (fst st, snd r)).

(** The four handlers that look a conversation up and call one method. *)
Definition onConversation (conversationId : string)
    (method : Conversation.t -> Result Conversation.t) (out : Output)
    (st : State) : Result (Output * State) :=
  match JSMap.get conversationId (World.conversations (snd st)) with
  | None => Throw ("Conversation " ++ conversationId ++ " not found")
  | Some conversation =>
      c <- method conversation ;;
      Ok (out, setConversation conversationId c st)
  end.

Definition handleAcceptInvite (playerId conversationId : string) (clock : Z)
  : State -> Result (Output * State) :=
  onConversation conversationId (Conversation.acceptInvite playerId clock)
    (InviteAccepted conversationId).

Definition handleRejectInvite (playerId conversationId : string) (clock : Z)
  : State -> Result (Output * State) :=
  onConversation conversationId (Conversation.rejectInvite playerId clock)
    (InviteRejected conversationId).

Definition handleLeaveConversation (playerId conversationId : string)
    (clock : Z) : State -> Result (Output * State) :=
  onConversation conversationId
    (fun c => Ok (Conversation.leave playerId clock c))
    (ConversationLeft conversationId).

Definition handleFinishSpeaking (playerId conversationId : string)
    (clock : Z) : State -> Result (Output * State) :=
  onConversation conversationId (Conversation.finishSpeaking playerId clock)
    (SpeakingFinished conversationId).

Definition handleWalkTo (playerId : string) (destination : Point) (clock : Z)
    (st : State) : Result (Output * State) :=
  match JSMap.get playerId (World.players (snd st)) with
  | None => Throw ("Player " ++ playerId ++ " not found")
  | Some player =>
      Ok (WalkingTo playerId,
          (fst st,
           World.set_players
             (JSMap.set playerId (Player.walkTo destination clock player)
                (World.players (snd st))) (snd st)))
  end.

Definition handleAgentSendMessage (agentId text messageUuid : string)
    (leaveConversation : option bool) (clock : Z) (st : State)
  : Result (Output * State) :=
  match JSMap.get agentId (World.agents (snd st)) with
  | None => Throw ("Agent " ++ agentId ++ " not found")
  | Some agent =>
      r <- Agent.sendMessage (messages (tables (fst st))) text messageUuid
             (match leaveConversation with Some b => b | None => false end)
             clock agent ;;
      Ok (AgentMessageSent agentId,
          (set_tables (set_messages (fst r) (tables (fst st))) (fst st),
           World.set_agents
             (JSMap.set agentId (snd r) (World.agents (snd st))) (snd st)))
  end.

Definition handleAgentWakeUp (agentId : string) (clock : Z) (st : State)
  : Result (Output * State) :=
  match JSMap.get agentId (World.agents (snd st)) with
  | None => Throw ("Agent " ++ agentId ++ " not found")
  | Some agent =>
      Ok (AgentAwake agentId,
          (fst st,
           World.set_agents
             (JSMap.set agentId (Agent.wakeUp clock agent)
                (World.agents (snd st))) (snd st)))
  end.

(** [stop], [start] and [incrementGeneration] patch the engine document;
    the generation is computed from the engine snapshot of the game. *)
Definition restartGame (engine : Engine) (clock : Z) (st : State) : State :=
  let (db, w) := World.restart clock (tables (fst st)) (snd st) in
  (patchEngine (set_generationNumber (generationNumber engine + 1)%Z)
     (set_tables db (fst st)), w).

Definition handleInput (engine : Engine) (i : Input) (clock : Z) (st : State)
  : Result (Output * State) :=
  match i with
  | join name character description =>
      handleJoin name character description clock st
  | leave playerId => handleLeave playerId clock st
  | sendMessage playerId text messageUuid =>
      handleSendMessage playerId text messageUuid clock st
  | startConversation playerId invitee =>
      handleStartConversation playerId invitee clock st
  | acceptInvite playerId conversationId =>
      handleAcceptInvite playerId conversationId clock st
  | rejectInvite playerId conversationId =>
      handleRejectInvite playerId conversationId clock st
  | leaveConversation playerId conversationId =>
      handleLeaveConversation playerId conversationId clock st
  | finishSpeaking playerId conversationId =>
      handleFinishSpeaking playerId conversationId clock st
  | walkTo playerId destination => handleWalkTo playerId destination clock st
  | agentSendMessage agentId text messageUuid leaveFlag =>
      handleAgentSendMessage agentId text messageUuid leaveFlag clock st
  | agentWakeUp agentId => handleAgentWakeUp agentId clock st
  | stop => Ok (Stopped, (patchEngine (set_running false) (fst st), snd st))
  | start => Ok (Started, (patchEngine (set_running true) (fst st), snd st))
  | restart => Ok (Restarted, restartGame engine clock st)
  | malformed name => Throw ("Unknown input: " ++ name)
  end.

(** [processInput]: the [try] block.  Every handler throws, if at all,
    before its first assignment, so a failed input leaves the state as it
    was. *)
Definition processInput (engine : Engine) (i : Input) (clock : Z)
    (st : State) : Result Output * State :=
  if negb (validateInput i) then (Throw "Input validation failed", st)
  else
    match handleInput engine i clock st with
    | Ok (out, st') => (Ok out, st')
    | Throw message => (Throw message, st)
    end.

(** The loop [for (const input of inputs)] of [tick]. *)
Fixpoint processInputs (engine : Engine) (batch : list Input) (clock : Z)
    (outputs : list Output) (st : State) : list Output * State :=
  match batch with
  | [] => (outputs, st)
  | i :: batch' =>
      let (r, st') := processInput engine i clock st in
      let outputs' :=
        match r with
        | Ok out => outputs ++ [out]
        | Throw _ => outputs
        end in
      processInputs engine batch' clock outputs' st'
  end.

Record TickResult : Type := {
  outputs : option (list Output);
  debugOutput : string;
}.

(** [tick]: [load] builds the world from its document alone; [save] writes
    the document back. *)
Definition tick (engine : Engine) (batch : list Input) (clock : Z)
    (s : Store) : Result (TickResult * State) :=
  match worldDoc s with
  | None => Throw "World not found"
  | Some doc =>
      let world := World.new (doc_nextId doc) (doc_lastViewed doc) in
      let '(outs, (s1, w1)) := processInputs engine batch clock [] (s, world) in
      let (db2, w2) := World.tick (now engine) clock (tables s1) w1 in
      let s2 := set_tables db2 s1 in
      let s3 := set_worldDoc
                  (Some {| doc_nextId := World.nextId w2;
                           doc_lastViewed := World.lastViewed w2 |}) s2 in
      let s4 := patchEngine (set_timing clock (now engine + TICK)%Z) s3 in
      Ok ({| outputs := match outs with [] => None | _ => Some outs end;
             debugOutput :=
               "Processed " ++ toString (Z.of_nat (length batch))
                 ++ " inputs, world time: " ++ toString (now engine) |},
          (s4, w2))
  end.
End Game.

(** ** The engine step ([convex/aiTown/main.ts], [tick]) *)

Module Main.
Inductive StepResult : Type :=
| Skipped
| Processed (processed : nat) (outputs : option (list Output)) (debug : string).

(** The rows with [number > lastProcessed], in index order, at most 100. *)
Definition pending (lastProcessed : Z) (rows : list InputRow) : list InputRow :=
  firstn 100 (filter (fun r => (lastProcessed <? number r)%Z) rows).

Definition inBatch (batch : list InputRow) (r : InputRow) : bool :=
  existsb (fun b => (_id b =? _id r)%Z) batch.

(** The loop that patches [returnValue] on every row of the batch. *)
Definition writeReturnValues (batch : list InputRow)
    (outputs : option (list Output)) (rows : list InputRow) : list InputRow :=
  map (fun r =>
         if inBatch batch r then set_returnValue (Some (RvOk outputs)) r
         else r) rows.

Definition tick (clock : Z) (s : Store) : Result (StepResult * Store) :=
  match engineDoc s with
  | None => Throw "Engine not found"
  | Some engine =>
      if negb (running engine) then Ok (Skipped, s)
      else
        let lastProcessed := orElse (processedInputNumber engine) (-1) in
        let batch := pending lastProcessed (inputs s) in
        match worldDoc s with
        | None => Throw "World not found"
        | Some _ =>
            r <- Game.tick engine (map input batch) clock s ;;
            let result := fst r in
            let s1 := fst (snd r) in
            let s2 :=
              match last (map Some batch) None with
              | None => s1
              | Some lastInput =>
                  set_inputs
                    (writeReturnValues batch (Game.outputs result) (inputs s1))
                    (patchEngine (set_processedInputNumber (number lastInput))
                       s1)
              end in
            let s3 :=
              match engineDoc s2 with
              | Some updatedEngine =>
                  if running updatedEngine then
                    set_scheduled (scheduled s2 ++ [16%Z]) s2
                  else s2
              | None => s2
              end in
            Ok (Processed (length batch) (Game.outputs result)
                  (Game.debugOutput result), s3)
        end
  end.

(** [start]: the first tick is scheduled with delay 0. *)
Definition start (s : Store) : Result Store :=
  match engineDoc s with
  | None => Throw "Engine not found"
  | Some _ =>
      let s1 := patchEngine (set_running true) s in
      Ok (set_scheduled (scheduled s1 ++ [0%Z]) s1)
  end.

Definition stop (s : Store) : Result Store :=
  match engineDoc s with
  | None => Throw "Engine not found"
  | Some _ => Ok (patchEngine (set_running false) s)
  end.

(** What [status] returns; [None] is [null]. *)
Record EngineStatus : Type := {
  st_running : bool;
  st_currentTime : option Z;
  st_lastStepTs : option Z;
  st_generationNumber : Z;
  st_pendingInputs : nat;
}.

Definition status (s : Store) : option EngineStatus :=
  match engineDoc s with
  | None => None
  | Some engine =>
      let pendingInputs :=
        filter (fun r =>
                  (orElse (processedInputNumber engine) (-1) <? number r)%Z)
          (inputs s) in
      Some {| st_running := running engine;
              st_currentTime := currentTime engine;
              st_lastStepTs := lastStepTs engine;
              st_generationNumber := generationNumber engine;
              st_pendingInputs := length pendingInputs |}
  end.
End Main.

(** ** The input queue ([convex/aiTown/inputs.ts], [sendInput]) *)

Module Inputs.
(** [(lastInput?.number || -1) + 1], where [lastInput] is the row with the
    largest number; the new row gets a fresh [_id]. *)
Definition sendInput (i : Input) (clock : Z) (s : Store) : Z * Z * Store :=
  let lastNumber := option_map number (last (map Some (inputs s)) None) in
  let inputNumber := (orElse lastNumber (-1) + 1)%Z in
  let inputId := Z.of_nat (length (inputs s)) in
  (inputId, inputNumber,
   set_inputs
     (inputs s ++ [{| _id := inputId; number := inputNumber; input := i;
                      returnValue := None; received := clock |}]) s).

(** What [getInputStatus] returns; [None] is [null], and the optional
    fields [result] and [error] are [None] when [undefined]. *)
Record InputStatus : Type := {
  is_processed : bool;
  is_success : bool;
  is_result : option (option (list Output));
  is_error : option string;
}.

Definition getInputStatus (inputId : Z) (s : Store) : option InputStatus :=
  match find (fun r => (_id r =? inputId)%Z) (inputs s) with
  | None => None
  | Some row =>
      Some {| is_processed :=
                match returnValue row with Some _ => true | None => false end;
              is_success :=
                match returnValue row with
                | Some (RvOk _) => true
                | _ => false
                end;
              is_result :=
                match returnValue row with
                | Some (RvOk value) => Some value
                | _ => None
                end;
              is_error :=
                match returnValue row with
                | Some (RvError message) => Some message
                | _ => None
                end |}
  end.
End Inputs.

(** ** Agent memory ([convex/agent/memory.ts]) *)

(** The context that [calculateMemoryImportance] is given. *)
Record ImportanceContext : Type := {
  emotionalImpact : R;
  socialRelevance : R;
  novelty : R;
  personalRelevance : R;
}.

Definition calculateMemoryImportance (description : JSString)
    (context : ImportanceContext) : R :=
  let importance := Rmin (INR (length description) / 50) 3 in
  let importance := (importance + emotionalImpact context)%R in
  let importance := (importance + socialRelevance context)%R in
  let importance := (importance + novelty context)%R in
  let importance := (importance + personalRelevance context)%R in
  Rmax 0 (Rmin 10 importance).

Definition Reqb (x y : R) : bool := if Req_dec_T x y then true else false.


Module AgentMemory.
Record Memory : Type := {
  _id : Z;
  playerId : string;
  description : JSString;
  embeddingId : Z;
  importance : R;
  lastAccess : Z;
}.

Record Embedding : Type := {
  emb_id : Z;
  emb_playerId : string;
  embedding : list R;
}.

(** The [memories] and [memoryEmbeddings] tables. *)
Record Tables : Type := {
  memories : list Memory;
  memoryEmbeddings : list Embedding;
}.

(** [db.delete(id)] on each table.  Deleting a document that does not exist
    throws, and a throw aborts the mutation together with every write that
    it made before. *)
Definition deleteMemory (id : Z) (tb : Tables) : Result Tables :=
  if existsb (fun m => (_id m =? id)%Z) (memories tb) then
    Ok {| memories := filter (fun m => negb (_id m =? id)%Z) (memories tb);
          memoryEmbeddings := memoryEmbeddings tb |}
  else Throw "Delete on nonexistent document".

Definition deleteEmbedding (id : Z) (tb : Tables) : Result Tables :=
  if existsb (fun e => (emb_id e =? id)%Z) (memoryEmbeddings tb) then
    Ok {| memories := memories tb;
          memoryEmbeddings :=
            filter (fun e => negb (emb_id e =? id)%Z) (memoryEmbeddings tb) |}
  else Throw "Delete on nonexistent document".

(** [importance + (Date.now() - lastAccess) / (30 days)].  The comparator
    reads the clock at every call; one reading serves the whole sort. *)
Definition score (clock : Z) (m : Memory) : R :=
  (importance m
   + IZR (clock - lastAccess m) / IZR (30 * 24 * 60 * 60 * 1000))%R.

(** [allMemories.sort((a, b) => scoreA - scoreB)]: ascending and stable,
    written as an insertion sort that keeps equal scores in their order. *)
Fixpoint insert (clock : Z) (m : Memory) (l : list Memory) : list Memory :=
  match l with
  | [] => [m]
  | h :: l' =>
      if Rleb (score clock m) (score clock h) then m :: h :: l'
      else h :: insert clock m l'
  end.

Definition sortByScore (clock : Z) (l : list Memory) : list Memory :=
  fold_right (insert clock) [] l.

(** The memories that the query of [cleanupMemories] collects. *)
Definition ownMemories (agentId : string) (tb : Tables) : list Memory :=
  filter (fun m => playerId m =? agentId) (memories tb).

(** [sortedMemories.slice(0, allMemories.length - maxMemories)]. *)
Definition candidates (agentId : string) (maxMemories clock : Z)
    (tb : Tables) : list Memory :=
  let allMemories := ownMemories agentId tb in
  firstn (Z.to_nat (Z.of_nat (length allMemories) - maxMemories))
    (sortByScore clock allMemories).

(** The loop over [toDelete]: the embedding is deleted first, then the
    memory. *)
Fixpoint deleteLoop (minImportanceToKeep : R) (toDelete : list Memory)
    (deletedCount : nat) (tb : Tables) : Result (nat * Tables) :=
  match toDelete with
  | [] => Ok (deletedCount, tb)
  | memory :: rest =>
      if Rltb (importance memory) minImportanceToKeep then
        tb1 <- deleteEmbedding (embeddingId memory) tb ;;
        tb2 <- deleteMemory (_id memory) tb1 ;;
        deleteLoop minImportanceToKeep rest (S deletedCount) tb2
      else deleteLoop minImportanceToKeep rest deletedCount tb
  end.

Definition cleanupMemories (agentId : string) (maxMemories : Z)
    (minImportanceToKeep : R) (clock : Z) (tb : Tables)
  : Result (nat * Tables) :=
  let allMemories := ownMemories agentId tb in
  if (Z.of_nat (length allMemories) <=? maxMemories)%Z then Ok (0%nat, tb)
  else
    deleteLoop minImportanceToKeep
      (candidates agentId maxMemories clock tb) 0 tb.

Definition dimension : nat := 384.

(** [embedding[index] += 1]. *)
Fixpoint bump (index : nat) (embedding : list R) : list R :=
  match embedding, index with
  | [], _ => []
  | val :: rest, O => (val + 1)%R :: rest
  | val :: rest, S index' => val :: bump index' rest
  end.

(** [embedding.reduce((sum, val) => sum + val * val, 0)]. *)
Definition sumOfSquares (embedding : list R) : R :=
  fold_left (fun sum val => (sum + val * val)%R) embedding 0%R.

(** The counting loop of [generateSimpleEmbedding] over the code units
    [text.charCodeAt(i)]. *)
Definition countCodes (text : JSString) : list R :=
  fold_left (fun embedding char => bump (char mod dimension) embedding)
    text (repeat 0%R dimension).

Definition generateSimpleEmbedding (text : JSString) : list R :=
  let embedding := countCodes text in
  let magnitude := sqrt (sumOfSquares embedding) in
  if Rltb 0 magnitude then map (fun val => (val / magnitude)%R) embedding
  else embedding.

(** [db.insert]: the new row gets an id that no row of the table has, here
    the first number above the ids of the table. *)
Definition freshId (ids : list Z) : Z := (fold_right Z.max 0 ids + 1)%Z.

Definition createEmbedding (agentId : string) (text : JSString) (tb : Tables)
  : Z * Tables :=
  let id := freshId (map emb_id (memoryEmbeddings tb)) in
  (id,
   {| memories := memories tb;
      memoryEmbeddings :=
        memoryEmbeddings tb
        ++ [{| emb_id := id; emb_playerId := agentId;
               embedding := generateSimpleEmbedding text |}] |}).

(** [createMemory]: the embedding row is inserted first, then the memory
    that refers to it. *)
Definition createMemory (agentId : string) (description : JSString)
    (importance : R) (clock : Z) (tb : Tables) : Z * Tables :=
  let (embeddingId, tb1) := createEmbedding agentId description tb in
  let id := freshId (map _id (memories tb1)) in
  (id,
   {| memories :=
        memories tb1
        ++ [{| _id := id; playerId := agentId; description := description;
               embeddingId := embeddingId; importance := importance;
               lastAccess := clock |}];
      memoryEmbeddings := memoryEmbeddings tb1 |}).

(** [calculateSimilarity]: one loop builds the dot product and the two
    squared norms. *)
Definition calculateSimilarity (embedding1 embedding2 : list R) : R :=
  if negb (length embedding1 =? length embedding2)%nat then 0%R
  else
    let '(dotProduct, norm1, norm2) :=
      fold_left
        (fun acc pair =>
           let '(dotProduct, norm1, norm2) := acc in
           ((dotProduct + fst pair * snd pair)%R,
            (norm1 + fst pair * fst pair)%R,
            (norm2 + snd pair * snd pair)%R))
        (combine embedding1 embedding2) (0%R, 0%R, 0%R) in
    if Reqb norm1 0 || Reqb norm2 0 then 0%R
    else (dotProduct / (sqrt norm1 * sqrt norm2))%R.







End AgentMemory.

(** ** Conversation decisions of an agent ([convex/agent/conversation.ts]) *)

Module AgentConversation.
Record LeaveContext : Type := {
  conversationLength : R;
  lastMessageTime : Z;
  participantCount : R;
  currentMood : R;
  hasGoals : bool;
}.

(** [leaveChance] before it is clamped. *)
Definition leaveChance (clock : Z) (context : LeaveContext) : R :=
  let leaveChance := (1 / 10)%R in
  let leaveChance :=
    if Rltb 15 (conversationLength context) then (leaveChance + 3 / 10)%R
    else if Rltb 8 (conversationLength context) then (leaveChance + 1 / 10)%R
    else leaveChance in
  let timeSinceLastMessage := (clock - lastMessageTime context)%Z in
  let leaveChance :=
    if (5 * 60 * 1000 <? timeSinceLastMessage)%Z then (leaveChance + 4 / 10)%R
    else if (2 * 60 * 1000 <? timeSinceLastMessage)%Z
         then (leaveChance + 2 / 10)%R
    else leaveChance in
  let leaveChance :=
    if Rltb 3 (participantCount context) then (leaveChance + 2 / 10)%R
    else leaveChance in
  let leaveChance :=
    if Rltb (currentMood context) 40 then (leaveChance + 2 / 10)%R
    else leaveChance in
  if hasGoals context then (leaveChance + 15 / 100)%R else leaveChance.

(** [shouldLeaveConversation]: [random] is the draw of [Math.random()]. *)
Definition shouldLeaveConversation (random : R) (clock : Z)
    (context : LeaveContext) : bool :=
  Rltb random (Rmax 0 (Rmin (8 / 10) (leaveChance clock context))).
End AgentConversation.

(** * Specification predicates and sample states *)

(** ** Conversations and membership *)

(** Every entry of the conversation map sits under its own id, as [load] and
    [startConversation] store it. *)
Definition keyedById (m : JSMap.t Conversation.t) : Prop :=
  Forall (fun kv => Conversation.id (snd kv) = fst kv) m.

(** The entity with id [id] is listed as a participant of the conversation that
    [cid] names. *)
Definition listed (w : World.t) (id : string) (cid : option string) : bool :=
  match cid with
  | Some k =>
      match JSMap.get k (World.conversations w) with
      | Some c => includes (Conversation.participants c) id
      | None => false
      end
  | None => false
  end.

(** The membership invariant of the data model, for one entity:
    [conversationId] is set exactly when the status is [talking] and the
    entity is listed in that conversation. *)
Definition playerMembership (w : World.t) (p : Player.t) : bool :=
  Bool.eqb (truthyStr (Player.conversationId p))
    (match Player.status p with Player.Talking => true | _ => false end
     && listed w (Player.id p) (Player.conversationId p)).

Definition agentMembership (w : World.t) (a : Agent.t) : bool :=
  Bool.eqb (truthyStr (Agent.conversationId a))
    (match Agent.status a with Agent.Talking => true | _ => false end
     && listed w (Agent.id a) (Agent.conversationId a)).

Definition membershipInvariant (w : World.t) : bool :=
  forallb (playerMembership w) (JSMap.values (World.players w))
  && forallb (agentMembership w) (JSMap.values (World.agents w)).

(** ** Trust and emotion bounds *)

(** The bounds of the data model on trust and emotions. *)
Definition inRange (v : R) : Prop := (0 <= v <= 100)%R.

Definition bounded (a : Agent.t) : Prop :=
  inRange (Agent.trustScore a)
  /\ Forall (fun c => inRange (Agent.trustLevel c)) (Agent.socialConnections a)
  /\ inRange (Agent.happiness (Agent.emotionalState a))
  /\ inRange (Agent.stress (Agent.emotionalState a))
  /\ inRange (Agent.energy (Agent.emotionalState a))
  /\ inRange (Agent.sociability (Agent.emotionalState a)).

(** A call of one of the two trust updates, with the clock it reads. *)
Inductive TrustCall : Type :=
| UpdateTrustScore (delta : R) (action context : string) (clock : Z)
| UpdateSocialConnection (agentId : string) (trustDelta : R) (clock : Z).

Definition trustCall (a : Agent.t) (k : TrustCall) : Agent.t :=
  match k with
  | UpdateTrustScore delta action context clock =>
      Agent.updateTrustScore delta action context clock a
  | UpdateSocialConnection agentId trustDelta clock =>
      Agent.updateSocialConnection agentId trustDelta clock a
  end.

Definition trustCalls (ks : list TrustCall) (a : Agent.t) : Agent.t :=
  fold_left trustCall ks a.

(** ** The methods of an agent *)

(** A call of one of the methods that change an agent, with the clock that
    it reads. *)
Inductive AgentCall : Type :=
| CallTick (now clock : Z)
| CallGoToSleep (duration clock : Z)
| CallWakeUp (clock : Z)
| CallWalkTo (d : Point) (clock : Z)
| CallStopWalking (clock : Z)
| CallJoinConversation (conversationId : string) (clock : Z)
| CallLeaveConversation (clock : Z)
| CallSendMessage (text messageUuid : string) (leaveFlag : bool) (clock : Z)
| CallTrust (k : TrustCall).

(** The agent after the call; [sendMessage] throws before it assigns. *)
Definition agentCall (a : Agent.t) (k : AgentCall) : Agent.t :=
  match k with
  | CallTick now clock => Agent.tick now clock a
  | CallGoToSleep duration clock => Agent.goToSleep duration clock a
  | CallWakeUp clock => Agent.wakeUp clock a
  | CallWalkTo d clock => Agent.walkTo d clock a
  | CallStopWalking clock => Agent.stopWalking clock a
  | CallJoinConversation conversationId clock =>
      Agent.joinConversation conversationId clock a
  | CallLeaveConversation clock => Agent.leaveConversation clock a
  | CallSendMessage text messageUuid leaveFlag clock =>
      match Agent.sendMessage [] text messageUuid leaveFlag clock a with
      | Ok (_, a') => a'
      | Throw _ => a
      end
  | CallTrust k => trustCall a k
  end.

Definition agentCalls (ks : list AgentCall) (a : Agent.t) : Agent.t :=
  fold_left agentCall ks a.

(** ** Walking and sleeping *)

(** The straight-line distance that [tick] computes from a position to its
    target. *)
Definition distance (from to : Point) : R :=
  sqrt ((x to - x from) * (x to - x from) + (y to - y from) * (y to - y from)).

(** [speed * 0.016]: the length of one move. *)
Definition moveDistance (speed : R) : R := (speed * (16 / 1000))%R.


(** Repeated ticks; each tick comes with its [now] and the wall-clock time
    that it reads. *)
Definition playerTicks (times : list (Z * Z)) (p : Player.t) : Player.t :=
  fold_left (fun p t => Player.tick (fst t) (snd t) p) times p.


Definition playerArrived (d : Point) (p : Player.t) : Prop :=
  Player.position p = d
  /\ Player.status p = Player.Idle
  /\ Player.pathfinding p = None.


(** The state that [walkTo d] puts an entity in. *)
Definition playerWalkingTo (d : Point) (p : Player.t) : Prop :=
  Player.status p = Player.Walking
  /\ Player.pathfinding p
     = Some {| destination := d; path := [d]; currentStep := 0 |}.



(** ** Memory cleanup *)







(** Tables as [createMemory] builds them: no two memories share an id or an
    embedding, and the embedding row of every memory exists. *)
Definition intact (tb : AgentMemory.Tables) : Prop :=
  NoDup (map AgentMemory._id (AgentMemory.memories tb))
  /\ NoDup (map AgentMemory.embeddingId (AgentMemory.memories tb))
  /\ forall m,
       In m (AgentMemory.memories tb) ->
       exists e,
         In e (AgentMemory.memoryEmbeddings tb)
         /\ AgentMemory.emb_id e = AgentMemory.embeddingId m.

(** ** The life of a conversation *)

(** The shape that the methods of a conversation keep: no participant is
    listed twice or is still invited, the current speaker is a participant,
    and the speaking deadline is set together with the speaker. *)
Definition wellFormed (c : Conversation.t) : Prop :=
  NoDup (Conversation.participants c)
  /\ (forall p, In p (Conversation.participants c) ->
                ~ In p (Conversation.invited c))
  /\ (forall s, Conversation.currentSpeaker c = Some s ->
                In s (Conversation.participants c))
  /\ (Conversation.currentSpeaker c = None
      <-> Conversation.speakingUntil c = None).

(** A call of one of the methods that change a conversation, with the clock
    that it reads. *)
Inductive ConversationCall : Type :=
| AcceptInvite (playerId : string) (clock : Z)
| RejectInvite (playerId : string) (clock : Z)
| AddMessage (author text messageUuid : string) (clock : Z)
| FinishSpeaking (playerId : string) (clock : Z)
| Leave (playerId : string) (clock : Z)
| Tick (now : Z).

(** The object after the call.  A method that throws does so before its
    first assignment, so the object is then as it was. *)
Definition conversationCall (c : Conversation.t) (k : ConversationCall)
  : Conversation.t :=
  match k with
  | AcceptInvite playerId clock =>
      match Conversation.acceptInvite playerId clock c with
      | Ok c' => c'
      | Throw _ => c
      end
  | RejectInvite playerId clock =>
      match Conversation.rejectInvite playerId clock c with
      | Ok c' => c'
      | Throw _ => c
      end
  | AddMessage author text messageUuid clock =>
      match Conversation.addMessage [] author text messageUuid clock c with
      | Ok (_, c') => c'
      | Throw _ => c
      end
  | FinishSpeaking playerId clock =>
      match Conversation.finishSpeaking playerId clock c with
      | Ok c' => c'
      | Throw _ => c
      end
  | Leave playerId clock => Conversation.leave playerId clock c
  | Tick now => Conversation.tick now c
  end.

Definition conversationCalls (ks : list ConversationCall)
    (c : Conversation.t) : Conversation.t :=
  fold_left conversationCall ks c.

(** ** Identifiers and stored maps *)

(** [n] calls of [allocId] in a row: the ids they return, in order, and the
    world after the last one. *)
Fixpoint allocIds (n : nat) (w : World.t) : list string * World.t :=
  match n with
  | O => ([], w)
  | S n' =>
      let (id, w1) := World.allocId w in
      let (ids, w2) := allocIds n' w1 in
      (id :: ids, w2)
  end.

(** Every entry of a map sits under the id of its value, and no key occurs
    twice: what a [Map] filled by [load], [addPlayer] and
    [startConversation] looks like. *)
Definition keyedBy {V : Type} (key : V -> string) (m : JSMap.t V) : Prop :=
  Forall (fun kv => key (snd kv) = fst kv) m /\ NoDup (JSMap.keys m).

(** ** The engine and its queue *)

(** Inputs sent one after the other, each with the clock that its
    [sendInput] reads. *)
Definition sendInputs (sent : list (Input * Z)) (s : Store) : Store :=
  fold_left (fun s ic => snd (Inputs.sendInput (fst ic) (snd ic) s)) sent s.

(** The inputs that a step takes from the queue of a store. *)
Definition nextBatch (s : Store) : list InputRow :=
  match engineDoc s with
  | Some engine =>
      Main.pending (orElse (processedInputNumber engine) (-1)) (inputs s)
  | None => []
  end.

(** ** Sample states *)

(** A world with two players, ["0"] and ["1"], who joined at time 1000. *)
Definition twoPlayers : Db * World.t :=
  let '(_, db1, w1) :=
    World.addPlayer "Ada" "f1" "first" 1000 emptyDb (World.new 0 0) in
  let '(_, db2, w2) := World.addPlayer "Bob" "f2" "second" 1000 db1 w1 in
  (db2, w2).

(** The world of the two players after ["0"] started a conversation with
    ["1"], and that conversation. *)
Definition invitedWorld : World.t :=
  match World.startConversation "0" "1" 2000 (snd twoPlayers) with
  | Ok (_, w) => w
  | Throw _ => snd twoPlayers
  end.

Definition invitation : Conversation.t :=
  Conversation.create "2" "0" ["0"; "1"] 2000.

(** That conversation after ["1"] accepted and ["0"] said "hi" at time 2200. *)
Definition activeTalk : Conversation.t :=
  match Conversation.acceptInvite "1" 2100 invitation with
  | Ok c =>
      match Conversation.addMessage [] "0" "hi" "u1" 2200 c with
      | Ok (_, c') => c'
      | Throw _ => c
      end
  | Throw _ => invitation
  end.

(** A store with a running engine at simulation time 0, the document of a
    fresh world and an empty input queue. *)
Definition freshStore : Store :=
  {| engineDoc := Some {| currentTime := Some 0%Z; lastStepTs := None;
                          processedInputNumber := None; running := true;
                          generationNumber := 0 |};
     worldDoc := Some {| doc_nextId := 0; doc_lastViewed := 0 |};
     tables := emptyDb;
     inputs := [];
     scheduled := [] |}.

(** The same store after three clients queued a [join], a [sendMessage] for
    a player that does not exist, and another [join]. *)
Definition queuedStore : Store :=
  let '(_, _, s1) := Inputs.sendInput (join "Ada" "f1" "first") 10 freshStore in
  let '(_, _, s2) := Inputs.sendInput (sendMessage "9" "hi" "u1") 11 s1 in
  let '(_, _, s3) := Inputs.sendInput (join "Bob" "f2" "second") 12 s2 in
  s3.

(** An agent that fell asleep at time 1000 and was then named as the
    invitee of conversation ["2"]. *)
Definition sleepingInvitee : Agent.t :=
  Agent.set_conversationId (Some "2")
    (Agent.goToSleep Agent.defaultSleepDuration 1000
       (Agent.create "7" "Eve" "f3" (1 / 2) (1 / 2) 1000)).


(** An idle agent, created at wall-clock time 1700000000000, whose energy
    was forced down to 20. *)
Definition tiredAgent : Agent.t :=
  Agent.update_emotionalState (Agent.set_energy 20)
    (Agent.create "7" "Eve" "f3" (1 / 2) (1 / 2) 1700000000000).



(** A destination at distance 5 from the origin. *)
Definition farCorner : Point := {| x := 3; y := 4 |}.

(** Four memories of agent ["7"] and one of agent ["8"], all with the
    description "m" and last read at time 0, each with the row of its
    embedding. *)
Definition sampleMemories : AgentMemory.Tables :=
  let mem id owner imp :=
    {| AgentMemory._id := id; AgentMemory.playerId := owner;
       AgentMemory.description := [109%nat];
       AgentMemory.embeddingId := (id + 100)%Z;
       AgentMemory.importance := imp; AgentMemory.lastAccess := 0 |} in
  let emb id owner :=
    {| AgentMemory.emb_id := (id + 100)%Z; AgentMemory.emb_playerId := owner;
       AgentMemory.embedding := AgentMemory.generateSimpleEmbedding [109%nat] |}
  in
  {| AgentMemory.memories :=
       [mem 1%Z "7" 5%R; mem 2%Z "7" 1%R; mem 3%Z "8" 0%R; mem 4%Z "7" 2%R;
        mem 5%Z "7" 9%R];
     AgentMemory.memoryEmbeddings :=
       [emb 1%Z "7"; emb 2%Z "7"; emb 3%Z "8"; emb 4%Z "7"; emb 5%Z "7"] |}.

(** * Properties *)

(** ** Strings, arrays and maps *)

Lemma includes_In (l : list string) (s : string) :
  includes l s = true <-> In s l.
Proof.
  unfold includes. rewrite existsb_exists. split.
  - intros [q [Hq Heq]]. apply String.eqb_eq in Heq. now subst.
  - intros H. exists s. split; [assumption | apply String.eqb_refl].
Qed.

Lemma includes_not_In (l : list string) (s : string) :
  includes l s = false <-> ~ In s l.
Proof.
  rewrite <- includes_In. destruct (includes l s); split; congruence.
Qed.

Lemma truthyStr_Some (s : string) :
  truthyStr (Some s) = true <-> s <> "".
Proof.
  simpl. destruct (String.eqb_spec s ""); simpl; split; congruence.
Qed.

Lemma without_In (l : list string) (s q : string) :
  In q (without l s) <-> In q l /\ q <> s.
Proof.
  unfold without. rewrite filter_In.
  destruct (String.eqb_spec q s); simpl; intuition congruence.
Qed.

Module JSMapFacts.
Section Facts.
Context {V : Type}.
Implicit Types (m : JSMap.t V) (k : string) (v : V).

Lemma get_set_same m k v : JSMap.get k (JSMap.set k v m) = Some v.
Proof.
  induction m as [| [k' v'] m IH]; simpl.
  - now rewrite String.eqb_refl.
  - destruct (String.eqb_spec k' k) as [-> | Hne]; simpl.
    + now rewrite String.eqb_refl.
    + destruct (String.eqb_spec k' k); [contradiction | exact IH].
Qed.

Lemma get_set_other m k k' v :
  k <> k' -> JSMap.get k (JSMap.set k' v m) = JSMap.get k m.
Proof.
  intros Hne. induction m as [| [k0 v0] m IH]; simpl.
  - destruct (String.eqb_spec k' k); [congruence | reflexivity].
  - destruct (String.eqb_spec k0 k') as [-> | Hne0]; simpl.
    + destruct (String.eqb_spec k' k); [congruence | reflexivity].
    + destruct (String.eqb_spec k0 k); [reflexivity | exact IH].
Qed.

Lemma get_delete_other m k k' :
  k <> k' -> JSMap.get k (JSMap.delete k' m) = JSMap.get k m.
Proof.
  intros Hne. induction m as [| [k0 v0] m IH]; simpl; [reflexivity |].
  destruct (String.eqb_spec k0 k') as [-> | Hne0]; simpl.
  - destruct (String.eqb_spec k' k); [congruence | reflexivity].
  - destruct (String.eqb_spec k0 k); [reflexivity | exact IH].
Qed.

Lemma Forall_set (P : string * V -> Prop) m k v :
  P (k, v) -> Forall P m -> Forall P (JSMap.set k v m).
Proof.
  intros Hkv. induction 1 as [| [k0 v0] m H0 Hm IH]; simpl.
  - constructor; [assumption | constructor].
  - destruct (k0 =? k); constructor; assumption.
Qed.

Lemma Forall_delete (P : string * V -> Prop) m k :
  Forall P m -> Forall P (JSMap.delete k m).
Proof.
  induction 1 as [| [k0 v0] m H0 Hm IH]; simpl; [constructor |].
  destruct (k0 =? k); [assumption | constructor; assumption].
Qed.

Lemma get_In m k v : JSMap.get k m = Some v -> In (k, v) m.
Proof.
  induction m as [| [k0 v0] m IH]; simpl; [discriminate |].
  destruct (String.eqb_spec k0 k) as [-> | Hne].
  - intros [= ->]. now left.
  - intros H. right. now apply IH.
Qed.
End Facts.
End JSMapFacts.

(** ** Conversation turn-taking *)

Lemma otherSpeaks_spec (author : string) (c : Conversation.t) :
  Conversation.otherSpeaks author c = true <->
  exists s, Conversation.currentSpeaker c = Some s /\ s <> "" /\ s <> author.
Proof.
  unfold Conversation.otherSpeaks.
  destruct (Conversation.currentSpeaker c) as [s |].
  - rewrite andb_true_iff, truthyStr_Some, negb_true_iff.
    split.
    + intros [Hs Hne]. exists s. apply String.eqb_neq in Hne. auto.
    + intros [s' [[= <-] [Hs Hne]]]. apply String.eqb_neq in Hne. auto.
  - split; [discriminate | intros [s [H _]]; discriminate].
Qed.

Lemma isActive_spec (s : Conversation.Status) :
  Conversation.isActive s = true <-> s = Conversation.Active.
Proof. destruct s; simpl; split; congruence. Qed.

Lemma addMessage_throw_iff (messages : list MessageRow)
    (a t u : string) (n : Z) (c : Conversation.t) :
  (exists m, Conversation.addMessage messages a t u n c = Throw m)
  <->
  (~ In a (Conversation.participants c)
   \/ Conversation.status c <> Conversation.Active
   \/ exists s, Conversation.currentSpeaker c = Some s
                /\ s <> "" /\ s <> a).
Proof.
  unfold Conversation.addMessage.
  rewrite <- includes_not_In, <- otherSpeaks_spec, <- isActive_spec.
  destruct (includes (Conversation.participants c) a); simpl.
  - destruct (Conversation.isActive (Conversation.status c)); simpl.
    + destruct (Conversation.otherSpeaks a c); simpl.
      * split; [auto | intros _; eexists; reflexivity].
      * split.
        -- intros [m Hm]; discriminate.
        -- intros [H | [H | H]]; congruence.
    + split; [intros _; right; left; congruence | eexists; reflexivity].
  - split; [auto | eexists; reflexivity].
Qed.



(** The turn protocol on the invitation of ["1"] by ["0"]: once ["1"] has
    accepted, ["0"] speaks, ["1"] is refused, ["0"] finishes, ["1"] speaks. *)
Example turn_taking_scenario :
  exists c1 m1 c2 c3 m2 c4,
    Conversation.acceptInvite "1" 2100 invitation = Ok c1
    /\ Conversation.status c1 = Conversation.Active
    /\ Conversation.addMessage [] "0" "hi" "u1" 2200 c1 = Ok (m1, c2)
    /\ Conversation.numMessages c2 = 1%Z
    /\ Conversation.currentSpeaker c2 = Some "0"
    /\ Conversation.addMessage m1 "1" "hello" "u2" 2300 c2
       = Throw "It's 0's turn to speak"
    /\ Conversation.finishSpeaking "0" 2400 c2 = Ok c3
    /\ Conversation.currentSpeaker c3 = None
    /\ Conversation.addMessage m1 "1" "hello" "u2" 2500 c3 = Ok (m2, c4)
    /\ Conversation.numMessages c4 = 2%Z.
Proof.
  do 6 eexists.
  repeat (split; [cbv; reflexivity |]).
  cbv. reflexivity.
Qed.

(** ** Waiting conversations and the passage of time *)

Lemma tick_not_active (now : Z) (c : Conversation.t) :
  Conversation.status c <> Conversation.Active -> Conversation.tick now c = c.
Proof.
  intros H. unfold Conversation.tick.
  destruct (Conversation.status c); simpl; congruence.
Qed.

Lemma tick_id (now : Z) (c : Conversation.t) :
  Conversation.id (Conversation.tick now c) = Conversation.id c.
Proof.
  unfold Conversation.tick.
  repeat match goal with |- context [if ?b then _ else _] => destruct b end;
    reflexivity.
Qed.

Lemma assignConversationId_conversations (id : string) (v : option string)
    (w : World.t) :
  World.conversations (World.assignConversationId id v w)
  = World.conversations w.
Proof.
  unfold World.assignConversationId.
  destruct (World.find id w) as [[p | a] |]; reflexivity.
Qed.

Lemma clearParticipants_conversations (l : list string) (w : World.t) :
  World.conversations
    (fold_left (fun w p => World.assignConversationId p None w) l w)
  = World.conversations w.
Proof.
  revert w. induction l as [| p l IH]; intros w; simpl; [reflexivity |].
  rewrite IH. apply assignConversationId_conversations.
Qed.

Lemma endConversation_conversations (cid : string) (clock : Z) (db : Db)
    (w : World.t) :
  World.conversations (snd (World.endConversation cid clock db w))
  = match JSMap.get cid (World.conversations w) with
    | Some _ => JSMap.delete cid (World.conversations w)
    | None => World.conversations w
    end.
Proof.
  unfold World.endConversation.
  destruct (JSMap.get cid (World.conversations w)); [| reflexivity].
  simpl. now rewrite clearParticipants_conversations.
Qed.

(** One round of the conversation loop keeps a waiting conversation where it
    is, and keeps the map keyed by id. *)
Lemma tickConversation_keeps_waiting (now clock : Z) (st : Db * World.t)
    (visited key : string) (c : Conversation.t) :
  keyedById (World.conversations (snd st)) ->
  JSMap.get key (World.conversations (snd st)) = Some c ->
  Conversation.status c = Conversation.Waiting ->
  let st' := World.tickConversation now clock st visited in
  keyedById (World.conversations (snd st'))
  /\ JSMap.get key (World.conversations (snd st')) = Some c.
Proof.
  intros Hkeyed Hget Hwait. destruct st as [db w]. simpl in *.
  unfold World.tickConversation.
  destruct (JSMap.get visited (World.conversations w)) as [c0 |] eqn:Hv;
    [| now split].
  assert (Hid0 : Conversation.id c0 = visited).
  { apply JSMapFacts.get_In in Hv.
    unfold keyedById in Hkeyed. rewrite Forall_forall in Hkeyed.
    exact (Hkeyed _ Hv). }
  set (c0' := Conversation.tick now c0).
  set (w1 := World.set_conversations
               (JSMap.set visited c0' (World.conversations w)) w).
  assert (Hkeyed1 : keyedById (World.conversations w1)).
  { apply JSMapFacts.Forall_set; [| assumption].
    simpl. unfold c0'. now rewrite tick_id. }
  destruct (String.eqb_spec key visited) as [-> | Hne].
  - assert (c0 = c) by congruence. subst c0.
    assert (Hc0' : c0' = c)
      by (apply tick_not_active; rewrite Hwait; discriminate).
    unfold Conversation.isFinished. rewrite Hc0', Hwait.
    split; [exact Hkeyed1 |].
    unfold w1. simpl. rewrite JSMapFacts.get_set_same. now rewrite Hc0'.
  - assert (Hget1 : JSMap.get key (World.conversations w1) = Some c).
    { simpl. rewrite JSMapFacts.get_set_other; assumption. }
    destruct (Conversation.isFinished c0'); [| now split].
    assert (Hid' : Conversation.id c0' = visited)
      by (unfold c0'; now rewrite tick_id).
    rewrite endConversation_conversations, Hid'.
    destruct (JSMap.get visited (World.conversations w1)).
    + split.
      * now apply JSMapFacts.Forall_delete.
      * rewrite JSMapFacts.get_delete_other; assumption.
    + now split.
Qed.

Lemma tickConversations_keep_waiting (now clock : Z) (keys : list string)
    (st : Db * World.t) (key : string) (c : Conversation.t) :
  keyedById (World.conversations (snd st)) ->
  JSMap.get key (World.conversations (snd st)) = Some c ->
  Conversation.status c = Conversation.Waiting ->
  JSMap.get key
    (World.conversations
       (snd (fold_left (World.tickConversation now clock) keys st)))
  = Some c.
Proof.
  revert st. induction keys as [| k keys IH]; intros st Hk Hg Hw; simpl.
  - assumption.
  - destruct (tickConversation_keeps_waiting now clock st k key c Hk Hg Hw)
      as [Hk' Hg'].
    now apply IH.
Qed.

(** The conversation methods keep the id. *)
Lemma leave_id (playerId : string) (clock : Z) (c : Conversation.t) :
  Conversation.id (Conversation.leave playerId clock c) = Conversation.id c.
Proof.
  unfold Conversation.leave.
  repeat match goal with |- context [if ?b then _ else _] => destruct b end;
    reflexivity.
Qed.

Lemma acceptInvite_id (playerId : string) (clock : Z) (c c' : Conversation.t) :
  Conversation.acceptInvite playerId clock c = Ok c' ->
  Conversation.id c' = Conversation.id c.
Proof.
  unfold Conversation.acceptInvite.
  repeat match goal with |- context [if ?b then _ else _] => destruct b end;
    intros [= <-]; reflexivity.
Qed.

Lemma rejectInvite_id (playerId : string) (clock : Z) (c c' : Conversation.t) :
  Conversation.rejectInvite playerId clock c = Ok c' ->
  Conversation.id c' = Conversation.id c.
Proof.
  unfold Conversation.rejectInvite.
  repeat match goal with |- context [if ?b then _ else _] => destruct b end;
    intros [= <-]; reflexivity.
Qed.

Lemma finishSpeaking_id (playerId : string) (clock : Z)
    (c c' : Conversation.t) :
  Conversation.finishSpeaking playerId clock c = Ok c' ->
  Conversation.id c' = Conversation.id c.
Proof.
  unfold Conversation.finishSpeaking.
  destruct (negb _); intros [= <-]; reflexivity.
Qed.

Lemma addMessage_id (messages messages' : list MessageRow)
    (author text uuid : string) (clock : Z) (c c' : Conversation.t) :
  Conversation.addMessage messages author text uuid clock c
  = Ok (messages', c') ->
  Conversation.id c' = Conversation.id c.
Proof.
  unfold Conversation.addMessage.
  repeat match goal with |- context [if ?b then _ else _] => destruct b end;
    intros [= _ <-]; reflexivity.
Qed.

Lemma keyedById_get (m : JSMap.t Conversation.t) (k : string)
    (c : Conversation.t) :
  keyedById m -> JSMap.get k m = Some c -> Conversation.id c = k.
Proof.
  intros Hk Hget. apply JSMapFacts.get_In in Hget.
  unfold keyedById in Hk. rewrite Forall_forall in Hk. exact (Hk _ Hget).
Qed.

Lemma keyedById_set (m : JSMap.t Conversation.t) (k : string)
    (c : Conversation.t) :
  Conversation.id c = k -> keyedById m -> keyedById (JSMap.set k c m).
Proof. intros Hid Hk. now apply JSMapFacts.Forall_set. Qed.

Lemma removePlayer_keyedById (playerId : string) (clock : Z) (db : Db)
    (w : World.t) :
  keyedById (World.conversations w) ->
  keyedById (World.conversations (snd (World.removePlayer playerId clock db w))).
Proof.
  intros Hk. unfold World.removePlayer.
  destruct (JSMap.get playerId (World.players w)) as [p |]; [| exact Hk].
  destruct (Player.conversationId p) as [cid |]; [| exact Hk].
  destruct (truthyStr (Some cid)); [| exact Hk].
  destruct (JSMap.get cid (World.conversations w)) as [c |] eqn:Hc;
    [| exact Hk].
  cbn [snd World.conversations World.set_players World.set_conversations].
  apply keyedById_set; [| exact Hk].
  rewrite leave_id. eapply keyedById_get; eassumption.
Qed.

(** Every command keeps the conversation map keyed by id. *)
Lemma handleInput_keyedById (engine : Engine) (i : Input) (clock : Z)
    (st st' : Game.State) (out : Output) :
  keyedById (World.conversations (snd st)) ->
  Game.handleInput engine i clock st = Ok (out, st') ->
  keyedById (World.conversations (snd st')).
Proof.
  destruct st as [s w]. simpl. intros Hk.
  destruct i; simpl.
  - unfold Game.handleJoin. simpl. intros [= _ <-]. exact Hk.
  - unfold Game.handleLeave. simpl.
    pose proof (removePlayer_keyedById playerId clock (tables s) w Hk) as Hr.
    destruct (World.removePlayer playerId clock (tables s) w) as [db' w'].
    intros [= _ <-]. exact Hr.
  - unfold Game.handleSendMessage. cbn [snd fst].
    destruct (JSMap.get playerId (World.players w)) as [p |];
      [| discriminate].
    destruct (Player.conversationId p) as [cid |]; [| discriminate].
    destruct (negb (truthyStr (Some cid))); [discriminate |].
    destruct (JSMap.get cid (World.conversations w)) as [c |] eqn:Hc;
      [| discriminate].
    destruct (Conversation.addMessage _ _ _ _ _ c) as [[ms c'] | m] eqn:Ha;
      simpl; [| discriminate].
    intros [= _ <-]. simpl.
    apply keyedById_set; [| exact Hk].
    rewrite (addMessage_id _ _ _ _ _ _ _ _ Ha).
    eapply keyedById_get; eassumption.
  - unfold Game.handleStartConversation, World.startConversation. simpl.
    destruct (World.find playerId w) as [creator |]; [| discriminate].
    destruct (World.find invitee w) as [inviteeE |]; [| discriminate].
    destruct (truthyStr _ || truthyStr _); [discriminate |].
    simpl. intros [= _ <-]. simpl.
    rewrite !assignConversationId_conversations. simpl.
    apply keyedById_set; [reflexivity | exact Hk].
  - unfold Game.handleAcceptInvite, Game.onConversation. simpl.
    destruct (JSMap.get conversationId (World.conversations w)) as [c |] eqn:Hc;
      [| discriminate].
    destruct (Conversation.acceptInvite playerId clock c) as [c' | m] eqn:Ha;
      simpl; [| discriminate].
    intros [= _ <-]. simpl. apply keyedById_set; [| exact Hk].
    rewrite (acceptInvite_id _ _ _ _ Ha). eapply keyedById_get; eassumption.
  - unfold Game.handleRejectInvite, Game.onConversation. simpl.
    destruct (JSMap.get conversationId (World.conversations w)) as [c |] eqn:Hc;
      [| discriminate].
    destruct (Conversation.rejectInvite playerId clock c) as [c' | m] eqn:Ha;
      simpl; [| discriminate].
    intros [= _ <-]. simpl. apply keyedById_set; [| exact Hk].
    rewrite (rejectInvite_id _ _ _ _ Ha). eapply keyedById_get; eassumption.
  - unfold Game.handleLeaveConversation, Game.onConversation. simpl.
    destruct (JSMap.get conversationId (World.conversations w)) as [c |] eqn:Hc;
      [| discriminate].
    simpl. intros [= _ <-]. simpl. apply keyedById_set; [| exact Hk].
    rewrite leave_id. eapply keyedById_get; eassumption.
  - unfold Game.handleFinishSpeaking, Game.onConversation. simpl.
    destruct (JSMap.get conversationId (World.conversations w)) as [c |] eqn:Hc;
      [| discriminate].
    destruct (Conversation.finishSpeaking playerId clock c) as [c' | m] eqn:Ha;
      simpl; [| discriminate].
    intros [= _ <-]. simpl. apply keyedById_set; [| exact Hk].
    rewrite (finishSpeaking_id _ _ _ _ Ha). eapply keyedById_get; eassumption.
  - unfold Game.handleWalkTo. simpl.
    destruct (JSMap.get playerId (World.players w)); [| discriminate].
    intros [= _ <-]. exact Hk.
  - unfold Game.handleAgentSendMessage. simpl.
    destruct (JSMap.get agentId (World.agents w)); [| discriminate].
    destruct (Agent.sendMessage _ _ _ _ _ _) as [[ms a'] | m];
      simpl; [| discriminate].
    intros [= _ <-]. exact Hk.
  - unfold Game.handleAgentWakeUp. simpl.
    destruct (JSMap.get agentId (World.agents w)); [| discriminate].
    intros [= _ <-]. exact Hk.
  - intros [= _ <-]. exact Hk.
  - intros [= _ <-]. exact Hk.
  - unfold Game.restartGame. simpl. intros [= _ <-]. constructor.
  - discriminate.
Qed.

Lemma processInputs_keyedById (engine : Engine) (batch : list Input)
    (clock : Z) :
  forall (outs : list Output) (st : Game.State),
    keyedById (World.conversations (snd st)) ->
    keyedById
      (World.conversations
         (snd (snd (Game.processInputs engine batch clock outs st)))).
Proof.
  induction batch as [| i batch IH]; intros outs st Hk; simpl; [exact Hk |].
  unfold Game.processInput.
  destruct (Game.validateInput i); simpl; [| now apply IH].
  destruct (Game.handleInput engine i clock st) as [[out st'] | m] eqn:Hh;
    [| now apply IH].
  apply IH. eapply handleInput_keyedById; eassumption.
Qed.

(** So does a world tick. *)
Lemma World_tick_keyedById (now clock : Z) (db : Db) (w : World.t) :
  keyedById (World.conversations w) ->
  keyedById (World.conversations (snd (World.tick now clock db w))).
Proof.
  intros Hk. unfold World.tick.
  set (w2 := World.set_agents _ _).
  assert (Hfold : forall keys st,
             keyedById (World.conversations (snd st)) ->
             keyedById
               (World.conversations
                  (snd (fold_left (World.tickConversation now clock) keys st)))).
  { induction keys as [| k keys IH]; intros st0 Hk0; simpl; [exact Hk0 |].
    apply IH. clear IH. destruct st0 as [db0 w0]. simpl in *.
    unfold World.tickConversation.
    destruct (JSMap.get k (World.conversations w0)) as [c |] eqn:Hc;
      [| exact Hk0].
    assert (Hk1 : keyedById
                    (JSMap.set k (Conversation.tick now c)
                       (World.conversations w0))).
    { apply keyedById_set; [| exact Hk0].
      rewrite tick_id. eapply keyedById_get; eassumption. }
    destruct (Conversation.isFinished (Conversation.tick now c));
      [| exact Hk1].
    rewrite endConversation_conversations. simpl.
    match goal with
    | |- keyedById (match ?g with _ => _ end) => destruct g
    end; [now apply JSMapFacts.Forall_delete | exact Hk1]. }
  specialize (Hfold (JSMap.keys (World.conversations w2)) (db, w2) Hk).
  destruct (fold_left _ _ (db, w2)) as [db' w3]. exact Hfold.
Qed.

(** C10.  A conversation that is not active is returned unchanged by
    [Conversation.tick], whatever [now] is; [World.tick] leaves a waiting
    conversation in the live map, unchanged; and on a waiting conversation
    [addMessage] throws and [finishSpeaking] keeps the status.  So a waiting
    conversation has no timeout: it stops waiting only by [acceptInvite],
    [rejectInvite] or [leave]. *)
Theorem waiting_conversation_has_no_timeout :
  (forall (now : Z) (c : Conversation.t),
      Conversation.status c <> Conversation.Active ->
      Conversation.tick now c = c)
  /\
  (forall (now clock : Z) (db : Db) (w : World.t) (key : string)
          (c : Conversation.t),
      keyedById (World.conversations w) ->
      JSMap.get key (World.conversations w) = Some c ->
      Conversation.status c = Conversation.Waiting ->
      JSMap.get key (World.conversations (snd (World.tick now clock db w)))
      = Some c)
  /\
  (forall (c : Conversation.t),
      Conversation.status c = Conversation.Waiting ->
      (forall messages author text uuid clock,
          exists m,
            Conversation.addMessage messages author text uuid clock c = Throw m)
      /\
      (forall playerId clock c',
          Conversation.finishSpeaking playerId clock c = Ok c' ->
          Conversation.status c' = Conversation.Waiting)).
Proof.
  split; [exact tick_not_active | split].
  - intros now clock db w key c Hkeyed Hget Hwait.
    unfold World.tick.
    set (w2 := World.set_agents _ _).
    destruct (fold_left (World.tickConversation now clock)
                (JSMap.keys (World.conversations w2)) (db, w2))
      as [db' w3] eqn:Hfold.
    simpl.
    change (World.conversations w3)
      with (World.conversations (snd (db', w3))).
    rewrite <- Hfold.
    apply tickConversations_keep_waiting; assumption.
  - intros c Hwait. split.
    + intros messages author text uuid clock.
      apply addMessage_throw_iff. right. left. congruence.
    + intros playerId clock c'. unfold Conversation.finishSpeaking.
      destruct (Conversation.isCurrentSpeaker playerId c); simpl.
      * intros [= <-]. exact Hwait.
      * discriminate.
Qed.

Lemma waiting_conversation_has_no_timeout_witness :
  Conversation.tick 99999999 invitation = invitation
  /\ JSMap.get "2"
       (World.conversations
          (snd (World.tick 99999999 99999999 (fst twoPlayers) invitedWorld)))
     = Some invitation
  /\ (exists m,
        Conversation.addMessage [] "0" "hi" "u1" 2001 invitation = Throw m).
Proof.
  destruct waiting_conversation_has_no_timeout as (Htick & Hworld & Hcalls).
  split; [apply Htick; discriminate | split].
  - apply Hworld.
    + repeat constructor.
    + reflexivity.
    + reflexivity.
  - apply Hcalls. reflexivity.
Defined.

(** ** Starting and leaving a conversation *)

Lemma find_assign_same (id : string) (v : option string) (w : World.t)
    (e : Entity) :
  World.find id w = Some e ->
  exists e', World.find id (World.assignConversationId id v w) = Some e'
             /\ entityConversationId e' = v.
Proof.
  intros Hfind. unfold World.assignConversationId. rewrite Hfind.
  unfold World.find in *.
  destruct (JSMap.get id (World.players w)) as [p |] eqn:Hp.
  - injection Hfind as <-. simpl. rewrite JSMapFacts.get_set_same.
    eexists. split; reflexivity.
  - destruct (JSMap.get id (World.agents w)) as [a |] eqn:Ha; [| discriminate].
    injection Hfind as <-. simpl. rewrite Hp, JSMapFacts.get_set_same.
    eexists. split; reflexivity.
Qed.

Lemma find_assign_other (id id' : string) (v : option string) (w : World.t) :
  id <> id' ->
  World.find id (World.assignConversationId id' v w) = World.find id w.
Proof.
  intros Hne. unfold World.assignConversationId.
  destruct (World.find id' w) as [[p | a] |]; [| | reflexivity];
    unfold World.find; simpl;
    rewrite JSMapFacts.get_set_other by assumption; reflexivity.
Qed.

Lemma leave_two_party (creatorId inviteeId leaver : string) (clock : Z)
    (c : Conversation.t) :
  Conversation.participants c = [creatorId] ->
  Conversation.status
    (Conversation.leave leaver clock c) = Conversation.Ended.
Proof.
  intros Hp. unfold Conversation.leave. simpl. rewrite Hp. simpl.
  destruct (creatorId =? leaver); simpl;
    destruct (Conversation.isCurrentSpeaker _ _); reflexivity.
Qed.

(** What [World.startConversation] does on two distinct entities that are
    in no conversation. *)
Lemma startConversation_result (w : World.t) (creatorId inviteeId : string)
    (creator invitee : Entity) (clock : Z) :
  creatorId <> inviteeId ->
  World.find creatorId w = Some creator ->
  World.find inviteeId w = Some invitee ->
  truthyStr (entityConversationId creator) = false ->
  truthyStr (entityConversationId invitee) = false ->
  exists c w',
    World.startConversation creatorId inviteeId clock w = Ok (c, w')
    /\ Conversation.status c = Conversation.Waiting
    /\ Conversation.participants c = [creatorId]
    /\ Conversation.invited c = [inviteeId]
    /\ JSMap.get (Conversation.id c) (World.conversations w') = Some c
    /\ (exists e, World.find creatorId w' = Some e
                  /\ entityConversationId e = Some (Conversation.id c))
    /\ (exists e, World.find inviteeId w' = Some e
                  /\ entityConversationId e = Some (Conversation.id c)).
Proof.
  intros Hne Hc Hi Hcf Hif.
  unfold World.startConversation. rewrite Hc, Hi, Hcf, Hif. simpl.
  set (cid := toString (World.nextId w)).
  set (c := Conversation.create cid creatorId [creatorId; inviteeId] clock).
  set (w2 := World.set_conversations _ _).
  assert (Hc2 : World.find creatorId w2 = Some creator) by exact Hc.
  assert (Hi2 : World.find inviteeId w2 = Some invitee) by exact Hi.
  destruct (find_assign_same creatorId (Some cid) w2 creator Hc2)
    as (creator' & Hc3 & Hcid).
  set (w3 := World.assignConversationId creatorId (Some cid) w2) in *.
  assert (Hi3 : World.find inviteeId w3 = Some invitee).
  { unfold w3. rewrite find_assign_other; auto. }
  destruct (find_assign_same inviteeId (Some cid) w3 invitee Hi3)
    as (invitee' & Hi4 & Hiid).
  exists c, (World.assignConversationId inviteeId (Some cid) w3).
  repeat split.
  - simpl. rewrite String.eqb_refl. simpl.
    destruct (String.eqb_spec inviteeId creatorId); [congruence | reflexivity].
  - rewrite assignConversationId_conversations. unfold w3.
    rewrite assignConversationId_conversations. unfold w2. simpl.
    apply JSMapFacts.get_set_same.
  - exists creator'. split; [| exact Hcid].
    rewrite find_assign_other; auto.
  - exists invitee'. split; assumption.
Qed.

(** C1, amended.  In a world that holds two distinct entities, neither of
    them in a conversation, [World.startConversation] succeeds and returns a
    conversation with status [waiting], the creator as its only participant
    and the other entity as its only invitee, stored in the world under its
    id.  When either of the two then leaves ([Conversation.leave]), the
    conversation has status [ended]. *)
Theorem startConversation_waiting_then_leave_ends :
  forall (w : World.t) (creatorId inviteeId : string) (creator invitee : Entity)
         (clock : Z),
    creatorId <> inviteeId ->
    World.find creatorId w = Some creator ->
    World.find inviteeId w = Some invitee ->
    truthyStr (entityConversationId creator) = false ->
    truthyStr (entityConversationId invitee) = false ->
    exists c w',
      World.startConversation creatorId inviteeId clock w = Ok (c, w')
      /\ Conversation.status c = Conversation.Waiting
      /\ Conversation.participants c = [creatorId]
      /\ Conversation.invited c = [inviteeId]
      /\ JSMap.get (Conversation.id c) (World.conversations w') = Some c
      /\ (forall leaver clock',
             leaver = creatorId \/ leaver = inviteeId ->
             Conversation.status (Conversation.leave leaver clock' c)
             = Conversation.Ended).
Proof.
  intros w creatorId inviteeId creator invitee clock Hne Hc Hi Hcf Hif.
  destruct (startConversation_result w creatorId inviteeId creator invitee
              clock Hne Hc Hi Hcf Hif)
    as (c & w' & Hstart & Hstatus & Hpart & Hinv & Hget & _).
  exists c, w'. repeat split; try assumption.
  intros leaver clock' _.
  now apply (leave_two_party creatorId inviteeId).
Qed.

Lemma startConversation_waiting_then_leave_ends_witness :
  exists c w',
    World.startConversation "0" "1" 2000 (snd twoPlayers) = Ok (c, w')
    /\ Conversation.status c = Conversation.Waiting
    /\ Conversation.participants c = ["0"]
    /\ Conversation.invited c = ["1"]
    /\ JSMap.get (Conversation.id c) (World.conversations w') = Some c
    /\ (forall leaver clock',
           leaver = "0" \/ leaver = "1" ->
           Conversation.status (Conversation.leave leaver clock' c)
           = Conversation.Ended).
Proof.
  eapply (startConversation_waiting_then_leave_ends (snd twoPlayers) "0" "1");
    [discriminate | reflexivity | reflexivity | reflexivity | reflexivity].
Defined.

(** C1, as stated, fails on two idle players: the conversation that
    [World.startConversation] returns is [waiting], not [active]; and after
    the invitee leaves it through the [leaveConversation] command both
    players still carry its id. *)
Lemma startConversation_active_counterexample :
  exists creator invitee c w',
    World.find "0" (snd twoPlayers) = Some creator
    /\ World.find "1" (snd twoPlayers) = Some invitee
    /\ entityConversationId creator = None
    /\ entityConversationId invitee = None
    /\ World.startConversation "0" "1" 2000 (snd twoPlayers) = Ok (c, w')
    /\ Conversation.status c <> Conversation.Active
    /\ exists st' c' e0 e1,
         Game.handleLeaveConversation "1" (Conversation.id c) 3000
           (freshStore, w')
         = Ok (ConversationLeft (Conversation.id c), st')
         /\ JSMap.get (Conversation.id c) (World.conversations (snd st'))
            = Some c'
         /\ Conversation.status c' = Conversation.Ended
         /\ World.find "0" (snd st') = Some e0
         /\ World.find "1" (snd st') = Some e1
         /\ entityConversationId e0 = Some (Conversation.id c)
         /\ entityConversationId e1 = Some (Conversation.id c).
Proof.
  do 4 eexists.
  split; [reflexivity |]. split; [reflexivity |].
  split; [reflexivity |]. split; [reflexivity |].
  split; [reflexivity |]. split; [discriminate |].
  do 4 eexists.
  split; [reflexivity |]. split; [reflexivity |].
  split; [reflexivity |]. split; [reflexivity |].
  split; [reflexivity |]. split; reflexivity.
Qed.

(** ** The membership invariant *)

(** [joinConversation] assigns ['talking'] and then calls [stopWalking],
    which assigns ['idle']. *)
Lemma Player_joinConversation_idle (cid : string) (clock : Z) (p : Player.t) :
  Player.status (Player.joinConversation cid clock p) = Player.Idle
  /\ Player.conversationId (Player.joinConversation cid clock p) = Some cid.
Proof. split; reflexivity. Qed.

Lemma Agent_joinConversation_idle (cid : string) (clock : Z) (a : Agent.t) :
  Agent.status (Agent.joinConversation cid clock a) = Agent.Idle
  /\ Agent.conversationId (Agent.joinConversation cid clock a) = Some cid.
Proof. split; reflexivity. Qed.

(** Whatever the world, [World.startConversation] gives the invitee a
    [conversationId] without listing it as a participant. *)
Lemma startConversation_invitee_not_listed (w : World.t)
    (creatorId inviteeId : string) (creator invitee : Entity) (clock : Z) :
  creatorId <> inviteeId ->
  World.find creatorId w = Some creator ->
  World.find inviteeId w = Some invitee ->
  truthyStr (entityConversationId creator) = false ->
  truthyStr (entityConversationId invitee) = false ->
  exists c w' e,
    World.startConversation creatorId inviteeId clock w = Ok (c, w')
    /\ World.find inviteeId w' = Some e
    /\ entityConversationId e = Some (Conversation.id c)
    /\ listed w' inviteeId (entityConversationId e) = false.
Proof.
  intros Hne Hc Hi Hcf Hif.
  destruct (startConversation_result w creatorId inviteeId creator invitee
              clock Hne Hc Hi Hcf Hif)
    as (c & w' & Hstart & _ & Hpart & _ & Hget & _ & (e & He & Hid)).
  exists c, w', e. repeat split; try assumption.
  rewrite Hid. unfold listed. rewrite Hget, Hpart. simpl.
  destruct (String.eqb_spec creatorId inviteeId); [contradiction | reflexivity].
Qed.

(** C3 on two idle players.  The invariant holds before
    [World.startConversation] and fails after it: both players have a
    [conversationId], both are still [idle], and the invitee is not a
    participant of the conversation. *)
Theorem startConversation_breaks_membership :
  membershipInvariant (snd twoPlayers) = true
  /\ exists c w' p0 p1,
       World.startConversation "0" "1" 2000 (snd twoPlayers) = Ok (c, w')
       /\ membershipInvariant w' = false
       /\ JSMap.get "0" (World.players w') = Some p0
       /\ JSMap.get "1" (World.players w') = Some p1
       /\ Player.conversationId p0 = Some (Conversation.id c)
       /\ Player.conversationId p1 = Some (Conversation.id c)
       /\ Player.status p0 = Player.Idle
       /\ Player.status p1 = Player.Idle
       /\ Conversation.participants c = ["0"].
Proof.
  split; [reflexivity |].
  do 4 eexists.
  split; [reflexivity |]. split; [reflexivity |].
  split; [reflexivity |]. split; [reflexivity |].
  repeat split.
Qed.

(** ** Messages sent by agents *)




(** ** The engine step and the result slots of the input queue *)

(** The handlers never write to the input queue. *)
Lemma handleInput_inputs (engine : Engine) (i : Input) (clock : Z)
    (st st' : Game.State) (out : Output) :
  Game.handleInput engine i clock st = Ok (out, st') ->
  inputs (fst st') = inputs (fst st).
Proof.
  destruct st as [s w].
  destruct i; simpl;
    unfold Game.handleJoin, Game.handleLeave, Game.handleSendMessage,
      Game.handleStartConversation, Game.handleAcceptInvite,
      Game.handleRejectInvite, Game.handleLeaveConversation,
      Game.handleFinishSpeaking, Game.handleWalkTo,
      Game.handleAgentSendMessage, Game.handleAgentWakeUp,
      Game.onConversation, Game.restartGame, bind; simpl;
    repeat match goal with
      | |- context [match ?e with _ => _ end] =>
          lazymatch e with
          | context [match _ with _ => _ end] => fail
          | _ => destruct e eqn:?
          end
      end; simpl; try discriminate; intros [= <- <-]; reflexivity.
Qed.

Lemma processInputs_inputs (engine : Engine) (batch : list Input) (clock : Z) :
  forall (outs : list Output) (st : Game.State),
    inputs (fst (snd (Game.processInputs engine batch clock outs st)))
    = inputs (fst st).
Proof.
  induction batch as [| i batch IH]; intros outs st; simpl; [reflexivity |].
  unfold Game.processInput.
  destruct (Game.validateInput i); simpl.
  - destruct (Game.handleInput engine i clock st) as [[out st'] | m] eqn:Hh.
    + rewrite IH. eapply handleInput_inputs; eassumption.
    + apply IH.
  - apply IH.
Qed.

(** [Game.tick] returns whenever the world document exists, whatever the
    batch holds, and leaves the input rows as they were. *)
Lemma Game_tick_returns (engine : Engine) (batch : list Input) (clock : Z)
    (s : Store) (doc : WorldDoc) :
  worldDoc s = Some doc ->
  exists result s' w',
    Game.tick engine batch clock s = Ok (result, (s', w'))
    /\ inputs s' = inputs s.
Proof.
  intros Hdoc. unfold Game.tick. rewrite Hdoc.
  pose proof (processInputs_inputs engine batch clock []
                (s, World.new (doc_nextId doc) (doc_lastViewed doc))) as Hin.
  destruct (Game.processInputs engine batch clock []
              (s, World.new (doc_nextId doc) (doc_lastViewed doc)))
    as [outs [s1 w1]].
  simpl in Hin.
  destruct (World.tick (Game.now engine) clock (tables s1) w1) as [db2 w2].
  do 3 eexists. split; [reflexivity |]. simpl. exact Hin.
Qed.

Lemma inBatch_set_returnValue (batch : list InputRow) (v : option ReturnValue)
    (r : InputRow) :
  Main.inBatch batch (set_returnValue v r) = Main.inBatch batch r.
Proof. reflexivity. Qed.

Lemma writeReturnValues_In (batch : list InputRow)
    (outs : option (list Output)) (rows : list InputRow) (r' : InputRow) :
  In r' (Main.writeReturnValues batch outs rows) ->
  (Main.inBatch batch r' = true /\ returnValue r' = Some (RvOk outs))
  \/ (Main.inBatch batch r' = false /\ In r' rows).
Proof.
  unfold Main.writeReturnValues. rewrite in_map_iff.
  intros (r & Heq & Hin).
  destruct (Main.inBatch batch r) eqn:Hb; subst r'.
  - left. split; [now rewrite inBatch_set_returnValue | reflexivity].
  - right. now split.
Qed.

Lemma last_Some_nonempty {A : Type} (l : list A) :
  last (map Some l) None = None -> l = [].
Proof.
  induction l as [| a l IH]; [reflexivity |].
  simpl. destruct (map Some l) eqn:Hm; [discriminate |].
  intros H. rewrite IH in Hm by exact H. discriminate.
Qed.

(** A step over a running engine with a world returns; every row of its batch
    then holds [{kind: 'ok', value}] with the outputs of the whole batch as
    value, and the other rows are as before.  No row is given
    [{kind: 'error'}]. *)
Lemma step_writes_ok_on_every_row (clock : Z) (s : Store) (engine : Engine)
    (doc : WorldDoc) :
  engineDoc s = Some engine ->
  running engine = true ->
  worldDoc s = Some doc ->
  let batch :=
    Main.pending (orElse (processedInputNumber engine) (-1)) (inputs s) in
  exists outs debug s',
    Main.tick clock s = Ok (Main.Processed (length batch) outs debug, s')
    /\ forall r', In r' (inputs s') ->
         (Main.inBatch batch r' = true /\ returnValue r' = Some (RvOk outs))
         \/ (Main.inBatch batch r' = false /\ In r' (inputs s)).
Proof.
  intros He Hrun Hdoc batch. unfold Main.tick.
  rewrite He, Hrun, Hdoc. simpl.
  fold batch.
  destruct (Game_tick_returns engine (map input batch) clock s doc Hdoc)
    as (result & s1 & w1 & Htick & Hin).
  rewrite Htick. simpl.
  set (s2 := match last (map Some batch) None with
             | Some lastInput => _
             | None => s1
             end).
  assert (Hs2 : forall r', In r' (inputs s2) ->
            (Main.inBatch batch r' = true
             /\ returnValue r' = Some (RvOk (Game.outputs result)))
            \/ (Main.inBatch batch r' = false /\ In r' (inputs s))).
  { intros r' Hr'. unfold s2 in Hr'.
    destruct (last (map Some batch) None) as [lastInput |] eqn:Hlast.
    - simpl in Hr'. apply writeReturnValues_In in Hr'.
      rewrite Hin in Hr'. exact Hr'.
    - apply last_Some_nonempty in Hlast. right. split.
      + rewrite Hlast. reflexivity.
      + now rewrite <- Hin. }
  do 3 eexists. split; [reflexivity |].
  intros r' Hr'. apply Hs2.
  destruct (engineDoc s2) as [e2 |]; [destruct (running e2) |]; exact Hr'.
Qed.

(** No queued command passes [validateInput]: [validator.parse] throws for
    every one of them.  [processInput] then answers
    [{success: false, error: 'Input validation failed'}] without calling a
    handler, and the state is as it was. *)
Lemma processInput_fails (engine : Engine) (i : Input) (clock : Z)
    (st : Game.State) :
  Game.processInput engine i clock st = (Throw "Input validation failed", st).
Proof.
  unfold Game.processInput, Game.validateInput, Game.parse.
  destruct (Game.hasValidator i); reflexivity.
Qed.

Lemma processInputs_fail (engine : Engine) (batch : list Input) (clock : Z) :
  forall (outs : list Output) (st : Game.State),
    Game.processInputs engine batch clock outs st = (outs, st).
Proof.
  induction batch as [| i batch IH]; intros outs st; simpl; [reflexivity |].
  rewrite processInput_fails. apply IH.
Qed.

(** [Game.tick] on a store that has a world document: the batch changes
    nothing and yields no output, the world that [load] builds holds nobody,
    so that its tick leaves the tables alone, and [save] and [updateTiming]
    write the world document and the two times. *)
Lemma Game_tick_run (engine : Engine) (batch : list Input) (clock : Z)
    (s : Store) (doc : WorldDoc) :
  worldDoc s = Some doc ->
  Game.tick engine batch clock s
  = Ok ({| Game.outputs := None;
           Game.debugOutput :=
             "Processed " ++ toString (Z.of_nat (length batch))
               ++ " inputs, world time: " ++ toString (Game.now engine) |},
        (patchEngine (set_timing clock (Game.now engine + Game.TICK)%Z)
           (set_worldDoc
              (Some {| doc_nextId := doc_nextId doc;
                       doc_lastViewed := Game.now engine |})
              (set_tables (tables s) s)),
         World.new (doc_nextId doc) (Game.now engine))).
Proof.
  intros Hdoc. unfold Game.tick. rewrite Hdoc, processInputs_fail.
  reflexivity.
Qed.

(** The whole effect of a step over a running engine with a world: on the
    engine document, the queue, the schedule, the tables and the world
    document. *)
Lemma step_engine (clock : Z) (s : Store) (engine : Engine) (doc : WorldDoc) :
  engineDoc s = Some engine ->
  running engine = true ->
  worldDoc s = Some doc ->
  exists debug s' engine',
    Main.tick clock s
    = Ok (Main.Processed (length (nextBatch s)) None debug, s')
    /\ engineDoc s' = Some engine'
    /\ currentTime engine' = Some (Game.now engine + 16)%Z
    /\ lastStepTs engine' = Some clock
    /\ processedInputNumber engine'
       = match last (map Some (nextBatch s)) None with
         | Some r => Some (number r)
         | None => processedInputNumber engine
         end
    /\ running engine' = true
    /\ generationNumber engine' = generationNumber engine
    /\ scheduled s' = scheduled s ++ [16%Z]
    /\ inputs s'
       = match nextBatch s with
         | [] => inputs s
         | _ => Main.writeReturnValues (nextBatch s) None (inputs s)
         end
    /\ tables s' = tables s
    /\ worldDoc s'
       = Some {| doc_nextId := doc_nextId doc;
                 doc_lastViewed := Game.now engine |}.
Proof.
  intros He Hrun Hdoc. unfold nextBatch, Main.tick.
  rewrite He, Hrun, Hdoc. simpl.
  set (batch := Main.pending _ _).
  rewrite (Game_tick_run engine (map input batch) clock s doc Hdoc).
  unfold bind, patchEngine. simpl. rewrite He. simpl.
  destruct (last (map Some batch) None) as [lastInput |] eqn:Hlast.
  - simpl. rewrite Hrun.
    do 3 eexists. split; [reflexivity |]. simpl.
    repeat split; try exact Hrun.
    destruct batch; [discriminate | reflexivity].
  - apply last_Some_nonempty in Hlast.
    simpl. rewrite Hrun.
    do 3 eexists. split; [reflexivity |]. simpl.
    repeat split; try exact Hrun.
    rewrite Hlast. reflexivity.
Qed.

(** C2.  A step over a running engine with a world does not crash and goes
    through its whole batch, although every command of the batch fails:
    [processInput] answers each of them with [success: false] and the error
    ['Input validation failed'].  The step collects no output and patches
    [{kind: 'ok', value: null}] onto the row of every one of these failed
    commands; no row is given [{kind: 'error', message}], and the rows
    outside the batch are as before. *)
Theorem failed_command_is_reported_ok :
  forall (clock : Z) (s : Store) (engine : Engine) (doc : WorldDoc),
    engineDoc s = Some engine ->
    running engine = true ->
    worldDoc s = Some doc ->
    exists debug s',
      Main.tick clock s
      = Ok (Main.Processed (length (nextBatch s)) None debug, s')
      /\ (forall r st,
            In r (nextBatch s) ->
            Game.processInput engine (input r) clock st
            = (Throw "Input validation failed", st))
      /\ (forall r,
            In r (nextBatch s) ->
            In (set_returnValue (Some (RvOk None)) r) (inputs s'))
      /\ (forall r',
            In r' (inputs s') ->
            (Main.inBatch (nextBatch s) r' = true
             /\ returnValue r' = Some (RvOk None))
            \/ (Main.inBatch (nextBatch s) r' = false /\ In r' (inputs s))).
Proof.
  intros clock s engine doc He Hrun Hdoc.
  destruct (step_engine clock s engine doc He Hrun Hdoc)
    as (debug & s' & e' & Htick & _ & _ & _ & _ & _ & _ & _ & Hin & _).
  exists debug, s'. split; [exact Htick |].
  split; [intros r st _; apply processInput_fails |].
  destruct (nextBatch s) as [| r0 batch] eqn:Hb.
  - split; [intros r [] |].
    intros r' Hr'. right. split; [reflexivity | now rewrite <- Hin].
  - set (b := r0 :: batch) in *. split.
    + intros r Hr. rewrite Hin. unfold Main.writeReturnValues.
      apply in_map_iff. exists r. split.
      * assert (Hbr : Main.inBatch b r = true).
        { unfold Main.inBatch. apply existsb_exists. exists r.
          split; [exact Hr | apply Z.eqb_refl]. }
        now rewrite Hbr.
      * assert (Hr' : In r (nextBatch s)) by (rewrite Hb; exact Hr).
        unfold nextBatch in Hr'. rewrite He in Hr'. unfold Main.pending in Hr'.
        assert (Hf : In r (firstn 100 (filter
                                         (fun r1 =>
                                            (orElse (processedInputNumber engine)
                                               (-1) <? number r1)%Z)
                                         (inputs s))
                           ++ skipn 100 (filter
                                           (fun r1 =>
                                              (orElse
                                                 (processedInputNumber engine)
                                                 (-1) <? number r1)%Z)
                                           (inputs s))))
          by (apply in_or_app; now left).
        rewrite firstn_skipn in Hf. apply filter_In in Hf. tauto.
    + intros r' Hr'. rewrite Hin in Hr'.
      now apply writeReturnValues_In in Hr'.
Qed.

Lemma failed_command_is_reported_ok_witness :
  exists debug s',
    Main.tick 100 queuedStore = Ok (Main.Processed 3 None debug, s')
    /\ (forall r st,
          In r (nextBatch queuedStore) ->
          Game.processInput
            {| currentTime := Some 0%Z; lastStepTs := None;
               processedInputNumber := None; running := true;
               generationNumber := 0 |} (input r) 100 st
          = (Throw "Input validation failed", st))
    /\ (forall r,
          In r (nextBatch queuedStore) ->
          In (set_returnValue (Some (RvOk None)) r) (inputs s'))
    /\ (forall r',
          In r' (inputs s') ->
          (Main.inBatch (nextBatch queuedStore) r' = true
           /\ returnValue r' = Some (RvOk None))
          \/ (Main.inBatch (nextBatch queuedStore) r' = false
              /\ In r' (inputs queuedStore))).
Proof.
  apply (failed_command_is_reported_ok 100 queuedStore _ _
           eq_refl eq_refl eq_refl).
Defined.

(** The run of that step on the queue that holds a [join], a [sendMessage]
    for a player that does not exist, and another [join]: three rows taken,
    no output, and [{kind: 'ok', value: null}] on each of the three rows. *)
Example failed_command_sample_run :
  exists s',
    Main.tick 100 queuedStore
    = Ok (Main.Processed 3 None "Processed 3 inputs, world time: 0", s')
    /\ map (fun r => (input r, returnValue r)) (inputs s')
       = [(join "Ada" "f1" "first", Some (RvOk None));
          (sendMessage "9" "hi" "u1", Some (RvOk None));
          (join "Bob" "f2" "second", Some (RvOk None))].
Proof. eexists. split; reflexivity. Qed.

(** ** Trust and emotion bounds *)

Ltac minmax :=
  unfold inRange, Agent.clamp, Rmin, Rmax in *;
  repeat match goal with
    | |- context [Rle_dec ?a ?b] => destruct (Rle_dec a b)
    end;
  lra.

Lemma clamp_inRange (v : R) : inRange (Agent.clamp v).
Proof. minmax. Qed.

Lemma updateTrustScore_bounded (delta : R) (action context : string)
    (clock : Z) (a : Agent.t) :
  bounded a -> bounded (Agent.updateTrustScore delta action context clock a).
Proof.
  intros (Ht & Hc & Hh & Hs & He & Hso).
  unfold Agent.updateTrustScore, Rltb.
  pose proof (Rabs_pos delta) as Habs.
  destruct (Rlt_dec 0 delta) as [Hpos | Hneg]; unfold bounded; simpl;
    (split; [apply clamp_inRange |]);
    (split; [exact Hc |]);
    repeat split; minmax.
Qed.

Lemma modifyConnection_bounded (f : Agent.SocialConnection -> Agent.SocialConnection)
    (agentId : string) (l : list Agent.SocialConnection) :
  (forall c, inRange (Agent.trustLevel (f c))) ->
  Forall (fun c => inRange (Agent.trustLevel c)) l ->
  Forall (fun c => inRange (Agent.trustLevel c))
    (Agent.modifyConnection f agentId l).
Proof.
  intros Hf. induction 1 as [| c l Hc Hl IH]; simpl; [constructor |].
  destruct (Agent.agentId c =? agentId); constructor; auto.
Qed.

Lemma updateSocialConnection_bounded (agentId : string) (trustDelta : R)
    (clock : Z) (a : Agent.t) :
  bounded a -> bounded (Agent.updateSocialConnection agentId trustDelta clock a).
Proof.
  intros (Ht & Hc & Hh & Hs & He & Hso).
  unfold Agent.updateSocialConnection, bounded; simpl.
  split; [exact Ht |]. split.
  - apply modifyConnection_bounded.
    + intros c. simpl. apply clamp_inRange.
    + destruct (Agent.findConnection agentId (Agent.socialConnections a));
        [exact Hc |].
      apply Forall_app. split; [exact Hc |].
      constructor; [simpl; unfold inRange; lra | constructor].
  - repeat split; minmax.
Qed.

(** C5.  When the trust score, every connection's trust level and the four
    emotions of an agent lie in [0, 100], they still do after any finite
    sequence of [updateTrustScore] and [updateSocialConnection] calls with
    arbitrary real deltas. *)
Theorem trust_updates_stay_bounded :
  forall (ks : list TrustCall) (a : Agent.t),
    bounded a -> bounded (trustCalls ks a).
Proof.
  unfold trustCalls.
  induction ks as [| k ks IH]; intros a Ha; simpl; [exact Ha |].
  apply IH. destruct k; simpl.
  - now apply updateTrustScore_bounded.
  - now apply updateSocialConnection_bounded.
Qed.

Lemma create_bounded (id name character : string) (rx ry : R) (clock : Z) :
  bounded (Agent.create id name character rx ry clock).
Proof.
  unfold bounded, inRange; simpl.
  repeat split; try lra. constructor.
Qed.

Lemma trust_updates_stay_bounded_witness :
  bounded
    (trustCalls
       [UpdateTrustScore 1000 "helped" "market" 10;
        UpdateSocialConnection "3" (-250) 20;
        UpdateTrustScore (-7 / 2) "lied" "square" 30;
        UpdateSocialConnection "3" 1000 40]
       (Agent.create "7" "Eve" "f3" (1 / 2) (1 / 2) 0)).
Proof.
  apply trust_updates_stay_bounded. apply create_bounded.
Defined.

(** ** The sleep cycle *)

Lemma Rltb_true (a b : R) : Rltb a b = true <-> (a < b)%R.
Proof. unfold Rltb. destruct (Rlt_dec a b); split; congruence || auto. Qed.

Lemma Rltb_false (a b : R) : Rltb a b = false <-> (b <= a)%R.
Proof.
  unfold Rltb. destruct (Rlt_dec a b); split; try congruence; try lra.
Qed.

Lemma Rleb_true (a b : R) : Rleb a b = true <-> (a <= b)%R.
Proof. unfold Rleb. destruct (Rle_dec a b); split; congruence || auto. Qed.

Lemma Rleb_false (a b : R) : Rleb a b = false <-> (b < a)%R.
Proof.
  unfold Rleb. destruct (Rle_dec a b); split; try congruence; try lra.
Qed.

(** [hoursSinceWakeUp > 16] in milliseconds. *)
Lemma hours_since_wake (now lastWakeUp : Z) :
  (16 < IZR (now - lastWakeUp) / IZR (1000 * 60 * 60))%R
  <-> (57600000 < now - lastWakeUp)%Z.
Proof.
  change (1000 * 60 * 60)%Z with 3600000%Z.
  split.
  - intros H. apply lt_IZR.
    assert (16 * 3600000 < IZR (now - lastWakeUp))%R.
    { apply (Rmult_lt_compat_r 3600000) in H; [| lra].
      unfold Rdiv in H. rewrite Rmult_assoc, Rinv_l, Rmult_1_r in H; lra. }
    lra.
  - intros H. apply IZR_lt in H.
    apply (Rmult_lt_reg_r 3600000); [lra |].
    unfold Rdiv. rewrite Rmult_assoc, Rinv_l, Rmult_1_r; lra.
Qed.

Lemma shouldSleep_spec (now : Z) (a : Agent.t) :
  Agent.shouldSleep now a = true
  <-> ((Agent.energy (Agent.emotionalState a) < 30)%R
       \/ (57600000 < now - Agent.lastWakeUp a)%Z).
Proof.
  unfold Agent.shouldSleep.
  rewrite orb_true_iff, !Rltb_true, hours_since_wake. reflexivity.
Qed.

(** An awake agent that is low on energy falls asleep on its tick. *)
Lemma tick_falls_asleep (now clock : Z) (a : Agent.t) :
  Agent.status a <> Agent.Sleeping ->
  (Agent.energy (Agent.emotionalState a) < 30)%R ->
  Agent.tick now clock a = Agent.goToSleep Agent.defaultSleepDuration clock a.
Proof.
  intros Hawake Hlow. unfold Agent.tick.
  assert (Agent.isSleeping (Agent.status a) = false) as ->
      by (destruct (Agent.status a); simpl; congruence).
  assert (Agent.shouldSleep now a = true) as ->
      by (apply shouldSleep_spec; now left).
  reflexivity.
Qed.

(** A sleeping agent whose deadline has not come is left as it is. *)
Lemma tick_stays_asleep (now clock u : Z) (a : Agent.t) :
  Agent.status a = Agent.Sleeping ->
  Agent.sleepUntil a = Some u ->
  (now < u)%Z ->
  Agent.tick now clock a = a.
Proof.
  intros Hs Hu Hlt. unfold Agent.tick. rewrite Hs, Hu. simpl.
  assert ((u <=? now)%Z = false) as -> by lia.
  now rewrite andb_false_r.
Qed.

(** A sleeping agent whose deadline has come wakes up, and then the second
    sleep check of the same tick runs on the agent that just woke. *)
Lemma tick_wakes (now clock u : Z) (a : Agent.t) :
  Agent.status a = Agent.Sleeping ->
  Agent.sleepUntil a = Some u ->
  u <> 0%Z ->
  (u <= now)%Z ->
  Agent.tick now clock a =
  if (57600000 <? now - clock)%Z
  then Agent.goToSleep Agent.defaultSleepDuration clock (Agent.wakeUp clock a)
  else Agent.awakeTick now clock (Agent.wakeUp clock a).
Proof.
  intros Hs Hu Hnz Hle. unfold Agent.tick. rewrite Hs, Hu. simpl.
  assert ((u =? 0)%Z = false) as -> by lia.
  assert ((u <=? now)%Z = true) as -> by lia.
  simpl.
  destruct (57600000 <? now - clock)%Z eqn:Hlate.
  - assert (Agent.shouldSleep now (Agent.wakeUp clock a) = true) as ->;
      [| reflexivity].
    apply shouldSleep_spec. right. simpl. lia.
  - destruct (Agent.shouldSleep now (Agent.wakeUp clock a)) eqn:Hss;
      [| reflexivity].
    apply shouldSleep_spec in Hss. simpl in Hss.
    destruct Hss as [Hss | Hss]; [lra | lia].
Qed.

Lemma goToSleep_fields (duration clock : Z) (a : Agent.t) :
  Agent.status (Agent.goToSleep duration clock a) = Agent.Sleeping
  /\ Agent.sleepUntil (Agent.goToSleep duration clock a)
     = Some (clock + duration)%Z.
Proof. split; reflexivity. Qed.

Lemma awakeTick_after_wakeUp (now clock : Z) (a : Agent.t) :
  let a' := Agent.awakeTick now clock (Agent.wakeUp clock a) in
  Agent.status a' = Agent.Idle
  /\ Agent.energy (Agent.emotionalState a') = 100%R.
Proof.
  unfold Agent.awakeTick. simpl.
  destruct (Agent.pathfinding a); simpl;
    destruct (60000 <? now - Agent.lastActivity a)%Z; simpl;
    (split; [reflexivity | unfold Rmin; destruct (Rle_dec _ _); lra]).
Qed.

(** C6, as stated, fails when the waking tick comes late: the agent falls
    asleep at wall-clock time T, and its first tick at or past [sleepUntil]
    is handed [now = T + 17 h] while the wall clock reads [T + 5 ms]; the
    agent wakes and, in the same tick, falls asleep again. *)
Lemma sleep_cycle_counterexample :
  Agent.status tiredAgent = Agent.Idle
  /\ (Agent.energy (Agent.emotionalState tiredAgent) < 30)%R
  /\ Agent.status (Agent.tick 1700000000000 1700000000000 tiredAgent)
     = Agent.Sleeping
  /\ Agent.sleepUntil (Agent.tick 1700000000000 1700000000000 tiredAgent)
     = Some 1700028800000%Z
  /\ (1700028800000 <= 1700061200000)%Z
  /\ Agent.status
       (Agent.tick 1700061200000 1700000000005
          (Agent.tick 1700000000000 1700000000000 tiredAgent))
     <> Agent.Idle.
Proof.
  assert (Hlow : (Agent.energy (Agent.emotionalState tiredAgent) < 30)%R)
    by (simpl; lra).
  assert (Hfall := tick_falls_asleep 1700000000000 1700000000000 tiredAgent).
  rewrite Hfall by (try discriminate; exact Hlow).
  split; [reflexivity |]. split; [exact Hlow |].
  split; [reflexivity |]. split; [reflexivity |]. split; [lia |].
  rewrite (tick_wakes _ _ 1700028800000) by (reflexivity || lia).
  discriminate.
Qed.

(** C6, amended.  An awake agent whose energy is below 30 is asleep after
    its next tick, with [sleepUntil] eight hours after the wall-clock time
    [clock0 >= 0] of that tick; every later tick whose [now] is before
    [sleepUntil] leaves it as it is, asleep; and a tick whose [now] is at or
    past [sleepUntil] leaves it idle with energy 100, provided [now] is not
    more than 16 hours ahead of the wall-clock time read on waking. *)
Theorem sleep_cycle :
  forall (a : Agent.t) (now0 clock0 : Z),
    (0 <= clock0)%Z ->
    Agent.status a <> Agent.Sleeping ->
    (Agent.energy (Agent.emotionalState a) < 30)%R ->
    Agent.status (Agent.tick now0 clock0 a) = Agent.Sleeping
    /\ Agent.sleepUntil (Agent.tick now0 clock0 a)
       = Some (clock0 + 28800000)%Z
    /\ (forall now clock,
          (now < clock0 + 28800000)%Z ->
          Agent.tick now clock (Agent.tick now0 clock0 a)
          = Agent.tick now0 clock0 a)
    /\ (forall now clock,
          (clock0 + 28800000 <= now)%Z ->
          (now - clock <= 57600000)%Z ->
          Agent.status (Agent.tick now clock (Agent.tick now0 clock0 a))
          = Agent.Idle
          /\ Agent.energy
               (Agent.emotionalState
                  (Agent.tick now clock (Agent.tick now0 clock0 a)))
             = 100%R).
Proof.
  intros a now0 clock0 Hclock Hawake Hlow.
  rewrite (tick_falls_asleep now0 clock0 a Hawake Hlow).
  destruct (goToSleep_fields Agent.defaultSleepDuration clock0 a)
    as [Hst Hu].
  change (clock0 + Agent.defaultSleepDuration)%Z
    with (clock0 + 28800000)%Z in Hu.
  split; [exact Hst |]. split; [exact Hu |]. split.
  - intros now clock Hlt.
    now apply (tick_stays_asleep now clock (clock0 + 28800000)%Z).
  - intros now clock Hle Hnear.
    rewrite (tick_wakes now clock (clock0 + 28800000)%Z) by (auto; lia).
    assert ((57600000 <? now - clock)%Z = false) as -> by lia.
    apply awakeTick_after_wakeUp.
Qed.

Lemma sleep_cycle_witness :
  Agent.status (Agent.tick 1700000000000 1700000000000 tiredAgent)
  = Agent.Sleeping
  /\ Agent.sleepUntil (Agent.tick 1700000000000 1700000000000 tiredAgent)
     = Some (1700000000000 + 28800000)%Z
  /\ (forall now clock,
        (now < 1700000000000 + 28800000)%Z ->
        Agent.tick now clock (Agent.tick 1700000000000 1700000000000 tiredAgent)
        = Agent.tick 1700000000000 1700000000000 tiredAgent)
  /\ (forall now clock,
        (1700000000000 + 28800000 <= now)%Z ->
        (now - clock <= 57600000)%Z ->
        Agent.status
          (Agent.tick now clock
             (Agent.tick 1700000000000 1700000000000 tiredAgent))
        = Agent.Idle
        /\ Agent.energy
             (Agent.emotionalState
                (Agent.tick now clock
                   (Agent.tick 1700000000000 1700000000000 tiredAgent)))
           = 100%R).
Proof.
  apply (sleep_cycle tiredAgent 1700000000000 1700000000000).
  - lia.
  - discriminate.
  - simpl. lra.
Defined.

(** ** Memory cleanup *)


Section Cleanup.
Import AgentMemory.
Variable clock : Z.





End Cleanup.








Lemma In_firstn {A : Type} (k : nat) (l : list A) (a : A) :
  In a (firstn k l) -> In a l.
Proof.
  intros H. rewrite <- (firstn_skipn k l). apply in_or_app. now left.
Qed.



(** [createMemory], the one function that adds rows to the two tables, keeps
    them such that every memory has its own embedding row. *)
Lemma freshId_above (ids : list Z) :
  forall id, In id ids -> (id < AgentMemory.freshId ids)%Z.
Proof.
  unfold AgentMemory.freshId. induction ids as [| a ids IH]; [contradiction |].
  intros id [-> | Hin]; simpl; [lia |]. specialize (IH id Hin). lia.
Qed.

Lemma NoDup_snoc {A : Type} (l : list A) (a : A) :
  NoDup l -> ~ In a l -> NoDup (l ++ [a]).
Proof.
  intros Hnd Hnot. induction Hnd as [| b l Hb Hnd IH]; simpl.
  - repeat constructor. intros [].
  - constructor.
    + intros Hin. apply in_app_or in Hin. destruct Hin as [Hin | [-> | []]].
      * contradiction.
      * apply Hnot. now left.
    + apply IH. intros Hin. apply Hnot. now right.
Qed.

Lemma createMemory_intact (agentId : string) (description : JSString)
    (importance : R) (clock : Z) (tb : AgentMemory.Tables) :
  intact tb ->
  intact
    (snd (AgentMemory.createMemory agentId description importance clock tb)).
Proof.
  intros (Hids & Hembs & Hrows).
  unfold intact, AgentMemory.createMemory, AgentMemory.createEmbedding.
  cbn beta iota zeta delta [snd AgentMemory.memories
                              AgentMemory.memoryEmbeddings].
  split; [| split].
  - rewrite map_app. cbn [map AgentMemory._id].
    apply NoDup_snoc; [exact Hids |].
    intros Hin. apply freshId_above in Hin. lia.
  - rewrite map_app. cbn [map AgentMemory.embeddingId].
    apply NoDup_snoc; [exact Hembs |].
    intros Hin. apply in_map_iff in Hin. destruct Hin as (m & Heq & Hm).
    destruct (Hrows m Hm) as (e & He & Hid).
    assert (Hlt : (AgentMemory.emb_id e
                   < AgentMemory.freshId
                       (map AgentMemory.emb_id
                          (AgentMemory.memoryEmbeddings tb)))%Z)
      by (apply freshId_above; now apply in_map).
    lia.
  - intros m Hm. apply in_app_or in Hm. destruct Hm as [Hm | [<- | []]].
    + destruct (Hrows m Hm) as (e & He & Hid).
      exists e. split; [apply in_or_app; now left | exact Hid].
    + eexists. split; [apply in_or_app; right; left; reflexivity |].
      reflexivity.
Qed.




(** The cleanup of the sample tables, run: of the four memories of agent
    ["7"], the two with the lowest scores are candidates, both are below the
    floor 3, and both are deleted, each with its embedding row. *)
Ltac decide_scores :=
  repeat (simpl;
          match goal with
          | |- context [Rleb ?a ?b] =>
              first [ replace (Rleb a b) with true
                        by (symmetry; apply Rleb_true;
                            unfold AgentMemory.score; simpl; lra)
                    | replace (Rleb a b) with false
                        by (symmetry; apply Rleb_false;
                            unfold AgentMemory.score; simpl; lra) ]
          | |- context [Rltb ?a ?b] =>
              first [ replace (Rltb a b) with true
                        by (symmetry; apply Rltb_true; simpl; lra)
                    | replace (Rltb a b) with false
                        by (symmetry; apply Rltb_false; simpl; lra) ]
          end).

Example cleanup_sample_run :
  exists tb',
    AgentMemory.cleanupMemories "7" 2 3 0 sampleMemories = Ok (2%nat, tb')
    /\ map AgentMemory._id (AgentMemory.memories tb') = [1; 3; 5]%Z
    /\ map AgentMemory.emb_id (AgentMemory.memoryEmbeddings tb')
       = [101; 103; 105]%Z.
Proof.
  eexists.
  unfold AgentMemory.cleanupMemories, AgentMemory.candidates,
    AgentMemory.sortByScore, AgentMemory.ownMemories, sampleMemories.
  decide_scores. split; [reflexivity | split; reflexivity].
Qed.

(** Without the embedding rows the first [delete] of the loop throws, and
    the cleanup deletes nothing. *)
Example cleanup_without_embedding_rows :
  AgentMemory.cleanupMemories "7" 2 3 0
    {| AgentMemory.memories := AgentMemory.memories sampleMemories;
       AgentMemory.memoryEmbeddings := [] |}
  = Throw "Delete on nonexistent document".
Proof.
  unfold AgentMemory.cleanupMemories, AgentMemory.candidates,
    AgentMemory.sortByScore, AgentMemory.ownMemories, sampleMemories.
  decide_scores. reflexivity.
Qed.

(** ** Walking to a destination *)

Local Open Scope R_scope.

Lemma square_nonneg (a b : R) : 0 <= a * a + b * b.
Proof. nra. Qed.

(** One move of length [sigma] towards [d], from a point at distance
    [delta >= 0.1], leaves the distance [|delta - sigma|]. *)
Lemma move_distance (P d : Point) (sigma : R) :
  let dx := x d - x P in
  let dy := y d - y P in
  let delta := sqrt (dx * dx + dy * dy) in
  1 / 10 <= delta ->
  distance {| x := x P + dx / delta * sigma; y := y P + dy / delta * sigma |} d
  = Rabs (delta - sigma).
Proof.
  intros dx dy delta Hfar.
  assert (Hsq : delta * delta = dx * dx + dy * dy).
  { unfold delta. apply sqrt_sqrt, square_nonneg. }
  assert (Ex : x d - (x P + dx / delta * sigma)
               = dx * ((delta - sigma) / delta)).
  { unfold dx. clearbody delta. field. lra. }
  assert (Ey : y d - (y P + dy / delta * sigma)
               = dy * ((delta - sigma) / delta)).
  { unfold dy. clearbody delta. field. lra. }
  unfold distance. simpl. rewrite Ex, Ey.
  apply sqrt_lem_1; [apply square_nonneg | apply Rabs_pos |].
  transitivity ((delta - sigma) * (delta - sigma)).
  - unfold Rabs. destruct (Rcase_abs (delta - sigma)); ring.
  - transitivity ((dx * dx + dy * dy)
                  * (((delta - sigma) / delta) * ((delta - sigma) / delta)));
      [| ring].
    rewrite <- Hsq. clearbody delta. field. lra.
Qed.


Section PlayerWalk.
Variable d : Point.






End PlayerWalk.


Section AgentWalk.
Variable d : Point.






End AgentWalk.

Section AgentConverge.
Variable d : Point.


End AgentConverge.








(** A player whose move is twice the arrival radius, at distance 0.1 from its
    destination, steps over it on every tick and never arrives. *)
Lemma fast_player_never_arrives (d : Point) (times : list (Z * Z)) :
  forall p : Player.t,
    playerWalkingTo d p ->
    moveDistance (Player.speed p) = 2 / 10 ->
    distance (Player.position p) d = 1 / 10 ->
    ~ playerArrived d (playerTicks times p).
Proof.
  induction times as [| t times IH]; intros p Hw Hspeed Hdist; simpl.
  - intros (_ & Hidle & _). destruct Hw as [Hs _]. congruence.
  - destruct Hw as [Hs Hp].
    assert (Hstep : playerWalkingTo d (Player.tick (fst t) (snd t) p)
                    /\ Player.speed (Player.tick (fst t) (snd t) p)
                       = Player.speed p
                    /\ distance
                         (Player.position (Player.tick (fst t) (snd t) p)) d
                       = 1 / 10).
    { unfold Player.tick, Player.walk. rewrite Hp, Hs. simpl.
      fold (distance (Player.position p) d).
      assert (Hb : Rltb (distance (Player.position p) d) (1 / 10) = false)
        by (apply Rltb_false; lra).
      rewrite Hb. simpl.
      split; [split; assumption |]. split; [reflexivity |].
      unfold distance at 2 3. rewrite move_distance.
      - fold (distance (Player.position p) d).
        fold (moveDistance (Player.speed p)).
        rewrite Hdist, Hspeed.
        replace (1 / 10 - 2 / 10) with (- (1 / 10)) by lra.
        rewrite Rabs_Ropp. apply Rabs_pos_eq. lra.
      - fold (distance (Player.position p) d). lra. }
    destruct Hstep as (Hw' & Hspeed' & Hdist').
    apply IH; [exact Hw' | now rewrite Hspeed' | exact Hdist'].
Qed.



(** * Further properties *)

Local Close Scope R_scope.

(** ** Conversations: who may speak, and until when *)

Lemma isCurrentSpeaker_spec (p : string) (c : Conversation.t) :
  Conversation.isCurrentSpeaker p c = true
  <-> Conversation.currentSpeaker c = Some p.
Proof.
  unfold Conversation.isCurrentSpeaker.
  destruct (Conversation.currentSpeaker c) as [s |].
  - destruct (String.eqb_spec s p); split; congruence.
  - split; discriminate.
Qed.

(** X1.  [canSpeak] answers true exactly when [addMessage] by the same player
    would not throw, whatever the text, the message id, the clock and the
    message table are. *)
Theorem canSpeak_iff_addMessage_succeeds :
  forall (messages : list MessageRow) (playerId text messageUuid : string)
         (clock : Z) (c : Conversation.t),
    Conversation.canSpeak playerId c = true
    <-> exists r,
          Conversation.addMessage messages playerId text messageUuid clock c
          = Ok r.
Proof.
  intros messages playerId text messageUuid clock c.
  unfold Conversation.canSpeak, Conversation.addMessage,
    Conversation.otherSpeaks, Conversation.isCurrentSpeaker.
  destruct (includes (Conversation.participants c) playerId); simpl;
    [| split; [discriminate | intros [r H]; discriminate]].
  destruct (Conversation.isActive (Conversation.status c)); simpl;
    [| split; [discriminate | intros [r H]; discriminate]].
  destruct (Conversation.currentSpeaker c) as [s |]; simpl.
  - destruct (s =? ""); simpl; destruct (s =? playerId); simpl;
      split; try discriminate; eauto; intros [r H]; discriminate.
  - split; eauto.
Qed.

(** *** The invariant of the conversation object *)

Lemma create_wellFormed (id creator : string) (invited : list string)
    (clock : Z) :
  wellFormed (Conversation.create id creator invited clock).
Proof.
  unfold wellFormed. simpl. repeat split; try discriminate.
  - repeat constructor. simpl. tauto.
  - intros p [<- | []] Hin. apply without_In in Hin. tauto.
Qed.

Lemma acceptInvite_wellFormed (p : string) (clock : Z)
    (c c' : Conversation.t) :
  wellFormed c -> Conversation.acceptInvite p clock c = Ok c' ->
  wellFormed c'.
Proof.
  intros (Hnd & Hdis & Hsp & Hun). unfold Conversation.acceptInvite.
  destruct (includes (Conversation.invited c) p) eqn:Hinc; simpl;
    [| discriminate].
  apply includes_In in Hinc.
  assert (Hwf : wellFormed
            (Conversation.set_participants (Conversation.participants c ++ [p])
               (Conversation.set_invited
                  (without (Conversation.invited c) p) c))).
  { unfold wellFormed. simpl. repeat split.
    - apply NoDup_app; [assumption | repeat constructor; simpl; tauto |].
      intros q Hq [<- | []]. exact (Hdis p Hq Hinc).
    - intros q Hq Hw. apply without_In in Hw. destruct Hw as [Hqi Hne].
      apply in_app_or in Hq. destruct Hq as [Hq | [<- | []]].
      + exact (Hdis q Hq Hqi).
      + congruence.
    - intros s Hs. apply in_or_app. left. now apply Hsp.
    - apply Hun.
    - apply Hun. }
  match goal with
  | |- (if ?b then _ else _) = _ -> _ => destruct b
  end; intros [= <-]; [| exact Hwf].
  destruct Hwf as (H1 & H2 & H3 & H4). unfold wellFormed. simpl.
  repeat split; try assumption; apply H4.
Qed.

Lemma rejectInvite_wellFormed (p : string) (clock : Z)
    (c c' : Conversation.t) :
  wellFormed c -> Conversation.rejectInvite p clock c = Ok c' ->
  wellFormed c'.
Proof.
  intros (Hnd & Hdis & Hsp & Hun). unfold Conversation.rejectInvite.
  destruct (includes (Conversation.invited c) p); simpl; [| discriminate].
  assert (Hdis' : forall q, In q (Conversation.participants c) ->
                    ~ In q (without (Conversation.invited c) p)).
  { intros q Hq Hw. apply without_In in Hw. exact (Hdis q Hq (proj1 Hw)). }
  match goal with
  | |- (if ?b then _ else _) = _ -> _ => destruct b
  end; intros [= <-]; unfold wellFormed; simpl;
    repeat split; try assumption; apply Hun.
Qed.

Lemma addMessage_wellFormed (messages messages' : list MessageRow)
    (a t u : string) (clock : Z) (c c' : Conversation.t) :
  wellFormed c ->
  Conversation.addMessage messages a t u clock c = Ok (messages', c') ->
  wellFormed c'.
Proof.
  intros (Hnd & Hdis & Hsp & Hun). unfold Conversation.addMessage.
  destruct (includes (Conversation.participants c) a) eqn:Hinc; simpl;
    [| discriminate].
  apply includes_In in Hinc.
  destruct (Conversation.isActive (Conversation.status c)); simpl;
    [| discriminate].
  destruct (Conversation.otherSpeaks a c); [discriminate |].
  intros [= _ <-]. unfold wellFormed. simpl.
  repeat split; try assumption; try discriminate.
  intros s [= <-]. exact Hinc.
Qed.

Lemma finishSpeaking_wellFormed (p : string) (clock : Z)
    (c c' : Conversation.t) :
  wellFormed c -> Conversation.finishSpeaking p clock c = Ok c' ->
  wellFormed c'.
Proof.
  intros (Hnd & Hdis & Hsp & Hun). unfold Conversation.finishSpeaking.
  destruct (Conversation.isCurrentSpeaker p c); simpl; [| discriminate].
  intros [= <-]. unfold wellFormed. simpl.
  repeat split; try assumption; discriminate.
Qed.

Lemma leave_wellFormed (p : string) (clock : Z) (c : Conversation.t) :
  wellFormed c -> wellFormed (Conversation.leave p clock c).
Proof.
  intros (Hnd & Hdis & Hsp & Hun).
  assert (Hnd' : NoDup (without (Conversation.participants c) p))
    by (apply NoDup_filter; exact Hnd).
  assert (Hdis' : forall q, In q (without (Conversation.participants c) p) ->
                    ~ In q (without (Conversation.invited c) p)).
  { intros q Hq Hw. apply without_In in Hq, Hw.
    exact (Hdis q (proj1 Hq) (proj1 Hw)). }
  unfold Conversation.leave.
  set (c2 := Conversation.set_invited _ _).
  assert (Hwf : wellFormed
            (if Conversation.isCurrentSpeaker p c2 then
               Conversation.set_speakingUntil None
                 (Conversation.set_currentSpeaker None c2)
             else c2)).
  { destruct (Conversation.isCurrentSpeaker p c2) eqn:Hcur.
    - unfold wellFormed. simpl. repeat split; try assumption; discriminate.
    - unfold wellFormed. simpl. repeat split; try assumption; try apply Hun.
      intros s Hs. apply without_In. split; [now apply Hsp |].
      intros ->. apply isCurrentSpeaker_spec in Hs.
      unfold c2 in Hcur. simpl in Hcur.
      unfold Conversation.isCurrentSpeaker in Hcur, Hs. simpl in Hcur.
      congruence. }
  revert Hwf.
  generalize (if Conversation.isCurrentSpeaker p c2 then
                Conversation.set_speakingUntil None
                  (Conversation.set_currentSpeaker None c2)
              else c2).
  intros c3 (H1 & H2 & H3 & H4).
  destruct (length (Conversation.participants c3) =? 0)%nat;
    [| destruct (length (Conversation.participants c3) =? 1)%nat];
    unfold wellFormed; simpl; repeat split; try assumption; apply H4.
Qed.

Lemma tick_wellFormed (now : Z) (c : Conversation.t) :
  wellFormed c -> wellFormed (Conversation.tick now c).
Proof.
  intros (Hnd & Hdis & Hsp & Hun). unfold Conversation.tick.
  destruct (Conversation.isActive (Conversation.status c)); simpl;
    [| repeat split; try assumption; apply Hun].
  destruct (Conversation.elapsed (Conversation.speakingUntil c) now);
    match goal with
    | |- wellFormed (if ?b then _ else _) => destruct b
    end; unfold wellFormed; simpl;
    repeat split; try assumption; try discriminate; apply Hun.
Qed.

Lemma conversationCall_wellFormed (c : Conversation.t)
    (k : ConversationCall) :
  wellFormed c -> wellFormed (conversationCall c k).
Proof.
  intros Hwf. destruct k as [p n | p n | a t u n | p n | p n | now]; simpl.
  - destruct (Conversation.acceptInvite p n c) eqn:H; [| assumption].
    eapply acceptInvite_wellFormed; eassumption.
  - destruct (Conversation.rejectInvite p n c) eqn:H; [| assumption].
    eapply rejectInvite_wellFormed; eassumption.
  - destruct (Conversation.addMessage [] a t u n c) as [[ms c'] |] eqn:H;
      [| assumption].
    eapply addMessage_wellFormed; eassumption.
  - destruct (Conversation.finishSpeaking p n c) eqn:H; [| assumption].
    eapply finishSpeaking_wellFormed; eassumption.
  - now apply leave_wellFormed.
  - now apply tick_wellFormed.
Qed.

(** X2.  Every conversation that [create] builds and that any sequence of
    [acceptInvite], [rejectInvite], [addMessage], [finishSpeaking], [leave]
    and [tick] calls (failed ones included) has acted on lists no participant
    twice, invites none of its participants, has a current speaker only among
    its participants, and has a speaking deadline exactly when it has a
    current speaker. *)
Theorem conversation_stays_wellFormed :
  forall (id creator : string) (invited : list string) (clock : Z)
         (ks : list ConversationCall),
    wellFormed
      (conversationCalls ks (Conversation.create id creator invited clock)).
Proof.
  intros id creator invited clock ks. unfold conversationCalls.
  generalize (create_wellFormed id creator invited clock).
  generalize (Conversation.create id creator invited clock).
  induction ks as [| k ks IH]; intros c Hwf; simpl; [assumption |].
  apply IH. now apply conversationCall_wellFormed.
Qed.

(** X3.  After [leave], the leaver is neither a participant nor invited nor
    the current speaker; the other participants keep their order.  When at
    most one participant is left the conversation is ended at the time of the
    call, and otherwise its status and end time are as before. *)
Theorem leave_removes_the_leaver :
  forall (playerId : string) (clock : Z) (c : Conversation.t),
    let c' := Conversation.leave playerId clock c in
    (In playerId (Conversation.participants c') -> False)
    /\ (In playerId (Conversation.invited c') -> False)
    /\ Conversation.currentSpeaker c' <> Some playerId
    /\ Conversation.participants c'
       = without (Conversation.participants c) playerId
    /\ ((length (Conversation.participants c') <= 1)%nat ->
        Conversation.status c' = Conversation.Ended
        /\ Conversation.ended c' = Some clock)
    /\ ((1 < length (Conversation.participants c'))%nat ->
        Conversation.status c' = Conversation.status c
        /\ Conversation.ended c' = Conversation.ended c).
Proof.
  intros playerId clock c c'. subst c'. unfold Conversation.leave.
  set (c2 := Conversation.set_invited _ _).
  set (c3 := if Conversation.isCurrentSpeaker playerId c2 then _ else c2).
  assert (Hp : Conversation.participants c3
               = without (Conversation.participants c) playerId)
    by (unfold c3; destruct (Conversation.isCurrentSpeaker playerId c2);
        reflexivity).
  assert (Hi : Conversation.invited c3
               = without (Conversation.invited c) playerId)
    by (unfold c3; destruct (Conversation.isCurrentSpeaker playerId c2);
        reflexivity).
  assert (Hs : Conversation.currentSpeaker c3 <> Some playerId).
  { unfold c3. destruct (Conversation.isCurrentSpeaker playerId c2) eqn:Hcur.
    - discriminate.
    - intros H. apply isCurrentSpeaker_spec in H. congruence. }
  assert (Hst : Conversation.status c3 = Conversation.status c
                /\ Conversation.ended c3 = Conversation.ended c)
    by (unfold c3; destruct (Conversation.isCurrentSpeaker playerId c2);
        split; reflexivity).
  clearbody c3. clear c2.
  destruct (Nat.eqb_spec (length (Conversation.participants c3)) 0) as [H0 | H0];
    [| destruct (Nat.eqb_spec (length (Conversation.participants c3)) 1)
         as [H1 | H1]];
    simpl; rewrite Hp, ?Hi;
    (split; [intros H; apply without_In in H; tauto |]);
    (split; [intros H; apply without_In in H; tauto |]);
    (split; [exact Hs |]); (split; [reflexivity |]);
    rewrite <- Hp; split; intros Hlen; try lia; try (split; reflexivity).
  exact Hst.
Qed.

(** X4.  When a player invites another one and the invitee accepts, the
    conversation is active with the two of them as participants, nobody
    invited and the inactivity deadline 30 seconds after the acceptance, and
    each of the two may speak. *)
Theorem accepted_invitation_lets_both_speak :
  forall (id creator invitee : string) (created clock : Z),
    creator <> invitee ->
    exists c',
      Conversation.acceptInvite invitee clock
        (Conversation.create id creator [creator; invitee] created) = Ok c'
      /\ Conversation.status c' = Conversation.Active
      /\ Conversation.participants c' = [creator; invitee]
      /\ Conversation.invited c' = []
      /\ Conversation.inactivityTimeout c' = Some (clock + 30000)%Z
      /\ Conversation.canSpeak creator c' = true
      /\ Conversation.canSpeak invitee c' = true.
Proof.
  intros id creator invitee created clock Hne.
  unfold Conversation.acceptInvite, Conversation.create, Conversation.canSpeak,
    without, includes. simpl.
  rewrite (String.eqb_refl creator).
  destruct (String.eqb_spec invitee creator) as [-> | _]; [congruence |].
  simpl. repeat (rewrite (String.eqb_refl invitee); simpl).
  eexists. split; [reflexivity |]. simpl.
  rewrite (String.eqb_refl creator), (String.eqb_refl invitee), orb_true_r.
  repeat split; reflexivity.
Qed.

Lemma accepted_invitation_lets_both_speak_witness :
  exists c',
    Conversation.acceptInvite "1" 2100 invitation = Ok c'
    /\ Conversation.status c' = Conversation.Active
    /\ Conversation.participants c' = ["0"; "1"]
    /\ Conversation.invited c' = []
    /\ Conversation.inactivityTimeout c' = Some 32100%Z
    /\ Conversation.canSpeak "0" c' = true
    /\ Conversation.canSpeak "1" c' = true.
Proof.
  apply (accepted_invitation_lets_both_speak "2" "0" "1" 2000 2100).
  discriminate.
Defined.

(** X5.  When [needsAttention] answers false at a time, [tick] at that time
    leaves the conversation exactly as it is. *)
Theorem tick_idle_without_attention :
  forall (now : Z) (c : Conversation.t),
    Conversation.needsAttention now c = false ->
    Conversation.tick now c = c.
Proof.
  intros now c. unfold Conversation.needsAttention, Conversation.tick.
  destruct (Conversation.isActive (Conversation.status c)); simpl;
    [| reflexivity].
  destruct (Conversation.elapsed (Conversation.speakingUntil c) now);
    [discriminate |].
  unfold Conversation.elapsed.
  destruct (Conversation.inactivityTimeout c) as [d |]; [| reflexivity].
  simpl. destruct (negb (d =? 0)%Z); simpl; [| reflexivity].
  intros H. apply Z.ltb_ge in H.
  destruct (Z.ltb_spec d now); [lia | reflexivity].
Qed.

Lemma tick_idle_without_attention_witness :
  Conversation.needsAttention 2300 activeTalk = false
  /\ Conversation.tick 2300 activeTalk = activeTalk.
Proof.
  split; [reflexivity |].
  apply (tick_idle_without_attention 2300 activeTalk). reflexivity.
Defined.

(** *** Turn order *)

Lemma indexOf_In (l : list string) (s : string) :
  In s l ->
  exists i, Conversation.indexOf l s = Z.of_nat i
            /\ nth_error l i = Some s /\ (i < length l)%nat.
Proof.
  induction l as [| q l IH]; simpl; [tauto |].
  intros Hin. destruct (String.eqb_spec q s) as [-> | Hne].
  - exists 0%nat. repeat split. lia.
  - destruct Hin as [-> | Hin]; [congruence |].
    destruct (IH Hin) as (i & Hi & Hnth & Hlt).
    exists (S i). rewrite Hi.
    destruct (Z.ltb_spec (Z.of_nat i) 0); [lia |].
    repeat split; [lia | exact Hnth | lia].
Qed.

(** X6.  In a conversation with at least two participants, none listed twice,
    whose current speaker is one of them, [getNextSpeaker] names the
    participant that follows the current speaker in the list (the first one
    after the last), and that is somebody else. *)
Theorem getNextSpeaker_passes_the_turn :
  forall (c : Conversation.t) (s : string),
    NoDup (Conversation.participants c) ->
    (2 <= length (Conversation.participants c))%nat ->
    Conversation.currentSpeaker c = Some s ->
    s <> "" ->
    In s (Conversation.participants c) ->
    exists (i : nat) (q : string),
      nth_error (Conversation.participants c) i = Some s
      /\ Conversation.getNextSpeaker c = Some q
      /\ nth_error (Conversation.participants c)
           (S i mod length (Conversation.participants c)) = Some q
      /\ q <> s.
Proof.
  intros c s Hnd Hlen Hcur Hs Hin.
  unfold Conversation.getNextSpeaker. rewrite Hcur.
  apply truthyStr_Some in Hs. rewrite Hs.
  destruct (Nat.eqb_spec (length (Conversation.participants c)) 0)
    as [E0 | _]; [lia |].
  destruct (indexOf_In _ _ Hin) as (i & Hi & Hnth & Hlt).
  rewrite Hi.
  set (n := length (Conversation.participants c)) in *.
  assert (Hidx : Z.to_nat (Z.rem (Z.of_nat i + 1) (Z.of_nat n))
                 = (S i mod n)%nat).
  { rewrite Z.rem_mod_nonneg by lia.
    replace (Z.of_nat i + 1)%Z with (Z.of_nat (S i)) by lia.
    rewrite <- Nat2Z.inj_mod. apply Nat2Z.id. }
  rewrite Hidx.
  assert (Hlt' : (S i mod n < n)%nat) by (apply Nat.mod_upper_bound; lia).
  destruct (nth_error (Conversation.participants c) (S i mod n)) as [q |]
    eqn:Hq; [| apply nth_error_None in Hq; fold n in Hq; lia].
  exists i, q. repeat split; try assumption.
  intros ->.
  assert (Heq : (S i mod n)%nat = i).
  { apply (proj1 (NoDup_nth_error (Conversation.participants c)) Hnd);
      [exact Hlt' | congruence]. }
  destruct (Nat.eq_dec (S i) n) as [E | E].
  - rewrite E, Nat.Div0.mod_same in Heq. lia.
  - rewrite Nat.mod_small in Heq by lia. lia.
Qed.

Lemma getNextSpeaker_passes_the_turn_witness :
  exists (i : nat) (q : string),
    nth_error (Conversation.participants activeTalk) i = Some "0"
    /\ Conversation.getNextSpeaker activeTalk = Some q
    /\ nth_error (Conversation.participants activeTalk)
         (S i mod length (Conversation.participants activeTalk)) = Some q
    /\ q <> "0".
Proof.
  apply (getNextSpeaker_passes_the_turn activeTalk "0").
  - repeat constructor; simpl; intuition discriminate.
  - simpl. lia.
  - reflexivity.
  - discriminate.
  - simpl. tauto.
Defined.

(** X7.  After a message accepted at a time [clock >= 0], the author holds
    the floor for 10 seconds and the conversation lives for 60: a [tick] up
    to [clock + 10000] changes nothing; a [tick] after that and up to
    [clock + 60000] leaves the conversation active with no current speaker,
    so that every participant may speak; a [tick] after [clock + 60000] ends
    the conversation at the time of the tick. *)
Theorem floor_and_inactivity_deadlines :
  forall (messages messages' : list MessageRow)
         (author text messageUuid : string) (clock now : Z)
         (c c' : Conversation.t),
    (0 <= clock)%Z ->
    Conversation.addMessage messages author text messageUuid clock c
    = Ok (messages', c') ->
    ((now <= clock + 10000)%Z -> Conversation.tick now c' = c')
    /\ ((clock + 10000 < now <= clock + 60000)%Z ->
        Conversation.status (Conversation.tick now c') = Conversation.Active
        /\ Conversation.currentSpeaker (Conversation.tick now c') = None
        /\ forall p, In p (Conversation.participants c') ->
                     Conversation.canSpeak p (Conversation.tick now c') = true)
    /\ ((clock + 60000 < now)%Z ->
        Conversation.status (Conversation.tick now c') = Conversation.Ended
        /\ Conversation.ended (Conversation.tick now c') = Some now).
Proof.
  intros messages messages' author text messageUuid clock now c c' Hclock.
  unfold Conversation.addMessage.
  destruct (includes (Conversation.participants c) author); simpl;
    [| discriminate].
  destruct (Conversation.isActive (Conversation.status c)) eqn:Hact; simpl;
    [| discriminate].
  destruct (Conversation.otherSpeaks author c); [discriminate |].
  intros [= _ <-].
  unfold Conversation.tick, Conversation.elapsed, Conversation.canSpeak.
  simpl. rewrite Hact. simpl.
  destruct (Z.eqb_spec (clock + 10000) 0); [lia |].
  destruct (Z.eqb_spec (clock + 60000) 0); [lia |].
  simpl.
  split; [| split].
  - intros Hnow.
    destruct (Z.ltb_spec (clock + 10000) now); [lia |]. simpl.
    destruct (Z.eqb_spec (clock + 60000) 0); [lia |]. simpl.
    destruct (Z.ltb_spec (clock + 60000) now); [lia | reflexivity].
  - intros Hnow.
    destruct (Z.ltb_spec (clock + 10000) now); [| lia]. simpl.
    destruct (Z.eqb_spec (clock + 60000) 0); [lia |]. simpl.
    destruct (Z.ltb_spec (clock + 60000) now); [lia |]. simpl.
    rewrite Hact. repeat split.
    + apply isActive_spec. exact Hact.
    + intros p Hp. apply includes_In in Hp. rewrite Hp. reflexivity.
  - intros Hnow.
    destruct (Z.ltb_spec (clock + 10000) now); [| lia]. simpl.
    destruct (Z.eqb_spec (clock + 60000) 0); [lia |]. simpl.
    destruct (Z.ltb_spec (clock + 60000) now); [| lia]. simpl.
    split; reflexivity.
Qed.

Lemma floor_and_inactivity_deadlines_witness :
  (Conversation.tick 12000 activeTalk = activeTalk)
  /\ (Conversation.status (Conversation.tick 20000 activeTalk)
      = Conversation.Active
      /\ Conversation.currentSpeaker (Conversation.tick 20000 activeTalk)
         = None)
  /\ (Conversation.status (Conversation.tick 70000 activeTalk)
      = Conversation.Ended
      /\ Conversation.ended (Conversation.tick 70000 activeTalk)
         = Some 70000%Z).
Proof.
  assert (Hadd : exists c,
            Conversation.acceptInvite "1" 2100 invitation = Ok c
            /\ Conversation.addMessage [] "0" "hi" "u1" 2200 c
               = Ok ([{| row_conversationId := "2"; row_messageUuid := "u1";
                         row_author := "0"; row_text := "hi" |}], activeTalk))
    by (eexists; split; reflexivity).
  destruct Hadd as (c & _ & Hadd).
  split; [| split].
  - apply (floor_and_inactivity_deadlines _ _ _ _ _ 2200 12000 _ _
             ltac:(lia) Hadd). lia.
  - split;
      apply (floor_and_inactivity_deadlines _ _ _ _ _ 2200 20000 _ _
               ltac:(lia) Hadd); lia.
  - apply (floor_and_inactivity_deadlines _ _ _ _ _ 2200 70000 _ _
             ltac:(lia) Hadd). lia.
Defined.

(** ** The world: identifiers *)

Lemma to_int_not_nil (z : Z) :
  Z.to_int z <> Decimal.Pos Decimal.Nil
  /\ Z.to_int z <> Decimal.Neg Decimal.Nil.
Proof.
  destruct z as [| p | p]; simpl; split; try discriminate;
    intros [= H]; revert H; apply Unsigned.to_uint_nonnil.
Qed.

Lemma int_of_toString (z : Z) :
  NilZero.int_of_string (toString z) = Some (Z.to_int z).
Proof.
  unfold toString. apply NilZero.isi; apply to_int_not_nil.
Qed.

Lemma toString_inj (a b : Z) : toString a = toString b -> a = b.
Proof.
  intros H. apply to_int_inj.
  pose proof (int_of_toString a) as Ha. rewrite H, int_of_toString in Ha.
  now injection Ha.
Qed.

Lemma toString_nonempty (z : Z) : toString z <> "".
Proof.
  intros H. pose proof (int_of_toString z) as Hz. rewrite H in Hz.
  discriminate.
Qed.

Lemma NoDup_map_inj {A B : Type} (f : A -> B) (l : list A) :
  (forall a b, f a = f b -> a = b) -> NoDup l -> NoDup (map f l).
Proof.
  intros Hinj. induction 1 as [| a l Hn Hnd IH]; simpl; constructor;
    [| assumption].
  intros Hin. apply in_map_iff in Hin. destruct Hin as (b & Hb & Hin).
  apply Hinj in Hb. now subst.
Qed.

Lemma allocIds_spec (n : nat) :
  forall w : World.t,
    (World.nextId w + Z.of_nat n <= 2 ^ 53)%Z ->
    allocIds n w
    = (map (fun k => toString (World.nextId w + Z.of_nat k)) (seq 0 n),
       World.set_nextId (World.nextId w + Z.of_nat n) w).
Proof.
  induction n as [| n IH]; intros w Hmax.
  - simpl. rewrite Z.add_0_r. now destruct w.
  - simpl allocIds. unfold World.allocId, World.increment.
    assert (Hlt : (World.nextId w <? 2 ^ 53)%Z = true)
      by (apply Z.ltb_lt; lia).
    rewrite Hlt, IH by (simpl World.nextId; lia). simpl map.
    rewrite Z.add_0_r, <- seq_shift, map_map. f_equal.
    + f_equal. apply map_ext. intros k. simpl World.nextId. f_equal. lia.
    + unfold World.set_nextId. simpl. f_equal. lia.
Qed.

(** X8.  As long as the counter stays between 0 and 2^53, where the
    increment is exact, any number of [allocId] calls in a row return
    pairwise different ids, none of them the empty string, and move the
    counter forward by the number of calls, leaving the rest of the world
    alone. *)
Theorem allocId_never_repeats :
  forall (n : nat) (w : World.t),
    (0 <= World.nextId w)%Z ->
    (World.nextId w + Z.of_nat n <= 2 ^ 53)%Z ->
    NoDup (fst (allocIds n w))
    /\ Forall (fun id => id <> "") (fst (allocIds n w))
    /\ length (fst (allocIds n w)) = n
    /\ snd (allocIds n w)
       = World.set_nextId (World.nextId w + Z.of_nat n) w.
Proof.
  intros n w _ Hmax. rewrite allocIds_spec by exact Hmax.
  simpl. repeat split.
  - apply NoDup_map_inj; [| apply seq_NoDup].
    intros a b H. apply toString_inj in H. lia.
  - apply Forall_forall. intros id Hin. apply in_map_iff in Hin.
    destruct Hin as (k & <- & _). apply toString_nonempty.
  - now rewrite length_map, length_seq.
Qed.

Lemma allocId_never_repeats_witness :
  fst (allocIds 3 (World.new 9 0)) = ["9"; "10"; "11"]
  /\ NoDup (fst (allocIds 3 (World.new 9 0)))
  /\ snd (allocIds 3 (World.new 9 0)) = World.new 12 0.
Proof.
  split; [reflexivity |].
  destruct (allocId_never_repeats 3 (World.new 9 0)) as (Hnd & _ & _ & Hw);
    [simpl; lia | simpl; lia |].
  split; [exact Hnd | exact Hw].
Defined.

(** At 2^53 the counter no longer moves, and [allocId] returns the same id
    again. *)
Example allocId_repeats_at_the_bound :
  fst (allocIds 2 (World.new (2 ^ 53) 0))
  = ["9007199254740992"; "9007199254740992"].
Proof. reflexivity. Qed.

(** ** The world: maps with unique keys *)

Module JSMapKeys.
Section Facts.
Context {V : Type}.
Implicit Types (m : JSMap.t V) (k : string) (v : V).

Lemma get_None m k : JSMap.get k m = None <-> ~ In k (JSMap.keys m).
Proof.
  induction m as [| [k0 v0] m IH]; simpl; [tauto |].
  destruct (String.eqb_spec k0 k) as [-> | Hne].
  - split; [discriminate | tauto].
  - rewrite IH. tauto.
Qed.

Lemma set_absent m k v :
  ~ In k (JSMap.keys m) -> JSMap.set k v m = m ++ [(k, v)].
Proof.
  induction m as [| [k0 v0] m IH]; simpl; [reflexivity |].
  intros Hk. destruct (String.eqb_spec k0 k) as [-> | Hne]; [tauto |].
  rewrite IH by tauto. reflexivity.
Qed.

Lemma In_keys_set m k k' v :
  In k' (JSMap.keys (JSMap.set k v m)) <-> k' = k \/ In k' (JSMap.keys m).
Proof.
  induction m as [| [k0 v0] m IH]; simpl; [intuition congruence |].
  destruct (String.eqb_spec k0 k) as [-> | Hne]; simpl.
  - intuition congruence.
  - rewrite IH. intuition congruence.
Qed.

Lemma NoDup_keys_set m k v :
  NoDup (JSMap.keys m) -> NoDup (JSMap.keys (JSMap.set k v m)).
Proof.
  induction m as [| [k0 v0] m IH]; simpl; intros Hnd.
  - repeat constructor. simpl. tauto.
  - inversion Hnd as [| ? ? Hn Hnd']; subst.
    destruct (String.eqb_spec k0 k) as [-> | Hne]; simpl.
    + constructor; assumption.
    + constructor; [| now apply IH].
      rewrite In_keys_set. intuition congruence.
Qed.

Lemma In_keys_delete m k k' :
  In k' (JSMap.keys (JSMap.delete k m)) -> In k' (JSMap.keys m).
Proof.
  induction m as [| [k0 v0] m IH]; simpl; [tauto |].
  destruct (k0 =? k); simpl; tauto.
Qed.

Lemma NoDup_keys_delete m k :
  NoDup (JSMap.keys m) -> NoDup (JSMap.keys (JSMap.delete k m)).
Proof.
  induction m as [| [k0 v0] m IH]; simpl; intros Hnd; [constructor |].
  inversion Hnd as [| ? ? Hn Hnd']; subst.
  destruct (k0 =? k); simpl; [assumption |].
  constructor; [| now apply IH].
  intros H. apply Hn. eapply In_keys_delete; eassumption.
Qed.

Lemma get_delete_same m k :
  NoDup (JSMap.keys m) -> JSMap.get k (JSMap.delete k m) = None.
Proof.
  induction m as [| [k0 v0] m IH]; simpl; intros Hnd; [reflexivity |].
  inversion Hnd as [| ? ? Hn Hnd']; subst.
  destruct (String.eqb_spec k0 k) as [-> | Hne]; simpl.
  - now apply get_None.
  - destruct (String.eqb_spec k0 k); [congruence | now apply IH].
Qed.
End Facts.
End JSMapKeys.

(** ** The world: ending a conversation *)

Lemma upsert_In {A : Type} (key : A -> string) (a : A) (table : list A) :
  In a (upsert key a table).
Proof.
  induction table as [| b table IH]; simpl; [tauto |].
  destruct (key b =? key a); simpl; tauto.
Qed.

(** An entity whose [conversationId] is cleared stays cleared while other
    ids are cleared. *)
Lemma clearParticipants_frees (l : list string) (id : string) :
  forall (w : World.t) (e : Entity),
    World.find id w = Some e ->
    In id l \/ entityConversationId e = None ->
    exists e',
      World.find id
        (fold_left (fun w p => World.assignConversationId p None w) l w)
      = Some e'
      /\ entityConversationId e' = None.
Proof.
  induction l as [| p l IH]; intros w e Hfind Hor; simpl.
  - destruct Hor as [[] | Hnone]. eauto.
  - destruct (String.eqb_spec p id) as [-> | Hne].
    + destruct (find_assign_same id None w e Hfind) as (e1 & H1 & Hn1).
      apply (IH _ e1 H1). now right.
    + apply (IH _ e).
      * rewrite find_assign_other by congruence. exact Hfind.
      * destruct Hor as [[Heq | Hin] | Hnone]; [congruence | now left |
                                                 now right].
Qed.

Lemma clearParticipants_keeps (l : list string) (id : string) :
  forall (w : World.t),
    ~ In id l ->
    World.find id
      (fold_left (fun w p => World.assignConversationId p None w) l w)
    = World.find id w.
Proof.
  induction l as [| p l IH]; intros w Hnot; simpl; [reflexivity |].
  simpl in Hnot. rewrite IH by tauto.
  apply find_assign_other. intros ->. tauto.
Qed.

(** X9.  [endConversation] on a conversation of the map archives it with
    status [ended] and the time of the call, and takes it out of the map.
    Every participant that the world holds ends up with no [conversationId].
    Every other entity is left exactly as it was: in particular an invited
    entity that never accepted keeps the [conversationId] that
    [startConversation] gave it. *)
Theorem endConversation_frees_participants_only :
  forall (cid : string) (clock : Z) (db : Db) (w : World.t)
         (c : Conversation.t),
    JSMap.get cid (World.conversations w) = Some c ->
    NoDup (JSMap.keys (World.conversations w)) ->
    let db' := fst (World.endConversation cid clock db w) in
    let w' := snd (World.endConversation cid clock db w) in
    JSMap.get cid (World.conversations w') = None
    /\ In (Conversation.set_ended (Some clock)
             (Conversation.set_status Conversation.Ended c))
          (archivedConversations db')
    /\ (forall id e,
          In id (Conversation.participants c) ->
          World.find id w = Some e ->
          exists e', World.find id w' = Some e'
                     /\ entityConversationId e' = None)
    /\ (forall id,
          ~ In id (Conversation.participants c) ->
          World.find id w' = World.find id w).
Proof.
  intros cid clock db w c Hget Hnd db' w'. subst db' w'.
  rewrite endConversation_conversations, Hget.
  unfold World.endConversation. rewrite Hget. simpl.
  split; [now apply JSMapKeys.get_delete_same |].
  split; [apply upsert_In |].
  split.
  - intros id e Hin Hfind.
    destruct (clearParticipants_frees (Conversation.participants c) id w e
                Hfind (or_introl Hin)) as (e' & He' & Hnone).
    exists e'. split; [exact He' | exact Hnone].
  - intros id Hnot.
    exact (clearParticipants_keeps (Conversation.participants c) id w Hnot).
Qed.

Lemma endConversation_frees_participants_only_witness :
  JSMap.get "2" (World.conversations
                   (snd (World.endConversation "2" 3000 emptyDb invitedWorld)))
  = None
  /\ (exists e',
        World.find "0" (snd (World.endConversation "2" 3000 emptyDb
                               invitedWorld)) = Some e'
        /\ entityConversationId e' = None)
  /\ World.find "1" (snd (World.endConversation "2" 3000 emptyDb invitedWorld))
     = World.find "1" invitedWorld.
Proof.
  assert (Hget : JSMap.get "2" (World.conversations invitedWorld)
                 = Some invitation) by reflexivity.
  assert (Hnd : NoDup (JSMap.keys (World.conversations invitedWorld)))
    by (repeat constructor; simpl; tauto).
  pose proof (endConversation_frees_participants_only "2" 3000 emptyDb
                invitedWorld invitation Hget Hnd) as (H1 & _ & H3 & H4).
  split; [exact H1 |]. split.
  - apply (H3 "0" (IsPlayer (Player.set_conversationId (Some "2")
                               (Player.create "0" "Ada" "f1" 1000)))).
    + simpl. tauto.
    + reflexivity.
  - apply H4. simpl. intuition discriminate.
Defined.

(** ** The world: removing a player *)

(** X10.  [removePlayer] on a player of the map takes the player out of the
    map and archives the player as it was; the other players and all agents
    are untouched.  When the player's [conversationId] names a conversation
    of the map, that conversation is replaced by the result of the player's
    [leave]; the other conversations are untouched. *)
Theorem removePlayer_removes_and_archives :
  forall (playerId : string) (clock : Z) (db : Db) (w : World.t)
         (p : Player.t),
    JSMap.get playerId (World.players w) = Some p ->
    NoDup (JSMap.keys (World.players w)) ->
    let db' := fst (World.removePlayer playerId clock db w) in
    let w' := snd (World.removePlayer playerId clock db w) in
    JSMap.get playerId (World.players w') = None
    /\ (forall q, q <> playerId ->
                  JSMap.get q (World.players w') = JSMap.get q (World.players w))
    /\ World.agents w' = World.agents w
    /\ In p (archivedPlayers db')
    /\ (forall cid c,
          Player.conversationId p = Some cid -> cid <> "" ->
          JSMap.get cid (World.conversations w) = Some c ->
          JSMap.get cid (World.conversations w')
          = Some (Conversation.leave playerId clock c))
    /\ (forall k,
          Player.conversationId p <> Some k ->
          JSMap.get k (World.conversations w')
          = JSMap.get k (World.conversations w)).
Proof.
  intros playerId clock db w p Hget Hnd db' w'. subst db' w'.
  unfold World.removePlayer. rewrite Hget.
  set (w1 := match Player.conversationId p with
             | Some cid => _
             | None => w
             end).
  assert (Hp1 : World.players w1 = World.players w).
  { unfold w1. destruct (Player.conversationId p) as [cid |]; [| reflexivity].
    destruct (truthyStr (Some cid)); [| reflexivity].
    destruct (JSMap.get cid (World.conversations w)); reflexivity. }
  assert (Ha1 : World.agents w1 = World.agents w).
  { unfold w1. destruct (Player.conversationId p) as [cid |]; [| reflexivity].
    destruct (truthyStr (Some cid)); [| reflexivity].
    destruct (JSMap.get cid (World.conversations w)); reflexivity. }
  simpl. rewrite Hp1.
  split; [now apply JSMapKeys.get_delete_same |].
  split; [intros q Hq; now apply JSMapFacts.get_delete_other |].
  split; [exact Ha1 |].
  split; [apply upsert_In |].
  split.
  - intros cid c Hcid Hne Hc. unfold w1. rewrite Hcid.
    apply truthyStr_Some in Hne. rewrite Hne, Hc. simpl.
    apply JSMapFacts.get_set_same.
  - intros k Hk. unfold w1.
    destruct (Player.conversationId p) as [cid |]; [| reflexivity].
    destruct (truthyStr (Some cid)); [| reflexivity].
    destruct (JSMap.get cid (World.conversations w)); [| reflexivity].
    simpl. apply JSMapFacts.get_set_other. congruence.
Qed.

Lemma removePlayer_removes_and_archives_witness :
  JSMap.get "1" (World.players
                   (snd (World.removePlayer "1" 3000 emptyDb invitedWorld)))
  = None
  /\ JSMap.get "2" (World.conversations
                      (snd (World.removePlayer "1" 3000 emptyDb invitedWorld)))
     = Some (Conversation.leave "1" 3000 invitation).
Proof.
  assert (Hget : JSMap.get "1" (World.players invitedWorld)
                 = Some (Player.set_conversationId (Some "2")
                           (Player.create "1" "Bob" "f2" 1000)))
    by reflexivity.
  assert (Hnd : NoDup (JSMap.keys (World.players invitedWorld)))
    by (repeat constructor; simpl; intuition discriminate).
  pose proof (removePlayer_removes_and_archives "1" 3000 emptyDb invitedWorld
                _ Hget Hnd) as (H1 & _ & _ & _ & H5 & _).
  split; [exact H1 |].
  apply (H5 "2" invitation); [reflexivity | discriminate | reflexivity].
Defined.

(** ** The world: saving and loading *)

Lemma upsert_absent {A : Type} (key : A -> string) (a : A) (table : list A) :
  ~ In (key a) (map key table) -> upsert key a table = table ++ [a].
Proof.
  induction table as [| b table IH]; simpl; [reflexivity |].
  intros Hnot. destruct (String.eqb_spec (key b) (key a)); [tauto |].
  rewrite IH by tauto. reflexivity.
Qed.

Lemma fold_upsert {A : Type} (key : A -> string) (vs : list A) :
  forall table : list A,
    NoDup (map key (table ++ vs)) ->
    fold_left (fun t a => upsert key a t) vs table = table ++ vs.
Proof.
  induction vs as [| a vs IH]; intros table Hnd; simpl.
  - now rewrite app_nil_r.
  - rewrite upsert_absent.
    + rewrite IH; rewrite <- app_assoc; [reflexivity | exact Hnd].
    + rewrite map_app in Hnd. simpl in Hnd.
      apply NoDup_remove_2 in Hnd. intros Hin. apply Hnd.
      apply in_or_app. now left.
Qed.

Lemma fold_set {V : Type} (key : V -> string) (vs : list V) :
  forall m : JSMap.t V,
    NoDup (JSMap.keys m ++ map key vs) ->
    fold_left (fun m a => JSMap.set (key a) a m) vs m
    = m ++ map (fun a => (key a, a)) vs.
Proof.
  induction vs as [| a vs IH]; intros m Hnd; simpl.
  - now rewrite app_nil_r.
  - rewrite JSMapKeys.set_absent.
    + rewrite IH; [now rewrite <- app_assoc |].
      unfold JSMap.keys in *. rewrite map_app. simpl.
      rewrite <- app_assoc. exact Hnd.
    + apply NoDup_remove_2 in Hnd. intros Hin. apply Hnd.
      apply in_or_app. now left.
Qed.

Lemma keyedBy_values {V : Type} (key : V -> string) (m : JSMap.t V) :
  keyedBy key m ->
  map key (JSMap.values m) = JSMap.keys m
  /\ map (fun a => (key a, a)) (JSMap.values m) = m.
Proof.
  intros [Hk _]. unfold JSMap.values, JSMap.keys. rewrite !map_map.
  induction Hk as [| [k v] m Hkv Hm IH]; simpl; [split; reflexivity |].
  simpl in Hkv. destruct IH as [IH1 IH2]. rewrite IH1, IH2, Hkv.
  split; reflexivity.
Qed.

Lemma save_players (vs : list Player.t) :
  forall db : Db,
    fold_left
      (fun db p => set_archivedPlayers (Player.save (archivedPlayers db) p) db)
      vs db
    = set_archivedPlayers
        (fold_left (fun t a => upsert Player.id a t) vs (archivedPlayers db))
        db.
Proof.
  induction vs as [| a vs IH]; intros db; simpl.
  - now destruct db.
  - rewrite IH. reflexivity.
Qed.

Lemma save_agents (vs : list Agent.t) :
  forall db : Db,
    fold_left
      (fun db a => set_archivedAgents (Agent.save (archivedAgents db) a) db)
      vs db
    = set_archivedAgents
        (fold_left (fun t a => upsert Agent.id a t) vs (archivedAgents db))
        db.
Proof.
  induction vs as [| a vs IH]; intros db; simpl.
  - now destruct db.
  - rewrite IH. reflexivity.
Qed.

Lemma save_conversations (vs : list Conversation.t) :
  forall db : Db,
    fold_left
      (fun db c =>
         set_archivedConversations
           (Conversation.save (archivedConversations db) c) db)
      vs db
    = set_archivedConversations
        (fold_left (fun t a => upsert Conversation.id a t) vs
           (archivedConversations db))
        db.
Proof.
  induction vs as [| a vs IH]; intros db; simpl.
  - now destruct db.
  - rewrite IH. reflexivity.
Qed.

Lemma load_players (vs : list Player.t) :
  forall w : World.t,
    fold_left
      (fun w p =>
         World.set_players (JSMap.set (Player.id p) p (World.players w)) w)
      vs w
    = World.set_players
        (fold_left (fun m a => JSMap.set (Player.id a) a m) vs
           (World.players w))
        w.
Proof.
  induction vs as [| a vs IH]; intros w; simpl.
  - now destruct w.
  - rewrite IH. reflexivity.
Qed.

Lemma load_agents (vs : list Agent.t) :
  forall w : World.t,
    fold_left
      (fun w a =>
         World.set_agents (JSMap.set (Agent.id a) a (World.agents w)) w)
      vs w
    = World.set_agents
        (fold_left (fun m a => JSMap.set (Agent.id a) a m) vs (World.agents w))
        w.
Proof.
  induction vs as [| a vs IH]; intros w; simpl.
  - now destruct w.
  - rewrite IH. reflexivity.
Qed.

Lemma load_conversations (vs : list Conversation.t) :
  forall w : World.t,
    fold_left
      (fun w c =>
         World.set_conversations
           (JSMap.set (Conversation.id c) c (World.conversations w)) w)
      vs w
    = World.set_conversations
        (fold_left (fun m a => JSMap.set (Conversation.id a) a m) vs
           (World.conversations w))
        w.
Proof.
  induction vs as [| a vs IH]; intros w; simpl.
  - now destruct w.
  - rewrite IH. reflexivity.
Qed.

Section ByWorldId.
Context {A : Type} (key : A -> string).

Let idLe (a b : A) : Prop := String.leb (key a) (key b) = true.

Lemma insertById_Permutation (a : A) (rows : list A) :
  Permutation (insertById key a rows) (a :: rows).
Proof.
  induction rows as [| b rows IH]; simpl; [reflexivity |].
  destruct (String.leb (key a) (key b)); [reflexivity |].
  rewrite IH. apply perm_swap.
Qed.

Lemma byWorldId_Permutation (rows : list A) :
  Permutation (byWorldId key rows) rows.
Proof.
  induction rows as [| a rows IH]; simpl; [reflexivity |].
  rewrite insertById_Permutation. now constructor.
Qed.

Lemma insertById_sorted (a : A) (rows : list A) :
  Sorted idLe rows -> Sorted idLe (insertById key a rows).
Proof.
  induction 1 as [| b rows Hs IH Hb]; simpl.
  - repeat constructor.
  - destruct (String.leb (key a) (key b)) eqn:Hab.
    + constructor; [now constructor |]. constructor. exact Hab.
    + constructor; [exact IH |].
      assert (Hba : idLe b a).
      { destruct (String.leb_total (key a) (key b)) as [H | H];
          [congruence | exact H]. }
      destruct rows as [| c rows]; simpl; [now constructor |].
      destruct (String.leb (key a) (key c)); constructor;
        [exact Hba | now inversion Hb].
Qed.

Lemma byWorldId_sorted (rows : list A) : Sorted idLe (byWorldId key rows).
Proof.
  induction rows as [| a rows IH]; simpl;
    [constructor | now apply insertById_sorted].
Qed.

Lemma byWorldId_keys_sorted (rows : list A) :
  Sorted (fun a b => String.leb a b = true) (map key (byWorldId key rows)).
Proof.
  induction (byWorldId_sorted rows) as [| a l Hs IH Hhd]; simpl;
    constructor; [exact IH |].
  destruct Hhd; simpl; constructor. assumption.
Qed.
End ByWorldId.

(** In a map without a repeated key, the entries decide what [get]
    returns. *)
Lemma In_get {V : Type} (m : JSMap.t V) (k : string) (v : V) :
  NoDup (JSMap.keys m) -> In (k, v) m -> JSMap.get k m = Some v.
Proof.
  induction m as [| [k' v'] m IH]; simpl; [contradiction |].
  intros Hnd Hin. inversion Hnd as [| ? ? Hnotin Hnd']; subst.
  destruct Hin as [[= -> ->] | Hin].
  - now rewrite String.eqb_refl.
  - destruct (String.eqb_spec k' k) as [-> | _]; [| now apply IH].
    exfalso. apply Hnotin. unfold JSMap.keys.
    apply in_map_iff. now exists (k, v).
Qed.

Lemma get_Permutation {V : Type} (m m' : JSMap.t V) (k : string) :
  NoDup (JSMap.keys m) -> Permutation m' m -> JSMap.get k m' = JSMap.get k m.
Proof.
  intros Hnd Hperm.
  assert (Hnd' : NoDup (JSMap.keys m')).
  { unfold JSMap.keys in *.
    apply (Permutation_NoDup (Permutation_map fst (Permutation_sym Hperm))).
    exact Hnd. }
  destruct (JSMap.get k m) as [v |] eqn:Hg.
  - apply In_get; [exact Hnd' |].
    apply (Permutation_in _ (Permutation_sym Hperm)).
    now apply JSMapFacts.get_In.
  - apply JSMapKeys.get_None. apply JSMapKeys.get_None in Hg.
    intros Hin. apply Hg. unfold JSMap.keys in *.
    now apply (Permutation_in _ (Permutation_map fst Hperm)).
Qed.

(** What [load] makes of the rows that [save] wrote for a map: the entries
    of the map, in the order of their ids. *)
Lemma save_load_map {V : Type} (key : V -> string) (m : JSMap.t V) :
  keyedBy key m ->
  let m' := fold_left (fun m a => JSMap.set (key a) a m)
              (byWorldId key
                 (fold_left (fun t a => upsert key a t) (JSMap.values m) []))
              [] in
  Permutation m' m
  /\ (forall k, JSMap.get k m' = JSMap.get k m)
  /\ Sorted (fun a b => String.leb a b = true) (JSMap.keys m').
Proof.
  intros Hk m'. destruct (keyedBy_values _ _ Hk) as [Hv1 Hv2].
  destruct Hk as [_ Hnd].
  assert (Hrows : fold_left (fun t a => upsert key a t) (JSMap.values m) []
                  = JSMap.values m).
  { rewrite fold_upsert; [reflexivity |]. simpl. now rewrite Hv1. }
  assert (Hperm : Permutation (byWorldId key (JSMap.values m))
                    (JSMap.values m))
    by apply byWorldId_Permutation.
  assert (Hm' : m' = map (fun a => (key a, a))
                       (byWorldId key (JSMap.values m))).
  { unfold m'. rewrite Hrows, fold_set; [reflexivity |]. simpl.
    apply (Permutation_NoDup
             (Permutation_map key (Permutation_sym Hperm))).
    now rewrite Hv1. }
  assert (Hpm : Permutation m' m).
  { rewrite Hm', <- Hv2 at 1.
    rewrite Hv2. rewrite <- Hv2 at 2. now apply Permutation_map. }
  split; [exact Hpm |]. split.
  - intros k. now apply get_Permutation.
  - rewrite Hm'. unfold JSMap.keys. rewrite map_map. simpl.
    apply byWorldId_keys_sorted.
Qed.

(** X11.  [save] into empty tables followed by [load] into a new world with
    the same counter gives the players, agents and conversations of the
    world back, each under its key, provided every entry sits under its own
    id and no key occurs twice.  The maps of the loaded world hold their
    entries in the order of the id strings, in which the index hands the
    rows out, and not in the order that the maps of the saved world had. *)
Theorem save_load_round_trip :
  forall w : World.t,
    keyedBy Player.id (World.players w) ->
    keyedBy Agent.id (World.agents w) ->
    keyedBy Conversation.id (World.conversations w) ->
    let w' := World.load (World.save emptyDb w)
                (World.new (World.nextId w) (World.lastViewed w)) in
    World.nextId w' = World.nextId w
    /\ World.lastViewed w' = World.lastViewed w
    /\ (forall k, JSMap.get k (World.players w')
                  = JSMap.get k (World.players w))
    /\ (forall k, JSMap.get k (World.agents w') = JSMap.get k (World.agents w))
    /\ (forall k, JSMap.get k (World.conversations w')
                  = JSMap.get k (World.conversations w))
    /\ Permutation (World.players w') (World.players w)
    /\ Permutation (World.agents w') (World.agents w)
    /\ Permutation (World.conversations w') (World.conversations w)
    /\ Sorted (fun a b => String.leb a b = true)
         (JSMap.keys (World.players w'))
    /\ Sorted (fun a b => String.leb a b = true)
         (JSMap.keys (World.agents w'))
    /\ Sorted (fun a b => String.leb a b = true)
         (JSMap.keys (World.conversations w')).
Proof.
  intros w Hp Ha Hc.
  destruct (save_load_map _ _ Hp) as (Hp1 & Hp2 & Hp3).
  destruct (save_load_map _ _ Ha) as (Ha1 & Ha2 & Ha3).
  destruct (save_load_map _ _ Hc) as (Hc1 & Hc2 & Hc3).
  unfold World.save, World.load.
  rewrite save_players, save_agents, save_conversations. simpl.
  rewrite load_players, load_agents, load_conversations. simpl.
  repeat split; assumption.
Qed.

Lemma save_load_round_trip_witness :
  let w' := World.load (World.save emptyDb invitedWorld)
              (World.new (World.nextId invitedWorld)
                 (World.lastViewed invitedWorld)) in
  World.nextId w' = 3%Z
  /\ (forall k, JSMap.get k (World.players w')
                = JSMap.get k (World.players invitedWorld))
  /\ (forall k, JSMap.get k (World.conversations w')
                = JSMap.get k (World.conversations invitedWorld))
  /\ Permutation (World.players w') (World.players invitedWorld).
Proof.
  assert (Hp : keyedBy Player.id (World.players invitedWorld)).
  { split; [repeat constructor |].
    repeat constructor; simpl; intuition discriminate. }
  assert (Ha : keyedBy Agent.id (World.agents invitedWorld))
    by (split; constructor).
  assert (Hc : keyedBy Conversation.id (World.conversations invitedWorld)).
  { split; [repeat constructor |].
    repeat constructor; simpl; intuition discriminate. }
  destruct (save_load_round_trip invitedWorld Hp Ha Hc)
    as (Hn & _ & Hgp & _ & Hgc & Hpp & _).
  intros w'. split; [exact Hn |]. split; [exact Hgp |].
  split; [exact Hgc | exact Hpp].
Defined.

(** A world whose players joined in the order ["9"], ["10"] comes back from
    the tables with ["10"] before ["9"]. *)
Example load_orders_by_id_string :
  let '(_, _, w) :=
    World.addPlayer "Bob" "f2" "second" 1000 emptyDb
      (snd (World.addPlayer "Ada" "f1" "first" 1000 emptyDb (World.new 9 0)))
  in
  JSMap.keys (World.players w) = ["9"; "10"]
  /\ JSMap.keys
       (World.players
          (World.load (World.save emptyDb w)
             (World.new (World.nextId w) (World.lastViewed w))))
     = ["10"; "9"].
Proof. split; reflexivity. Qed.

(** ** The world: one conversation at a time *)

Lemma startConversation_parties (a b : string) (clock : Z) (w w' : World.t)
    (c : Conversation.t) :
  World.startConversation a b clock w = Ok (c, w') ->
  forall x, x = a \/ x = b ->
    exists e, World.find x w' = Some e
              /\ truthyStr (entityConversationId e) = true.
Proof.
  unfold World.startConversation.
  destruct (World.find a w) as [ea |] eqn:Hfa; [| discriminate].
  destruct (World.find b w) as [eb |] eqn:Hfb; [| discriminate].
  destruct (truthyStr (entityConversationId ea)
            || truthyStr (entityConversationId eb)); [discriminate |].
  simpl.
  set (cid := toString (World.nextId w)).
  set (w2 := World.set_conversations _ _).
  intros [= _ <-].
  assert (Ha2 : World.find a w2 = Some ea) by exact Hfa.
  assert (Hb2 : World.find b w2 = Some eb) by exact Hfb.
  assert (Hcid : truthyStr (Some cid) = true)
    by (apply truthyStr_Some, toString_nonempty).
  destruct (find_assign_same a (Some cid) w2 ea Ha2) as (ea3 & Ha3 & Hca3).
  set (w3 := World.assignConversationId a (Some cid) w2) in *.
  assert (Hb3 : exists eb3, World.find b w3 = Some eb3).
  { destruct (String.eqb_spec b a) as [-> | Hne]; [eauto |].
    exists eb. unfold w3. now rewrite find_assign_other. }
  destruct Hb3 as (eb3 & Hb3).
  destruct (find_assign_same b (Some cid) w3 eb3 Hb3) as (eb4 & Hb4 & Hcb4).
  intros x [-> | ->].
  - destruct (String.eqb_spec a b) as [-> | Hne].
    + exists eb4. split; [exact Hb4 | now rewrite Hcb4].
    + exists ea3. rewrite find_assign_other by assumption.
      split; [exact Ha3 | now rewrite Hca3].
  - exists eb4. split; [exact Hb4 | now rewrite Hcb4].
Qed.

(** X12.  Once [startConversation] has succeeded, a further
    [startConversation] that names its creator or its invitee, on either
    side, throws: an entity takes part in one conversation at a time. *)
Theorem startConversation_parties_are_busy :
  forall (a b : string) (clock : Z) (w w' : World.t) (c : Conversation.t),
    World.startConversation a b clock w = Ok (c, w') ->
    forall (x y : string) (clock' : Z),
      x = a \/ x = b \/ y = a \/ y = b ->
      exists message, World.startConversation x y clock' w' = Throw message.
Proof.
  intros a b clock w w' c Hstart x y clock' Hxy.
  pose proof (startConversation_parties a b clock w w' c Hstart) as Hbusy.
  unfold World.startConversation.
  destruct (World.find x w') as [ex |] eqn:Hx;
    [| destruct (World.find y w'); eauto].
  destruct (World.find y w') as [ey |] eqn:Hy; [| eauto].
  assert (Hor : truthyStr (entityConversationId ex) = true
                \/ truthyStr (entityConversationId ey) = true).
  { destruct Hxy as [E | [E | [E | E]]].
    - destruct (Hbusy x (or_introl E)) as (e & He & Ht). left. congruence.
    - destruct (Hbusy x (or_intror E)) as (e & He & Ht). left. congruence.
    - destruct (Hbusy y (or_introl E)) as (e & He & Ht). right. congruence.
    - destruct (Hbusy y (or_intror E)) as (e & He & Ht). right. congruence. }
  destruct Hor as [-> | ->]; rewrite ?orb_true_r; simpl; eauto.
Qed.

Lemma startConversation_parties_are_busy_witness :
  exists message,
    World.startConversation "1" "0" 3000 invitedWorld = Throw message.
Proof.
  apply (startConversation_parties_are_busy "0" "1" 2000 (snd twoPlayers)
           invitedWorld invitation).
  - reflexivity.
  - right. left. reflexivity.
Defined.

(** ** The world: what a tick does to the conversations *)

Lemma tickConversation_get (now clock : Z) (st : Db * World.t)
    (key : string) :
  keyedBy Conversation.id (World.conversations (snd st)) ->
  let m' := World.conversations (snd (World.tickConversation now clock st key))
  in
  keyedBy Conversation.id m'
  /\ forall k,
       JSMap.get k m'
       = if key =? k then
           match JSMap.get k (World.conversations (snd st)) with
           | Some c =>
               if Conversation.isFinished (Conversation.tick now c) then None
               else Some (Conversation.tick now c)
           | None => None
           end
         else JSMap.get k (World.conversations (snd st)).
Proof.
  destruct st as [db w]. simpl. intros [Hk Hnd].
  unfold World.tickConversation.
  destruct (JSMap.get key (World.conversations w)) as [c |] eqn:Hget.
  - assert (Hid : Conversation.id (Conversation.tick now c) = key).
    { rewrite tick_id. eapply keyedById_get; eassumption. }
    set (c' := Conversation.tick now c) in *.
    set (w1 := World.set_conversations _ w).
    assert (Hk1 : keyedBy Conversation.id (World.conversations w1)).
    { split.
      - apply keyedById_set; assumption.
      - now apply JSMapKeys.NoDup_keys_set. }
    destruct (Conversation.isFinished c') eqn:Hfin.
    + rewrite endConversation_conversations, Hid. simpl.
      rewrite JSMapFacts.get_set_same.
      split.
      * split.
        -- apply JSMapFacts.Forall_delete. apply Hk1.
        -- apply JSMapKeys.NoDup_keys_delete. apply Hk1.
      * intros k. destruct (String.eqb_spec key k) as [<- | Hne].
        -- rewrite Hget. fold c'. rewrite Hfin.
           apply JSMapKeys.get_delete_same. apply Hk1.
        -- rewrite JSMapFacts.get_delete_other by congruence.
           apply JSMapFacts.get_set_other. congruence.
    + simpl. split; [exact Hk1 |].
      intros k. destruct (String.eqb_spec key k) as [<- | Hne].
      * rewrite Hget. fold c'. rewrite Hfin.
        apply JSMapFacts.get_set_same.
      * apply JSMapFacts.get_set_other. congruence.
  - simpl. split; [now split |].
    intros k. destruct (String.eqb_spec key k) as [<- | Hne];
      [now rewrite Hget | reflexivity].
Qed.

Lemma tickConversations_get (now clock : Z) (keys : list string) :
  forall st : Db * World.t,
    NoDup keys ->
    keyedBy Conversation.id (World.conversations (snd st)) ->
    forall k,
      JSMap.get k
        (World.conversations
           (snd (fold_left (World.tickConversation now clock) keys st)))
      = if includes keys k then
          match JSMap.get k (World.conversations (snd st)) with
          | Some c =>
              if Conversation.isFinished (Conversation.tick now c) then None
              else Some (Conversation.tick now c)
          | None => None
          end
        else JSMap.get k (World.conversations (snd st)).
Proof.
  induction keys as [| key keys IH]; intros st Hnd Hk k; [reflexivity |].
  inversion Hnd as [| ? ? Hnot Hnd']; subst.
  destruct (tickConversation_get now clock st key Hk) as [Hk' Hget'].
  simpl fold_left. rewrite (IH _ Hnd' Hk' k), !Hget'.
  unfold includes. simpl existsb. fold (includes keys k).
  destruct (String.eqb_spec key k) as [<- | Hne]; simpl.
  - apply includes_not_In in Hnot. rewrite Hnot. reflexivity.
  - reflexivity.
Qed.

(** X13.  [World.tick] gives every conversation of the map its own [tick],
    and drops from the map exactly those that are ended after it: a map whose
    entries sit under their ids, without repeated keys, holds afterwards,
    under each key, the ticked conversation if that is not ended, and
    nothing otherwise. *)
Theorem World_tick_drops_ended_conversations :
  forall (now clock : Z) (db : Db) (w : World.t),
    keyedBy Conversation.id (World.conversations w) ->
    forall k,
      JSMap.get k (World.conversations (snd (World.tick now clock db w)))
      = match JSMap.get k (World.conversations w) with
        | Some c =>
            if Conversation.isFinished (Conversation.tick now c) then None
            else Some (Conversation.tick now c)
        | None => None
        end.
Proof.
  intros now clock db w Hk k. unfold World.tick.
  set (w2 := World.set_agents _ _).
  pose proof (tickConversations_get now clock
                (JSMap.keys (World.conversations w2)) (db, w2)
                (proj2 Hk) Hk k) as Hfold.
  destruct (fold_left (World.tickConversation now clock)
              (JSMap.keys (World.conversations w2)) (db, w2)) as [db' w3].
  simpl in *. rewrite Hfold.
  destruct (includes (JSMap.keys (World.conversations w)) k) eqn:Hinc;
    [reflexivity |].
  apply includes_not_In, JSMapKeys.get_None in Hinc. now rewrite Hinc.
Qed.

Lemma World_tick_drops_ended_conversations_witness :
  JSMap.get "2"
    (World.conversations
       (snd (World.tick 5000 5000 emptyDb
               (World.set_conversations
                  [("2", Conversation.leave "1" 3000 invitation)]
                  invitedWorld))))
  = None.
Proof.
  apply (World_tick_drops_ended_conversations 5000 5000 emptyDb
           (World.set_conversations
              [("2", Conversation.leave "1" 3000 invitation)] invitedWorld)).
  split; [repeat constructor |].
  repeat constructor; simpl; tauto.
Defined.

(** ** The input queue *)

Lemma last_Some_Forall {A : Type} (P : A -> Prop) (l : list A) (a : A) :
  Forall P l -> last (map Some l) None = Some a -> P a.
Proof.
  induction 1 as [| b l Hb Hl IH]; simpl; [discriminate |].
  destruct (map Some l) eqn:Hm.
  - intros [= <-]. exact Hb.
  - exact IH.
Qed.

Lemma sendInput_zero (i : Input) (clock : Z) (s : Store) :
  Forall (fun r => number r = 0%Z) (inputs s) ->
  snd (fst (Inputs.sendInput i clock s)) = 0%Z
  /\ Forall (fun r => number r = 0%Z) (inputs (snd (Inputs.sendInput i clock s)))
  /\ map input (inputs (snd (Inputs.sendInput i clock s)))
     = map input (inputs s) ++ [i].
Proof.
  intros Hall. unfold Inputs.sendInput. simpl.
  assert (Hnum : (orElse (option_map number (last (map Some (inputs s)) None))
                    (-1) + 1 = 0)%Z).
  { destruct (last (map Some (inputs s)) None) as [r |] eqn:Hlast;
      [| reflexivity].
    apply (last_Some_Forall _ _ _ Hall) in Hlast. simpl. now rewrite Hlast. }
  rewrite Hnum. split; [reflexivity |]. split.
  - apply Forall_app. split; [exact Hall | repeat constructor].
  - now rewrite map_app.
Qed.

(** X14.  On a queue that is empty, or whose rows all carry the number 0,
    [sendInput] gives the number 0 to every input that is sent, however
    many are sent: [(lastInput?.number || -1) + 1] is 0 when there is no last
    input and again 0 when the last number is 0.  The rows are queued in the
    order of sending. *)
Theorem sendInput_numbers_every_input_zero :
  forall (sent : list (Input * Z)) (s : Store),
    Forall (fun r => number r = 0%Z) (inputs s) ->
    Forall (fun r => number r = 0%Z) (inputs (sendInputs sent s))
    /\ map input (inputs (sendInputs sent s))
       = map input (inputs s) ++ map fst sent.
Proof.
  unfold sendInputs.
  induction sent as [| [i clock] sent IH]; intros s Hall;
    cbn [fold_left fst snd map].
  - split; [exact Hall | now rewrite app_nil_r].
  - destruct (sendInput_zero i clock s Hall) as (_ & Hall' & Hin).
    destruct (IH _ Hall') as [IH1 IH2].
    split; [exact IH1 |].
    rewrite IH2, Hin, <- app_assoc. reflexivity.
Qed.

Lemma sendInput_numbers_every_input_zero_witness :
  Forall (fun r => number r = 0%Z)
    (inputs (sendInputs [(join "Ada" "f1" "first", 10%Z);
                         (sendMessage "9" "hi" "u1", 11%Z);
                         (join "Bob" "f2" "second", 12%Z)] freshStore))
  /\ map input
       (inputs (sendInputs [(join "Ada" "f1" "first", 10%Z);
                            (sendMessage "9" "hi" "u1", 11%Z);
                            (join "Bob" "f2" "second", 12%Z)] freshStore))
     = map input (inputs freshStore)
       ++ map fst [(join "Ada" "f1" "first", 10%Z);
                   (sendMessage "9" "hi" "u1", 11%Z);
                   (join "Bob" "f2" "second", 12%Z)].
Proof.
  apply (sendInput_numbers_every_input_zero _ freshStore). constructor.
Defined.

(** ** The engine step *)

Lemma nextBatch_length (s : Store) (engine : Engine) :
  engineDoc s = Some engine ->
  exists st,
    Main.status s = Some st
    /\ length (nextBatch s) = Nat.min 100 (Main.st_pendingInputs st).
Proof.
  intros He. unfold Main.status, nextBatch, Main.pending. rewrite He.
  eexists. split; [reflexivity |]. cbn [Main.st_pendingInputs].
  apply length_firstn.
Qed.

(** X15.  A step on a running engine that has a world returns.  It takes the
    inputs that [status] counts as pending, but at most 100 of them.
    Afterwards the simulation time of the engine is 16 ms later than before,
    whatever time went by on the wall clock, the time of the last step is
    the wall-clock time of this one, and [processedInputNumber] is the
    number of the last input taken, or is unchanged when no input was
    taken. *)
Theorem step_advances_time_and_cursor :
  forall (clock : Z) (s : Store) (engine : Engine) (doc : WorldDoc),
    engineDoc s = Some engine ->
    running engine = true ->
    worldDoc s = Some doc ->
    exists outs debug s' engine' st,
      Main.tick clock s
      = Ok (Main.Processed (length (nextBatch s)) outs debug, s')
      /\ Main.status s = Some st
      /\ length (nextBatch s) = Nat.min 100 (Main.st_pendingInputs st)
      /\ engineDoc s' = Some engine'
      /\ currentTime engine' = Some (Game.now engine + 16)%Z
      /\ lastStepTs engine' = Some clock
      /\ processedInputNumber engine'
         = match last (map Some (nextBatch s)) None with
           | Some r => Some (number r)
           | None => processedInputNumber engine
           end.
Proof.
  intros clock s engine doc He Hrun Hdoc.
  destruct (step_engine clock s engine doc He Hrun Hdoc)
    as (debug & s' & e' & Htick & He' & Ht & Hl & Hp & _).
  destruct (nextBatch_length s engine He) as (st & Hst & Hlen).
  exists None, debug, s', e', st.
  repeat split; assumption.
Qed.

Lemma step_advances_time_and_cursor_witness :
  exists outs debug s' engine' st,
    Main.tick 100 queuedStore
    = Ok (Main.Processed (length (nextBatch queuedStore)) outs debug, s')
    /\ Main.status queuedStore = Some st
    /\ length (nextBatch queuedStore) = Nat.min 100 (Main.st_pendingInputs st)
    /\ engineDoc s' = Some engine'
    /\ currentTime engine' = Some 16%Z
    /\ lastStepTs engine' = Some 100%Z
    /\ processedInputNumber engine'
       = match last (map Some (nextBatch queuedStore)) None with
         | Some r => Some (number r)
         | None => None
         end.
Proof.
  apply (step_advances_time_and_cursor 100 queuedStore _ _
           eq_refl eq_refl eq_refl).
Defined.

Lemma filter_map_comm {A : Type} (p : A -> bool) (g : A -> A) (l : list A) :
  (forall a, p (g a) = p a) -> filter p (map g l) = map g (filter p l).
Proof.
  intros Hp. induction l as [| a l IH]; simpl; [reflexivity |].
  rewrite Hp, IH. destruct (p a); reflexivity.
Qed.

Lemma pending_writeReturnValues (n : Z) (batch : list InputRow)
    (outs : option (list Output)) (rows : list InputRow) :
  Main.pending n (Main.writeReturnValues batch outs rows)
  = Main.writeReturnValues batch outs (Main.pending n rows).
Proof.
  unfold Main.pending, Main.writeReturnValues.
  rewrite filter_map_comm, firstn_map; [reflexivity |].
  intros r. destruct (Main.inBatch batch r); reflexivity.
Qed.

Lemma writeReturnValues_columns (batch : list InputRow)
    (outs : option (list Output)) (rows : list InputRow) :
  map (fun r => (_id r, number r, input r))
    (Main.writeReturnValues batch outs rows)
  = map (fun r => (_id r, number r, input r)) rows.
Proof.
  unfold Main.writeReturnValues. rewrite map_map. apply map_ext.
  intros r. destruct (Main.inBatch batch r); reflexivity.
Qed.

Lemma pending_zero (n : Z) (rows : list InputRow) :
  Forall (fun r => number r = 0%Z) rows ->
  Main.pending n rows = if (n <? 0)%Z then firstn 100 rows else [].
Proof.
  intros Hall. unfold Main.pending.
  assert (Hf : filter (fun r => (n <? number r)%Z) rows
               = if (n <? 0)%Z then rows else []).
  { induction Hall as [| r rows Hr Hall IH]; simpl.
    - now destruct (n <? 0)%Z.
    - rewrite Hr, IH. now destruct (n <? 0)%Z. }
  rewrite Hf. now destruct (n <? 0)%Z.
Qed.

(** X16.  When every row of the queue carries the number 0, which is what
    [sendInput] produces, a step does not take its inputs off the queue:
    the inputs that the next step will take are the same rows, in the same
    order, as the ones this step took.  The cursor
    [processedInputNumber || -1] reads the number 0 as "nothing processed
    yet". *)
Theorem zero_numbered_inputs_stay_pending :
  forall (clock : Z) (s : Store) (engine : Engine) (doc : WorldDoc),
    engineDoc s = Some engine ->
    running engine = true ->
    worldDoc s = Some doc ->
    Forall (fun r => number r = 0%Z) (inputs s) ->
    exists outs debug s',
      Main.tick clock s
      = Ok (Main.Processed (length (nextBatch s)) outs debug, s')
      /\ map (fun r => (_id r, number r, input r)) (nextBatch s')
         = map (fun r => (_id r, number r, input r)) (nextBatch s).
Proof.
  intros clock s engine doc He Hrun Hdoc Hall.
  destruct (step_engine clock s engine doc He Hrun Hdoc)
    as (debug & s' & e' & Htick & He' & _ & _ & Hp & _ & _ & _ & Hin & _).
  exists None, debug, s'. split; [exact Htick |].
  unfold nextBatch in *. rewrite He, He' in *.
  set (lp := orElse (processedInputNumber engine) (-1)) in *.
  rewrite (pending_zero lp _ Hall) in *.
  destruct (lp <? 0)%Z eqn:Hlp.
  - destruct (firstn 100 (inputs s)) as [| r0 batch] eqn:Hb.
    + simpl in Hp. rewrite Hin, Hp. fold lp.
      rewrite (pending_zero lp _ Hall), Hlp, Hb. reflexivity.
    + set (b := r0 :: batch) in *.
      destruct (last (map Some b) None) as [r |] eqn:Hlast;
        [| apply last_Some_nonempty in Hlast; discriminate].
      assert (Hr : number r = 0%Z).
      { apply (last_Some_Forall (fun r => number r = 0%Z) b r); [| exact Hlast].
        rewrite <- Hb. apply Forall_forall. intros q Hq.
        apply In_firstn in Hq.
        exact (proj1 (Forall_forall _ _) Hall q Hq). }
      rewrite Hp, Hr. simpl orElse.
      rewrite Hin.
      rewrite pending_writeReturnValues, writeReturnValues_columns.
      rewrite (pending_zero (-1) _ Hall).
      replace (-1 <? 0)%Z with true by reflexivity. now rewrite Hb.
  - simpl in Hp. rewrite Hin, Hp. fold lp.
    rewrite (pending_zero lp _ Hall), Hlp. reflexivity.
Qed.

Lemma zero_numbered_inputs_stay_pending_witness :
  exists outs debug s',
    Main.tick 100 queuedStore
    = Ok (Main.Processed (length (nextBatch queuedStore)) outs debug, s')
    /\ map (fun r => (_id r, number r, input r)) (nextBatch s')
       = map (fun r => (_id r, number r, input r)) (nextBatch queuedStore).
Proof.
  apply (zero_numbered_inputs_stay_pending 100 queuedStore _ _
           eq_refl eq_refl eq_refl).
  repeat constructor.
Defined.

(** X17.  A [stop] that reaches the engine through the input queue does not
    stop it.  The command fails validation like every queued command, so
    that its handler never runs: whatever the batch holds, the engine is
    still running after the step, and the step has scheduled the next one,
    16 ms later. *)
Theorem queued_stop_leaves_the_engine_running :
  forall (clock : Z) (s : Store) (engine : Engine) (doc : WorldDoc),
    engineDoc s = Some engine ->
    running engine = true ->
    worldDoc s = Some doc ->
    exists debug s' engine',
      Main.tick clock s
      = Ok (Main.Processed (length (nextBatch s)) None debug, s')
      /\ engineDoc s' = Some engine'
      /\ running engine' = true
      /\ scheduled s' = scheduled s ++ [16%Z].
Proof.
  intros clock s engine doc He Hrun Hdoc.
  destruct (step_engine clock s engine doc He Hrun Hdoc)
    as (debug & s' & e' & Htick & He' & _ & _ & _ & Hr & _ & Hs & _).
  exists debug, s', e'. repeat split; assumption.
Qed.

Lemma queued_stop_leaves_the_engine_running_witness :
  exists debug s' engine',
    Main.tick 100
      (sendInputs [(stop, 10%Z); (join "Ada" "f1" "first", 11%Z)] freshStore)
    = Ok (Main.Processed 2 None debug, s')
    /\ engineDoc s' = Some engine'
    /\ running engine' = true
    /\ scheduled s' = [16%Z].
Proof.
  apply (queued_stop_leaves_the_engine_running 100
           (sendInputs [(stop, 10%Z); (join "Ada" "f1" "first", 11%Z)]
              freshStore) _ _ eq_refl eq_refl eq_refl).
Defined.

(** X18.  A [restart] that reaches the engine through the input queue
    restarts nothing.  Its handler never runs: whatever the batch holds, the
    step leaves the generation number of the engine and the tables of the
    world as they were. *)
Theorem queued_restart_leaves_the_generation :
  forall (clock : Z) (s : Store) (engine : Engine) (doc : WorldDoc),
    engineDoc s = Some engine ->
    running engine = true ->
    worldDoc s = Some doc ->
    exists debug s' engine',
      Main.tick clock s
      = Ok (Main.Processed (length (nextBatch s)) None debug, s')
      /\ engineDoc s' = Some engine'
      /\ generationNumber engine' = generationNumber engine
      /\ tables s' = tables s.
Proof.
  intros clock s engine doc He Hrun Hdoc.
  destruct (step_engine clock s engine doc He Hrun Hdoc)
    as (debug & s' & e' & Htick & He' & _ & _ & _ & _ & Hg & _ & _ & Ht & _).
  exists debug, s', e'. repeat split; assumption.
Qed.

Lemma queued_restart_leaves_the_generation_witness :
  exists debug s' engine',
    Main.tick 100
      (sendInputs [(restart, 10%Z); (restart, 11%Z)] freshStore)
    = Ok (Main.Processed 2 None debug, s')
    /\ engineDoc s' = Some engine'
    /\ generationNumber engine' = 0%Z
    /\ tables s' = emptyDb.
Proof.
  apply (queued_restart_leaves_the_generation 100
           (sendInputs [(restart, 10%Z); (restart, 11%Z)] freshStore) _ _
           eq_refl eq_refl eq_refl).
Defined.

(** X19.  After the [stop] mutation has succeeded, a tick is skipped and
    changes nothing, so no further tick is scheduled; [stop] itself keeps the
    queue, the schedule and the tables.  [start] turns the flag on and
    schedules one tick with no delay, also when the engine is running
    already. *)
Theorem stop_halts_the_loop :
  forall (s s' : Store),
    Main.stop s = Ok s' ->
    (forall clock, Main.tick clock s' = Ok (Main.Skipped, s'))
    /\ inputs s' = inputs s
    /\ scheduled s' = scheduled s
    /\ tables s' = tables s
    /\ exists s'' engine,
         Main.start s' = Ok s''
         /\ engineDoc s'' = Some engine
         /\ running engine = true
         /\ scheduled s'' = scheduled s ++ [0%Z]
         /\ exists s3, Main.start s'' = Ok s3
                       /\ scheduled s3 = scheduled s ++ [0%Z; 0%Z].
Proof.
  intros s s'. unfold Main.stop, Main.start, Main.tick.
  destruct (engineDoc s) as [e |] eqn:He; [| discriminate].
  intros [= <-]. unfold patchEngine. rewrite He. simpl.
  repeat split. do 2 eexists. repeat split.
  eexists. split; [reflexivity |]. simpl.
  now rewrite <- app_assoc.
Qed.

Lemma stop_halts_the_loop_witness :
  exists s',
    Main.stop queuedStore = Ok s'
    /\ (forall clock, Main.tick clock s' = Ok (Main.Skipped, s'))
    /\ inputs s' = inputs queuedStore.
Proof.
  eexists. split; [reflexivity |].
  pose proof (stop_halts_the_loop queuedStore _ eq_refl) as (H1 & H2 & _).
  split; [exact H1 | exact H2].
Defined.

Lemma find_map {A : Type} (p : A -> bool) (g : A -> A) (l : list A) :
  (forall a, p (g a) = p a) ->
  find p (map g l) = option_map g (find p l).
Proof.
  intros Hp. induction l as [| a l IH]; simpl; [reflexivity |].
  rewrite Hp, IH. destruct (p a); reflexivity.
Qed.

(** X20.  After a step, [getInputStatus] reports every input that the step
    took as processed and successful, with the outputs of the whole batch as
    its result and with no error, whether or not the handler of that input
    threw. *)
Theorem getInputStatus_after_step :
  forall (clock : Z) (s : Store) (engine : Engine) (doc : WorldDoc),
    engineDoc s = Some engine ->
    running engine = true ->
    worldDoc s = Some doc ->
    exists outs debug s',
      Main.tick clock s
      = Ok (Main.Processed (length (nextBatch s)) outs debug, s')
      /\ forall r,
           In r (nextBatch s) ->
           Inputs.getInputStatus (_id r) s'
           = Some {| Inputs.is_processed := true;
                     Inputs.is_success := true;
                     Inputs.is_result := Some outs;
                     Inputs.is_error := None |}.
Proof.
  intros clock s engine doc He Hrun Hdoc.
  destruct (step_engine clock s engine doc He Hrun Hdoc)
    as (debug & s' & e' & Htick & _ & _ & _ & _ & _ & _ & _ & Hin & _).
  exists None, debug, s'. split; [exact Htick |].
  intros r Hr. unfold Inputs.getInputStatus. rewrite Hin.
  destruct (nextBatch s) as [| r0 batch] eqn:Hb; [destruct Hr |].
  set (b := r0 :: batch) in *.
  unfold Main.writeReturnValues.
  rewrite find_map
    by (intros a; destruct (Main.inBatch b a); reflexivity).
  assert (Hrows : In r (inputs s)).
  { assert (Hr' : In r (nextBatch s)) by (rewrite Hb; exact Hr).
    unfold nextBatch in Hr'. rewrite He in Hr'. unfold Main.pending in Hr'.
    apply In_firstn in Hr'. apply filter_In in Hr'. tauto. }
  destruct (find (fun r1 => (_id r1 =? _id r)%Z) (inputs s)) as [r1 |] eqn:Hf.
  - apply find_some in Hf. destruct Hf as [_ Hid].
    assert (Hb1 : Main.inBatch b r1 = true).
    { unfold Main.inBatch. apply existsb_exists. exists r.
      split; [exact Hr |]. apply Z.eqb_eq in Hid. apply Z.eqb_eq. congruence. }
    cbn [option_map]. rewrite Hb1. reflexivity.
  - exfalso. apply (find_none _ _ Hf) in Hrows.
    rewrite Z.eqb_refl in Hrows. discriminate.
Qed.

Lemma getInputStatus_after_step_witness :
  exists outs debug s',
    Main.tick 100 queuedStore
    = Ok (Main.Processed (length (nextBatch queuedStore)) outs debug, s')
    /\ forall r,
         In r (nextBatch queuedStore) ->
         Inputs.getInputStatus (_id r) s'
         = Some {| Inputs.is_processed := true;
                   Inputs.is_success := true;
                   Inputs.is_result := Some outs;
                   Inputs.is_error := None |}.
Proof.
  apply (getInputStatus_after_step 100 queuedStore _ _
           eq_refl eq_refl eq_refl).
Defined.

(** ** The engine step: the world that a step works on *)

(** X21.  [Game.tick] builds its world from the world document alone, which
    holds the id counter and a time stamp, so every step starts with no
    player, no agent and no conversation.  No command of the batch gets to
    its handler, so the step ends with such a world too, whatever the batch
    holds: a [join] adds no player and uses no id.  The step returns
    whenever the world document exists, collects no output, leaves the
    tables and the queue as they were, and writes the id counter back with
    the simulation time as time stamp. *)
Theorem step_starts_and_ends_with_an_empty_world :
  forall (engine : Engine) (batch : list Input) (clock : Z) (s : Store)
         (doc : WorldDoc),
    worldDoc s = Some doc ->
    exists result s' w',
      Game.tick engine batch clock s = Ok (result, (s', w'))
      /\ Game.outputs result = None
      /\ World.players w' = []
      /\ World.agents w' = []
      /\ World.conversations w' = []
      /\ World.nextId w' = doc_nextId doc
      /\ tables s' = tables s
      /\ inputs s' = inputs s
      /\ worldDoc s'
         = Some {| doc_nextId := doc_nextId doc;
                   doc_lastViewed := Game.now engine |}.
Proof.
  intros engine batch clock s doc Hdoc.
  do 3 eexists. split; [exact (Game_tick_run engine batch clock s doc Hdoc) |].
  repeat split.
Qed.

Lemma step_starts_and_ends_with_an_empty_world_witness :
  exists result s' w',
    Game.tick {| currentTime := Some 16%Z; lastStepTs := Some 100%Z;
                 processedInputNumber := Some 0%Z; running := true;
                 generationNumber := 0 |}
      [join "Ada" "f1" "first"; agentWakeUp "7"; leave "0"] 200 queuedStore
    = Ok (result, (s', w'))
    /\ Game.outputs result = None
    /\ World.players w' = []
    /\ World.agents w' = []
    /\ World.conversations w' = []
    /\ World.nextId w' = 0%Z
    /\ tables s' = emptyDb
    /\ inputs s' = inputs queuedStore
    /\ worldDoc s' = Some {| doc_nextId := 0; doc_lastViewed := 16 |}.
Proof.
  exact (step_starts_and_ends_with_an_empty_world
           {| currentTime := Some 16%Z; lastStepTs := Some 100%Z;
              processedInputNumber := Some 0%Z; running := true;
              generationNumber := 0 |}
           [join "Ada" "f1" "first"; agentWakeUp "7"; leave "0"] 200
           queuedStore {| doc_nextId := 0; doc_lastViewed := 0 |} eq_refl).
Defined.

(** ** Agents: reputation history and social connections *)

Lemma updateTrustScore_history (delta : R) (action context : string)
    (clock : Z) (a : Agent.t) :
  Agent.reputationHistory (Agent.updateTrustScore delta action context clock a)
  = Agent.trimHistory
      (Agent.reputationHistory a
       ++ [{| Agent.timestamp := clock; Agent.action := action;
              Agent.impact := delta; Agent.context := context |}]).
Proof.
  unfold Agent.updateTrustScore. destruct (Rltb 0 delta); reflexivity.
Qed.

(** X22.  After [updateTrustScore] the reputation history is the old history
    followed by the new entry, cut down to its last 100 entries: it never
    holds more than 100 entries, its last entry is the new one, and the
    entries that remain keep their order. *)
Theorem reputationHistory_keeps_the_last_100 :
  forall (delta : R) (action context : string) (clock : Z) (a : Agent.t),
    let entry := {| Agent.timestamp := clock; Agent.action := action;
                    Agent.impact := delta; Agent.context := context |} in
    let history' :=
      Agent.reputationHistory
        (Agent.updateTrustScore delta action context clock a) in
    history'
    = skipn (S (length (Agent.reputationHistory a)) - 100)
        (Agent.reputationHistory a ++ [entry])
    /\ length history'
       = Nat.min 100 (S (length (Agent.reputationHistory a)))
    /\ (length history' <= 100)%nat
    /\ exists older, history' = older ++ [entry].
Proof.
  intros delta action context clock a entry history'. subst history'.
  rewrite updateTrustScore_history. fold entry.
  set (h := Agent.reputationHistory a).
  assert (Hlen : length (h ++ [entry]) = S (length h))
    by (rewrite length_app; simpl; lia).
  assert (Htrim : Agent.trimHistory (h ++ [entry])
                  = skipn (S (length h) - 100) (h ++ [entry])).
  { unfold Agent.trimHistory. rewrite Hlen.
    destruct (Nat.ltb_spec 100 (S (length h))) as [Hgt | Hle];
      [reflexivity |].
    replace (S (length h) - 100)%nat with 0%nat by lia. reflexivity. }
  rewrite Htrim.
  assert (Hl : length (skipn (S (length h) - 100) (h ++ [entry]))
               = Nat.min 100 (S (length h)))
    by (rewrite length_skipn, Hlen; lia).
  split; [reflexivity |]. split; [exact Hl |]. split; [lia |].
  rewrite skipn_app.
  replace (S (length h) - 100 - length h)%nat with 0%nat by lia.
  simpl. eauto.
Qed.





(** ** Agents: the bounds under every method *)

Lemma sendMessage_bounded (ms ms' : list MessageRow) (t u : string)
    (lv : bool) (clock : Z) (a a' : Agent.t) :
  bounded a -> Agent.sendMessage ms t u lv clock a = Ok (ms', a') ->
  bounded a'.
Proof.
  intros Hb. unfold Agent.sendMessage.
  destruct (Agent.conversationId a) as [cid |]; [| discriminate].
  destruct (truthyStr (Some cid)); [| discriminate].
  intros [= _ <-]. destruct lv; exact Hb.
Qed.

Lemma walk_bounded (pf : Pathfinding) (clock : Z) (a : Agent.t) :
  bounded a -> bounded (Agent.walk pf clock a).
Proof.
  intros Hb. unfold Agent.walk.
  destruct (currentStep pf <? length (path pf))%nat; [| exact Hb].
  destruct (nth_error (path pf) (currentStep pf)); [| exact Hb].
  match goal with
  | |- bounded (if ?b then _ else _) => destruct b
  end; [| exact Hb].
  match goal with
  | |- bounded (if ?b then _ else _) => destruct b
  end; exact Hb.
Qed.

Lemma goToSleep_bounded (duration clock : Z) (a : Agent.t) :
  bounded a -> bounded (Agent.goToSleep duration clock a).
Proof.
  intros (Ht & Hc & Hh & Hs & He & Hso).
  unfold Agent.goToSleep, bounded; simpl.
  split; [exact Ht |]. split; [exact Hc |]. repeat split; minmax.
Qed.

Lemma wakeUp_bounded (clock : Z) (a : Agent.t) :
  bounded a -> bounded (Agent.wakeUp clock a).
Proof.
  intros (Ht & Hc & Hh & Hs & He & Hso).
  unfold Agent.wakeUp, bounded; simpl.
  split; [exact Ht |]. split; [exact Hc |]. repeat split; minmax.
Qed.

Lemma awakeTick_bounded (now clock : Z) (a : Agent.t) :
  bounded a -> bounded (Agent.awakeTick now clock a).
Proof.
  intros Hb. unfold Agent.awakeTick.
  assert (Hb1 : bounded
            match Agent.pathfinding a with
            | Some pf =>
                if Agent.isWalking (Agent.status a) then Agent.walk pf clock a
                else a
            | None => a
            end).
  { destruct (Agent.pathfinding a) as [pf |]; [| exact Hb].
    destruct (Agent.isWalking (Agent.status a)); [| exact Hb].
    now apply walk_bounded. }
  revert Hb1.
  generalize (match Agent.pathfinding a with
              | Some pf =>
                  if Agent.isWalking (Agent.status a)
                  then Agent.walk pf clock a else a
              | None => a
              end).
  intros a1 (Ht & Hc & Hh & Hs & He & Hso).
  match goal with
  | |- context [if ?b then _ else _] => destruct b
  end; unfold bounded; simpl;
    (split; [exact Ht |]); (split; [exact Hc |]); repeat split; minmax.
Qed.

Lemma Agent_tick_bounded (now clock : Z) (a : Agent.t) :
  bounded a -> bounded (Agent.tick now clock a).
Proof.
  intros Hb. unfold Agent.tick.
  assert (Hstep : forall a1, bounded a1 ->
            bounded (if Agent.shouldSleep now a1
                     then Agent.goToSleep Agent.defaultSleepDuration clock a1
                     else Agent.awakeTick now clock a1)).
  { intros a1 Hb1. destruct (Agent.shouldSleep now a1).
    - now apply goToSleep_bounded.
    - now apply awakeTick_bounded. }
  destruct (Agent.isSleeping (Agent.status a)); [| now apply Hstep].
  destruct (Agent.sleepUntil a) as [u |]; [| exact Hb].
  destruct (truthyNum (Some u) && (u <=? now)%Z); [| exact Hb].
  apply Hstep. now apply wakeUp_bounded.
Qed.

Lemma agentCall_bounded (a : Agent.t) (k : AgentCall) :
  bounded a -> bounded (agentCall a k).
Proof.
  intros Hb. destruct k as [now clock | duration clock | clock | d clock
                            | clock | cid clock | clock | t u lv clock | k];
    simpl.
  - now apply Agent_tick_bounded.
  - now apply goToSleep_bounded.
  - now apply wakeUp_bounded.
  - unfold Agent.walkTo. destruct (Agent.isSleeping (Agent.status a)); exact Hb.
  - exact Hb.
  - destruct Hb as (Ht & Hc & Hh & Hs & He & Hso).
    unfold Agent.joinConversation, bounded; simpl.
    split; [exact Ht |]. split; [exact Hc |]. repeat split; minmax.
  - exact Hb.
  - destruct (Agent.sendMessage [] t u lv clock a) as [[ms a'] |] eqn:Hs;
      [| exact Hb].
    eapply sendMessage_bounded; eassumption.
  - destruct k; simpl.
    + now apply updateTrustScore_bounded.
    + now apply updateSocialConnection_bounded.
Qed.

(** X24.  When the trust score, every connection's trust level and the four
    emotions of an agent lie in [0, 100], they still do after any sequence
    of calls of the methods that change an agent: [tick], [goToSleep],
    [wakeUp], [walkTo], [stopWalking], [joinConversation],
    [leaveConversation], [sendMessage] and the two trust updates. *)
Theorem agent_methods_stay_bounded :
  forall (ks : list AgentCall) (a : Agent.t),
    bounded a -> bounded (agentCalls ks a).
Proof.
  unfold agentCalls.
  induction ks as [| k ks IH]; intros a Hb; simpl; [exact Hb |].
  apply IH. now apply agentCall_bounded.
Qed.

Lemma agent_methods_stay_bounded_witness :
  bounded
    (agentCalls
       [CallJoinConversation "2" 1100; CallTick 1116 1116;
        CallTrust (UpdateTrustScore (-500) "lied" "market" 1200);
        CallGoToSleep 1000 1300; CallTick 2400 2400]
       (Agent.create "7" "Eve" "f3" (1 / 2) (1 / 2) 1000)).
Proof.
  apply (agent_methods_stay_bounded _ _ (create_bounded _ _ _ _ _ _)).
Defined.

(** X25.  An agent that is asleep stays exactly as it is under any number of
    [walkTo] calls and of ticks that come before its wake-up deadline: it
    does not move, its emotions do not drift, and its [lastActivity] is not
    refreshed. *)
Theorem sleeping_agent_stays_put :
  forall (u : Z) (a : Agent.t) (ks : list AgentCall),
    Agent.status a = Agent.Sleeping ->
    Agent.sleepUntil a = Some u ->
    Forall (fun k => match k with
                     | CallTick now _ => (now < u)%Z
                     | CallWalkTo _ _ => True
                     | _ => False
                     end) ks ->
    agentCalls ks a = a.
Proof.
  intros u a ks Hs Hu Hks. unfold agentCalls.
  induction Hks as [| k ks Hk Hks IH]; simpl; [reflexivity |].
  destruct k; try contradiction; simpl.
  - rewrite (tick_stays_asleep _ _ u a Hs Hu Hk). exact IH.
  - unfold Agent.walkTo. rewrite Hs. simpl. exact IH.
Qed.

Lemma sleeping_agent_stays_put_witness :
  agentCalls [CallWalkTo farCorner 1100; CallTick 1116 1116;
              CallTick 1132 1132] sleepingInvitee
  = sleepingInvitee.
Proof.
  apply (sleeping_agent_stays_put 28801000 sleepingInvitee).
  - reflexivity.
  - reflexivity.
  - repeat constructor.
Defined.

(** ** Memories: importance *)

Local Open Scope R_scope.

Ltac rminmax :=
  unfold Rmin, Rmax in *;
  repeat match goal with
    | |- context [Rle_dec ?a ?b] => destruct (Rle_dec a b)
    | H : context [Rle_dec ?a ?b] |- _ => destruct (Rle_dec a b)
    end;
  try lra.

Lemma length_term_range (d : JSString) :
  0 <= Rmin (INR (length d) / 50) 3 <= 3.
Proof.
  pose proof (pos_INR (length d)) as Hpos.
  assert (0 <= INR (length d) / 50) by lra.
  rminmax.
Qed.

Lemma length_term_monotone (d d' : JSString) :
  (length d <= length d')%nat ->
  Rmin (INR (length d) / 50) 3 <= Rmin (INR (length d') / 50) 3.
Proof.
  intros Hle. apply le_INR in Hle.
  assert (INR (length d) / 50 <= INR (length d') / 50) by lra.
  rminmax.
Qed.

(** X26.  [calculateMemoryImportance] always returns a value in [0, 10], and
    it never gets smaller when the description gets longer, counted in code
    units, or when a number of the context gets larger. *)
Theorem calculateMemoryImportance_range_and_order :
  forall (d d' : JSString) (c c' : ImportanceContext),
    0 <= calculateMemoryImportance d c <= 10
    /\ ((length d <= length d')%nat ->
        emotionalImpact c <= emotionalImpact c' ->
        socialRelevance c <= socialRelevance c' ->
        novelty c <= novelty c' ->
        personalRelevance c <= personalRelevance c' ->
        calculateMemoryImportance d c <= calculateMemoryImportance d' c').
Proof.
  intros d d' c c'. unfold calculateMemoryImportance.
  pose proof (length_term_range d) as Hd.
  pose proof (length_term_range d') as Hd'.
  set (v := Rmin (INR (length d) / 50) 3) in *.
  set (v' := Rmin (INR (length d') / 50) 3) in *.
  split.
  - clearbody v v'. rminmax.
  - intros Hlen He Hs Hn Hp.
    pose proof (length_term_monotone d d' Hlen) as Hv. fold v v' in Hv.
    clearbody v v'. rminmax.
Qed.

(** ** Memories: embeddings *)

Section Embeddings.
Import AgentMemory.

Lemma bump_length (i : nat) (e : list R) : length (bump i e) = length e.
Proof.
  revert i. induction e as [| v e IH]; intros [| i]; simpl; auto.
Qed.

Lemma bump_nonneg (i : nat) (e : list R) :
  Forall (fun v => 0 <= v) e -> Forall (fun v => 0 <= v) (bump i e).
Proof.
  intros H. revert i. induction H as [| v e Hv He IH]; intros [| i]; simpl;
    constructor; auto; lra.
Qed.

(** [bump] adds 1 at its index and leaves the other entries alone. *)
Lemma bump_nth (j : nat) (e : list R) :
  forall i : nat,
    (j < length e)%nat ->
    nth i (bump j e) 0 = nth i e 0 + (if (i =? j)%nat then 1 else 0).
Proof.
  revert j. induction e as [| v e IH]; intros j i Hj; simpl in Hj; [lia |].
  destruct j as [| j], i as [| i]; simpl; try lra.
  apply IH. lia.
Qed.

(** The number of code units of a text that fall on the index [i]. *)
Let hits (text : JSString) (i : nat) : nat :=
  count_occ Nat.eq_dec (map (fun char => (char mod dimension)%nat) text) i.

Lemma countLoop_nth (text : JSString) :
  forall (e : list R) (i : nat),
    length e = dimension ->
    nth i
      (fold_left (fun embedding char => bump (char mod dimension) embedding)
         text e) 0
    = nth i e 0 + INR (hits text i)
    /\ length
         (fold_left (fun embedding char => bump (char mod dimension) embedding)
            text e) = dimension
    /\ (Forall (fun v => 0 <= v) e ->
        Forall (fun v => 0 <= v)
          (fold_left
             (fun embedding char => bump (char mod dimension) embedding)
             text e)).
Proof.
  unfold hits.
  induction text as [| c text IH]; intros e i Hlen; cbn [fold_left map].
  - cbn [count_occ INR]. split; [lra | auto].
  - destruct (IH (bump (c mod dimension) e) i) as (Hnth & Hl & Hpos);
      [now rewrite bump_length |].
    split; [| split; [exact Hl | intros He; now apply Hpos, bump_nonneg]].
    rewrite Hnth, bump_nth
      by (rewrite Hlen; apply Nat.mod_upper_bound; discriminate).
    cbn [count_occ].
    destruct (Nat.eq_dec (c mod dimension) i) as [<- | Hne].
    + rewrite Nat.eqb_refl, S_INR. lra.
    + replace (i =? c mod dimension)%nat with false
        by (symmetry; apply Nat.eqb_neq; congruence).
      lra.
Qed.

Lemma repeat_nonneg (n : nat) : Forall (fun v => 0 <= v) (repeat 0 n).
Proof. induction n; simpl; constructor; auto; lra. Qed.

Lemma nth_repeat_zero (n i : nat) : nth i (repeat 0 n) 0 = 0.
Proof.
  revert i. induction n as [| n IH]; intros [| i]; simpl; auto.
Qed.

(** The counting loop: entry [i] of the vector is the number of code units
    [c] of the text with [c mod 384 = i]. *)
Lemma countCodes_shape (text : JSString) :
  length (countCodes text) = dimension
  /\ Forall (fun v => 0 <= v) (countCodes text)
  /\ forall i, nth i (countCodes text) 0 = INR (hits text i).
Proof.
  unfold countCodes.
  split; [| split].
  - apply (countLoop_nth text (repeat 0 dimension) 0), repeat_length.
  - apply (countLoop_nth text (repeat 0 dimension) 0);
      [apply repeat_length | apply repeat_nonneg].
  - intros i.
    destruct (countLoop_nth text (repeat 0 dimension) i (repeat_length _ _))
      as (Hnth & _).
    rewrite Hnth, nth_repeat_zero. lra.
Qed.

Lemma sumOfSquares_from (e : list R) :
  forall acc, fold_left (fun sum val => sum + val * val) e acc
              = acc + sumOfSquares e.
Proof.
  unfold sumOfSquares.
  induction e as [| v e IH]; intros acc; simpl; [lra |].
  rewrite (IH (acc + v * v)), (IH (0 + v * v)). lra.
Qed.

Lemma sumOfSquares_cons (v : R) (e : list R) :
  sumOfSquares (v :: e) = v * v + sumOfSquares e.
Proof.
  unfold sumOfSquares at 1. simpl. rewrite sumOfSquares_from. lra.
Qed.

Lemma sumOfSquares_nonneg (e : list R) : 0 <= sumOfSquares e.
Proof.
  induction e as [| v e IH]; [unfold sumOfSquares; simpl; lra |].
  rewrite sumOfSquares_cons. nra.
Qed.

(** No entry is larger than the magnitude. *)
Lemma sumOfSquares_ge (v : R) (e : list R) :
  In v e -> v * v <= sumOfSquares e.
Proof.
  induction e as [| u e IH]; [contradiction |].
  rewrite sumOfSquares_cons. pose proof (sumOfSquares_nonneg e).
  intros [-> | Hin]; [nra |]. specialize (IH Hin). nra.
Qed.

Lemma entry_le_magnitude (v : R) (e : list R) :
  0 <= v -> In v e -> v <= sqrt (sumOfSquares e).
Proof.
  intros Hv Hin. rewrite <- (sqrt_square v) by exact Hv.
  apply sqrt_le_1_alt. now apply sumOfSquares_ge.
Qed.

(** An entry of the embedding is 0 exactly when the count under it is 0:
    dividing by the magnitude does not change that. *)
Lemma generateSimpleEmbedding_nth (text : JSString) (i : nat) :
  (i < dimension)%nat ->
  nth i (generateSimpleEmbedding text) 0 = 0 <-> hits text i = 0%nat.
Proof.
  intros Hi. unfold generateSimpleEmbedding.
  destruct (countCodes_shape text) as (Hl & _ & Hnth).
  assert (Hcount : nth i (countCodes text) 0 = 0 <-> hits text i = 0%nat).
  { rewrite Hnth. split; [intros H; apply INR_eq; exact H | now intros ->]. }
  destruct (Rltb 0 (sqrt (sumOfSquares (countCodes text)))) eqn:Hm;
    [| exact Hcount].
  apply Rltb_true in Hm.
  rewrite (nth_indep _ 0 ((fun val => val / sqrt (sumOfSquares (countCodes text)))
                            0))
    by (rewrite length_map, Hl; exact Hi).
  rewrite (map_nth (fun val => val / sqrt (sumOfSquares (countCodes text)))).
  rewrite <- Hcount.
  set (m := sqrt (sumOfSquares (countCodes text))) in *.
  set (v := nth i (countCodes text) 0).
  split.
  - intros H. apply (Rmult_eq_compat_r m) in H.
    unfold Rdiv in H. rewrite Rmult_assoc, Rinv_l in H by lra. lra.
  - intros ->. unfold Rdiv. lra.
Qed.

(** X27.  [generateSimpleEmbedding] returns a vector of 384 numbers between
    0 and 1.  Its entry [i] is 0 exactly when no code unit [c] of the text
    has [c mod 384 = i]; so the embedding of the empty text is the zero
    vector, and the embedding of every other text has a positive entry. *)
Theorem generateSimpleEmbedding_counts_code_units :
  forall text : JSString,
    length (generateSimpleEmbedding text) = 384%nat
    /\ Forall (fun v => 0 <= v <= 1) (generateSimpleEmbedding text)
    /\ (forall i : nat,
          (i < 384)%nat ->
          nth i (generateSimpleEmbedding text) 0 = 0
          <-> ~ In i (map (fun char => (char mod 384)%nat) text))
    /\ (text = [] -> generateSimpleEmbedding text = repeat 0 384)
    /\ (text <> [] -> Exists (fun v => 0 < v) (generateSimpleEmbedding text)).
Proof.
  intros text.
  assert (Hzero : forall i : nat,
             (i < 384)%nat ->
             nth i (generateSimpleEmbedding text) 0 = 0
             <-> ~ In i (map (fun char => (char mod 384)%nat) text)).
  { intros i Hi. rewrite (generateSimpleEmbedding_nth text i Hi).
    unfold hits. symmetry. apply count_occ_not_In. }
  assert (Hlen : length (generateSimpleEmbedding text) = 384%nat).
  { unfold generateSimpleEmbedding.
    destruct (countCodes_shape text) as (Hl & _ & _).
    destruct (Rltb 0 (sqrt (sumOfSquares (countCodes text))));
      [rewrite length_map |]; exact Hl. }
  assert (Hrange : Forall (fun v => 0 <= v <= 1)
                     (generateSimpleEmbedding text)).
  { unfold generateSimpleEmbedding.
    destruct (countCodes_shape text) as (_ & Hn & _).
    destruct (Rltb 0 (sqrt (sumOfSquares (countCodes text)))) eqn:Hm.
    - apply Rltb_true in Hm.
      apply Forall_forall. intros v Hv. apply in_map_iff in Hv.
      destruct Hv as (u & <- & Hu).
      pose proof (proj1 (Forall_forall _ _) Hn u Hu) as Hu0.
      pose proof (entry_le_magnitude u _ Hu0 Hu) as Hu1.
      split; [apply Rle_mult_inv_pos; assumption |].
      apply (Rmult_le_reg_r (sqrt (sumOfSquares (countCodes text))));
        [exact Hm |].
      unfold Rdiv. rewrite Rmult_assoc, Rinv_l by lra. lra.
    - apply Rltb_false in Hm.
      apply Forall_forall. intros v Hv.
      pose proof (proj1 (Forall_forall _ _) Hn v Hv) as Hv0.
      pose proof (entry_le_magnitude v _ Hv0 Hv) as Hv1. lra. }
  split; [exact Hlen |]. split; [exact Hrange |]. split; [exact Hzero |].
  split.
  - intros ->. unfold generateSimpleEmbedding.
    change (countCodes []) with (repeat 0 dimension).
    assert (Hs : sumOfSquares (repeat 0 dimension) = 0).
    { assert (H : forall n, sumOfSquares (repeat 0 n) = 0).
      { induction n as [| n IH]; [reflexivity |].
        simpl repeat. rewrite sumOfSquares_cons, IH. lra. }
      apply H. }
    rewrite Hs, sqrt_0.
    unfold Rltb. destruct (Rlt_dec 0 0) as [H | _]; [lra | reflexivity].
  - intros Hne. destruct text as [| c text]; [congruence |].
    set (i := (c mod 384)%nat).
    assert (Hi : (i < 384)%nat) by (apply Nat.mod_upper_bound; discriminate).
    assert (Hpos : nth i (generateSimpleEmbedding (c :: text)) 0 <> 0).
    { intros H. apply (Hzero i Hi) in H. apply H. now left. }
    apply Exists_exists.
    exists (nth i (generateSimpleEmbedding (c :: text)) 0). split.
    + apply nth_In. now rewrite Hlen.
    + assert (Hin : In (nth i (generateSimpleEmbedding (c :: text)) 0)
                      (generateSimpleEmbedding (c :: text)))
        by (apply nth_In; now rewrite Hlen).
      pose proof (proj1 (Forall_forall _ _) Hrange _ Hin). lra.
Qed.

(** The loop of [calculateSimilarity], with the two vectors swapped. *)
Lemma similarityLoop_swap (a : list R) :
  forall (b : list R) (d n1 n2 : R),
    fold_left
      (fun acc pair =>
         let '(dotProduct, norm1, norm2) := acc in
         (dotProduct + fst pair * snd pair, norm1 + fst pair * fst pair,
          norm2 + snd pair * snd pair))
      (combine b a) (d, n2, n1)
    = let '(x, y, z) :=
        fold_left
          (fun acc pair =>
             let '(dotProduct, norm1, norm2) := acc in
             (dotProduct + fst pair * snd pair, norm1 + fst pair * fst pair,
              norm2 + snd pair * snd pair))
          (combine a b) (d, n1, n2) in
      (x, z, y).
Proof.
  induction a as [| u a IH]; intros [| v b] d n1 n2; simpl; try reflexivity.
  rewrite (Rmult_comm v u). apply IH.
Qed.

(** On vectors without a negative entry the three sums of the loop stay
    non-negative. *)
Lemma similarityLoop_nonneg (a : list R) :
  forall (b : list R) (d n1 n2 : R),
    Forall (fun v => 0 <= v) a -> Forall (fun v => 0 <= v) b ->
    0 <= d -> 0 <= n1 -> 0 <= n2 ->
    let '(x, y, z) :=
      fold_left
        (fun acc pair =>
           let '(dotProduct, norm1, norm2) := acc in
           (dotProduct + fst pair * snd pair, norm1 + fst pair * fst pair,
            norm2 + snd pair * snd pair))
        (combine a b) (d, n1, n2) in
    0 <= x /\ 0 <= y /\ 0 <= z.
Proof.
  induction a as [| u a IH]; intros [| v b] d n1 n2 Ha Hb Hd H1 H2; simpl;
    try (repeat split; assumption).
  inversion Ha as [| ? ? Hu Ha']; subst.
  inversion Hb as [| ? ? Hv Hb']; subst.
  apply IH; try assumption; nra.
Qed.

(** A first vector of zeros leaves the dot product and its own norm as they
    were. *)
Lemma similarityLoop_zero (a : list R) :
  forall (b : list R) (d n1 n2 : R),
    Forall (fun v => v = 0) a ->
    exists z,
      fold_left
        (fun acc pair =>
           let '(dotProduct, norm1, norm2) := acc in
           (dotProduct + fst pair * snd pair, norm1 + fst pair * fst pair,
            norm2 + snd pair * snd pair))
        (combine a b) (d, n1, n2)
      = (d, n1, z).
Proof.
  induction a as [| u a IH]; intros [| v b] d n1 n2 Ha; simpl;
    try (eexists; reflexivity).
  inversion Ha as [| ? ? Hu Ha']; subst.
  replace (d + 0 * v) with d by lra.
  replace (n1 + 0 * 0) with n1 by lra.
  now apply IH.
Qed.

(** X28.  [calculateSimilarity] does not depend on the order of its two
    arguments.  It is 0 for vectors of different lengths and when one of the
    vectors holds only zeros, and it is never negative for two vectors
    without negative entries: so the similarity of two embeddings is never
    negative, and the embedding of the empty text has similarity 0 with
    every embedding. *)
Theorem calculateSimilarity_symmetric_and_signed :
  forall (a b : list R) (text query : JSString),
    calculateSimilarity a b = calculateSimilarity b a
    /\ (length a <> length b -> calculateSimilarity a b = 0)
    /\ (Forall (fun v => v = 0) a -> calculateSimilarity a b = 0)
    /\ (Forall (fun v => 0 <= v) a -> Forall (fun v => 0 <= v) b ->
        0 <= calculateSimilarity a b)
    /\ 0 <= calculateSimilarity (generateSimpleEmbedding query)
              (generateSimpleEmbedding text)
    /\ calculateSimilarity (generateSimpleEmbedding [])
         (generateSimpleEmbedding text) = 0.
Proof.
  intros a b text query.
  assert (Hsym : forall u v, calculateSimilarity u v = calculateSimilarity v u).
  { intros u v. unfold calculateSimilarity. rewrite (Nat.eqb_sym (length v)).
    destruct (length u =? length v)%nat; [| reflexivity]. simpl negb. cbv iota.
    rewrite (similarityLoop_swap u v 0 0 0).
    destruct (fold_left _ (combine u v) (0, 0, 0)) as [[x y] z].
    rewrite (orb_comm (Reqb z 0)), (Rmult_comm (sqrt z)). reflexivity. }
  assert (Hzero : forall u v,
            Forall (fun w => w = 0) u -> calculateSimilarity u v = 0).
  { intros u v Hu. unfold calculateSimilarity.
    destruct (negb (length u =? length v)%nat); [reflexivity |].
    destruct (similarityLoop_zero u v 0 0 0 Hu) as (z & ->).
    unfold Reqb at 1. destruct (Req_dec_T 0 0); [reflexivity | congruence]. }
  assert (Hsign : forall u v,
            Forall (fun w => 0 <= w) u -> Forall (fun w => 0 <= w) v ->
            0 <= calculateSimilarity u v).
  { intros u v Hu Hv. unfold calculateSimilarity.
    destruct (negb (length u =? length v)%nat); [lra |].
    pose proof (similarityLoop_nonneg u v 0 0 0 Hu Hv
                  (Rle_refl 0) (Rle_refl 0) (Rle_refl 0)) as Hloop.
    destruct (fold_left _ (combine u v) (0, 0, 0)) as [[x y] z].
    destruct Hloop as (Hx & Hy & Hz).
    unfold Reqb.
    destruct (Req_dec_T y 0) as [Ey | Ey]; [simpl; lra |].
    destruct (Req_dec_T z 0) as [Ez | Ez]; [simpl; lra |].
    simpl.
    assert (0 < sqrt y) by (apply sqrt_lt_R0; lra).
    assert (0 < sqrt z) by (apply sqrt_lt_R0; lra).
    apply Rle_mult_inv_pos; [exact Hx | nra]. }
  assert (Hpos : forall t, Forall (fun w => 0 <= w) (generateSimpleEmbedding t)).
  { intros t. unfold generateSimpleEmbedding.
    destruct (countCodes_shape t) as (_ & Hn & _).
    destruct (Rltb 0 (sqrt (sumOfSquares (countCodes t)))) eqn:Hm;
      [| exact Hn].
    apply Rltb_true in Hm.
    apply Forall_forall. intros v Hv. apply in_map_iff in Hv.
    destruct Hv as (u & <- & Hu).
    apply Rle_mult_inv_pos; [| exact Hm].
    exact (proj1 (Forall_forall _ _) Hn u Hu). }
  split; [apply Hsym |]. split; [| split; [apply Hzero |]].
  - intros Hne. unfold calculateSimilarity.
    apply Nat.eqb_neq in Hne. now rewrite Hne.
  - split; [apply Hsign |]. split; [apply Hsign; apply Hpos |].
    apply Hzero. unfold generateSimpleEmbedding.
    change (countCodes []) with (repeat 0 dimension).
    assert (Hall : Forall (fun w => w = 0) (repeat 0 dimension)).
    { apply Forall_forall. intros w Hw. now apply repeat_spec in Hw. }
    destruct (Rltb 0 (sqrt (sumOfSquares (repeat 0 dimension)))); [| exact Hall].
    apply Forall_forall. intros w Hw. apply in_map_iff in Hw.
    destruct Hw as (u & <- & Hu). apply repeat_spec in Hu. subst u.
    unfold Rdiv. lra.
Qed.

End Embeddings.


(** ** Memories: retrieval *)

Section Retrieval.
Import AgentMemory.









End Retrieval.

(** ** Agents: leaving a conversation *)

Section Leaving.
Import AgentConversation.

Lemma leaveChance_range (clock : Z) (context : LeaveContext) :
  1 / 10 <= leaveChance clock context <= 135 / 100.
Proof.
  unfold leaveChance.
  repeat match goal with
    | |- context [if ?b then _ else _] => destruct b
    end; lra.
Qed.

(** X30.  Whatever the context is, [shouldLeaveConversation] answers true
    for every draw below 0.1 and false for every draw of 0.8 or more: the
    chance to leave lies between 10% and 80%.  In a conversation of more than
    15 messages whose last message is more than 5 minutes old the chance is
    80%: the answer is true exactly for the draws below 0.8. *)
Theorem shouldLeaveConversation_chance_is_capped :
  forall (random : R) (clock : Z) (context : LeaveContext),
    (random < 1 / 10 -> shouldLeaveConversation random clock context = true)
    /\ (8 / 10 <= random ->
        shouldLeaveConversation random clock context = false)
    /\ (15 < conversationLength context ->
        (5 * 60 * 1000 < clock - lastMessageTime context)%Z ->
        shouldLeaveConversation random clock context = Rltb random (8 / 10)).
Proof.
  intros random clock context. unfold shouldLeaveConversation.
  pose proof (leaveChance_range clock context) as Hrange.
  split; [| split].
  - intros Hr. apply Rltb_true. revert Hrange.
    generalize (leaveChance clock context). intros c Hc. rminmax.
  - intros Hr. apply Rltb_false. revert Hrange.
    generalize (leaveChance clock context). intros c Hc. rminmax.
  - intros Hlen Htime.
    assert (Hc : 8 / 10 <= leaveChance clock context).
    { unfold leaveChance.
      apply Rltb_true in Hlen. rewrite Hlen.
      apply Z.ltb_lt in Htime. rewrite Htime.
      repeat match goal with
        | |- context [if ?b then _ else _] => destruct b
        end; lra. }
    f_equal. revert Hc. generalize (leaveChance clock context).
    intros c Hc. rminmax.
Qed.
End Leaving.
